(** * Session relay and coordinate normalisation of the browser agent

    A shallow embedding of
    - [backend/src/services/streaming-playwright-service.ts]
      (class [StreamingPlaywrightService]) and
    - [streaming-server.ts] (the WebSocket relay),
    followed by the properties of the relay that the design document
    states about them.

    Conventions of the embedding.
    - A TypeScript [number] is the rational that it denotes ([Q]); every
      finite double is one ([double]).  Comparisons, [Math.min] and
      [Math.floor] are exact on doubles, and so is [viewportSize.width - 1],
      the size being a whole number of pixels; a product, a difference and
      a quotient of other numbers are rounded to the nearest double, ties
      to even ([round]).  A rational of magnitude [2 ** 1024] or more
      stands for the infinity of its sign, which is what an operation
      returns whose rounded result is that large; [NaN] and the sign of
      zero are not represented.
    - A string is a [string] of 8-bit code units; [length] counts units as
      [String.prototype.length] does.
    - An [async] method is a resumption ([Prog]): synchronous stretches read
      and write the shared memory, and every [await] of a driver promise is
      a suspension point ([Await]) answered by the environment.  The same
      program text is run to completion by [run] and interleaved with other
      handlers by [sched]. *)

From Stdlib Require Import ZArith QArith Qround Qminmax Qabs Qpower.
From Stdlib Require Import String Ascii List Lia Lqa.
From stdpp Require Import base option list gmap strings.

Local Open Scope string_scope.
Local Open Scope list_scope.

(** ** Numbers *)

(** [2 ** e] *)
Definition pow2 (e : Z) : Q := (2 ^ e)%Q.

(** The binary order of magnitude of a number other than zero: the [L]
    with [2 ** L <= |q| < 2 ** (L + 1)]. *)
Definition Qlog2 (q : Q) : Z :=
  match Qnum q with
  | Z0 => 0%Z
  | _ =>
      let k := (Z.log2 (Z.abs (Qnum q)) - Z.log2 (Zpos (Qden q)))%Z in
      if Qle_bool (pow2 k) (Qabs q) then k else (k - 1)%Z
  end.

(** The exponent of the unit in the last place of the doubles of the
    magnitude of [q]: 53 significant bits, and no unit below [2 ** -1074]. *)
Definition exponent (q : Q) : Z := Z.max (-1074) (Qlog2 q - 52).

(** The integer nearest to [r], the even one of two that are equally near. *)
Definition nearest_even (r : Q) : Z :=
  let f := Qfloor r in
  match (r - inject_Z f ?= 1 # 2)%Q with
  | Lt => f
  | Gt => (f + 1)%Z
  | Eq => if Z.even f then f else (f + 1)%Z
  end.

(** The double that an arithmetic operation returns when its exact result
    is [q]: the multiple of the unit in the last place that is nearest to
    [q]. *)
Definition round (q : Q) : Q :=
  (inject_Z (nearest_even (q / pow2 (exponent q))) * pow2 (exponent q))%Q.

(** [q] needs no rounding: it is the value of a double, of a finite one
    when its magnitude is below [2 ** 1024]. *)
Definition double (q : Q) : Prop := (round q == q)%Q.

(** [Number.isFinite] *)
Definition finite (q : Q) : bool := negb (Qle_bool (pow2 1024) (Qabs q)).

(** ** Pointer coordinates *)

(** [page.viewportSize()]: the pixel size of the rendering surface. *)
Record ViewportSize := { width : Z; height : Z }.

Definition Qgt_bool (a b : Q) : bool := negb (Qle_bool a b).

(** The coordinate fix that [click], [mouseDown], [mouseUp] and [mouseMove]
    each carry verbatim: the pair [(absoluteX, absoluteY)]. *)
Definition absolute (viewportSize : ViewportSize) (x y : Q) : Q * Q :=
  if Qle_bool x 1 && Qle_bool y 1 then
    (inject_Z (Qfloor (round (x * inject_Z (width viewportSize)))),
     inject_Z (Qfloor (round (y * inject_Z (height viewportSize)))))
  else if Qgt_bool x (inject_Z (width viewportSize))
          || Qgt_bool y (inject_Z (height viewportSize)) then
    (Qmin x (inject_Z (width viewportSize) - 1),
     Qmin y (inject_Z (height viewportSize) - 1))
  else (x, y).

(** Membership of a pair in [[0, W-1] × [0, H-1]]. *)
Definition in_viewport (viewportSize : ViewportSize) (p : Q * Q) : Prop :=
  (0 <= fst p /\ fst p <= inject_Z (width viewportSize) - 1 /\
   0 <= snd p /\ snd p <= inject_Z (height viewportSize) - 1)%Q.

Definition default_viewport : ViewportSize := {| width := 1280; height := 720 |}.

(** ** Driver, memory and resumptions *)

(** An error, by its message ([error.message]). *)
Definition Err := string.

(** Calls into the browser driver (Playwright and its CDP session); the
    option bags of [launch], [newContext], [startScreencast] and
    [captureScreenshot] are constants of the source and are left out. *)
Inductive DriverCall :=
| ChromiumLaunch
| BrowserNewContext (viewport : ViewportSize)
| ContextNewPage
| PageGoto (url : string)
| ContextNewCDPSession
| CdpSend (method : string)
| CdpDetach
| MouseClick (x y : Q)
| MouseMove (x y : Q)
| MouseDown
| MouseUp
| KeyboardPress (key : string)
| KeyboardType (text : string)
| PageGoBack
| PageGoForward
| PageReload
| PageScreenshot
| PageClose
| ContextClose
| BrowserClose.

(** How a driver promise settles; [Resolved] carries the payload of the
    calls that have one (an image, in base64). *)
Inductive Reply := Rejected (e : Err) | Resolved (data : string).

Inductive Browser := BrowserHandle.
Inductive BrowserContext := BrowserContextHandle.
Inductive CDPSession := CDPSessionHandle.
Record Page := { viewportSize : option ViewportSize }.

(** The private fields of [StreamingPlaywrightService]. *)
Record Service := {
  browser : option Browser;
  context : option BrowserContext;
  page : option Page;
  streamingClient : option CDPSession;
  isStreaming : bool;
  lastActivity : Z;
  sessionId : string;
  periodicFrameInterval : option nat;
  lastFrameTimestamp : Z
}.

Definition FRAME_INTERVAL : Z := 1000.

(** Field initialisers of the class ([constructor() {}]). *)
Definition new_Service : Service :=
  {| browser := None; context := None; page := None; streamingClient := None;
     isStreaming := false; lastActivity := 0; sessionId := EmptyString;
     periodicFrameInterval := None; lastFrameTimestamp := 0 |}.

Definition set_browser v (s : Service) : Service :=
  {| browser := v; context := context s; page := page s;
     streamingClient := streamingClient s; isStreaming := isStreaming s;
     lastActivity := lastActivity s; sessionId := sessionId s;
     periodicFrameInterval := periodicFrameInterval s;
     lastFrameTimestamp := lastFrameTimestamp s |}.
Definition set_context v (s : Service) : Service :=
  {| browser := browser s; context := v; page := page s;
     streamingClient := streamingClient s; isStreaming := isStreaming s;
     lastActivity := lastActivity s; sessionId := sessionId s;
     periodicFrameInterval := periodicFrameInterval s;
     lastFrameTimestamp := lastFrameTimestamp s |}.
Definition set_page v (s : Service) : Service :=
  {| browser := browser s; context := context s; page := v;
     streamingClient := streamingClient s; isStreaming := isStreaming s;
     lastActivity := lastActivity s; sessionId := sessionId s;
     periodicFrameInterval := periodicFrameInterval s;
     lastFrameTimestamp := lastFrameTimestamp s |}.
Definition set_streamingClient v (s : Service) : Service :=
  {| browser := browser s; context := context s; page := page s;
     streamingClient := v; isStreaming := isStreaming s;
     lastActivity := lastActivity s; sessionId := sessionId s;
     periodicFrameInterval := periodicFrameInterval s;
     lastFrameTimestamp := lastFrameTimestamp s |}.
Definition set_isStreaming v (s : Service) : Service :=
  {| browser := browser s; context := context s; page := page s;
     streamingClient := streamingClient s; isStreaming := v;
     lastActivity := lastActivity s; sessionId := sessionId s;
     periodicFrameInterval := periodicFrameInterval s;
     lastFrameTimestamp := lastFrameTimestamp s |}.
Definition set_lastActivity v (s : Service) : Service :=
  {| browser := browser s; context := context s; page := page s;
     streamingClient := streamingClient s; isStreaming := isStreaming s;
     lastActivity := v; sessionId := sessionId s;
     periodicFrameInterval := periodicFrameInterval s;
     lastFrameTimestamp := lastFrameTimestamp s |}.
Definition set_sessionId v (s : Service) : Service :=
  {| browser := browser s; context := context s; page := page s;
     streamingClient := streamingClient s; isStreaming := isStreaming s;
     lastActivity := lastActivity s; sessionId := v;
     periodicFrameInterval := periodicFrameInterval s;
     lastFrameTimestamp := lastFrameTimestamp s |}.
Definition set_periodicFrameInterval v (s : Service) : Service :=
  {| browser := browser s; context := context s; page := page s;
     streamingClient := streamingClient s; isStreaming := isStreaming s;
     lastActivity := lastActivity s; sessionId := sessionId s;
     periodicFrameInterval := v;
     lastFrameTimestamp := lastFrameTimestamp s |}.
Definition set_lastFrameTimestamp v (s : Service) : Service :=
  {| browser := browser s; context := context s; page := page s;
     streamingClient := streamingClient s; isStreaming := isStreaming s;
     lastActivity := lastActivity s; sessionId := sessionId s;
     periodicFrameInterval := periodicFrameInterval s;
     lastFrameTimestamp := v |}.

(** Outbound messages, before [JSON.stringify]; the sender of a chat message
    is always ['system']. *)
Inductive Message :=
| ChatMessage (text : string) (timestamp : Z)
| FrameMessage (data : string) (timestamp : Q) (fwidth fheight : option Q).

Inductive ReadyState := CONNECTING | OPEN | CLOSING | CLOSED.

(** A WebSocket of [wss.clients]: the [sessionId] the connection handler
    attaches, its state, whether the handler has attached its listeners
    yet, and what was sent on it, each message with the time of sending. *)
Record Socket := {
  ws_sessionId : string;
  readyState : ReadyState;
  listening : bool;
  outbox : list (Z * Message)
}.

(** Console output of the [catch] handlers (the progress lines of the
    happy paths, and numbers interpolated in a text, are left out). *)
Inductive LogLine :=
| ConsoleLog (text : string)
| ConsoleError (text : string) (error : Err).

(** The memory shared by all handlers of the process: service objects by
    address, the module-level [activeSessions] map, the sockets, the
    interval timers (owner, armed), the console and the wall clock. *)
Record Mem := {
  heap : list Service;
  activeSessions : gmap string nat;
  clients : list Socket;
  timers : list (nat * bool);
  console : list LogLine;
  clock : Z
}.

Definition set_heap v (m : Mem) : Mem :=
  {| heap := v; activeSessions := activeSessions m; clients := clients m;
     timers := timers m; console := console m; clock := clock m |}.
Definition set_activeSessions v (m : Mem) : Mem :=
  {| heap := heap m; activeSessions := v; clients := clients m;
     timers := timers m; console := console m; clock := clock m |}.
Definition set_clients v (m : Mem) : Mem :=
  {| heap := heap m; activeSessions := activeSessions m; clients := v;
     timers := timers m; console := console m; clock := clock m |}.
Definition set_timers v (m : Mem) : Mem :=
  {| heap := heap m; activeSessions := activeSessions m; clients := clients m;
     timers := v; console := console m; clock := clock m |}.
Definition set_console v (m : Mem) : Mem :=
  {| heap := heap m; activeSessions := activeSessions m; clients := clients m;
     timers := timers m; console := v; clock := clock m |}.
Definition set_clock v (m : Mem) : Mem :=
  {| heap := heap m; activeSessions := activeSessions m; clients := clients m;
     timers := timers m; console := console m; clock := v |}.

Definition empty_Mem : Mem :=
  {| heap := []; activeSessions := ∅; clients := []; timers := [];
     console := []; clock := 0 |}.

(** An [async] function body.  [Get]/[Put] are the synchronous accesses to
    memory, [Await] hands a call to the driver and suspends until the
    promise settles. *)
Inductive Prog (A : Type) : Type :=
| Ret (a : A)
| Throw (e : Err)
| Get (k : Mem -> Prog A)
| Put (m : Mem) (k : Prog A)
| Await (c : DriverCall) (k : Reply -> Prog A).

Arguments Ret {A} a.
Arguments Throw {A} e.
Arguments Get {A} k.
Arguments Put {A} m k.
Arguments Await {A} c k.

Fixpoint bind {A B} (p : Prog A) (f : A -> Prog B) : Prog B :=
  match p with
  | Ret a => f a
  | Throw e => Throw e
  | Get k => Get (fun m => bind (k m) f)
  | Put m k => Put m (bind k f)
  | Await c k => Await c (fun r => bind (k r) f)
  end.

#[export] Instance Prog_ret : MRet Prog := @Ret.
#[export] Instance Prog_bind : MBind Prog := fun A B f p => bind p f.

(** [try { p } catch (error) { h error }] *)
Fixpoint try_catch {A} (p : Prog A) (h : Err -> Prog A) : Prog A :=
  match p with
  | Ret a => Ret a
  | Throw e => h e
  | Get k => Get (fun m => try_catch (k m) h)
  | Put m k => Put m (try_catch k h)
  | Await c k => Await c (fun r => try_catch (k r) h)
  end.

(** [await driver.call(...)]: a rejected promise throws at the [await]. *)
Definition call (c : DriverCall) : Prog string :=
  Await c (fun r => match r with Rejected e => Throw e | Resolved d => Ret d end).

Definition modify (f : Mem -> Mem) : Prog unit :=
  Get (fun m => Put (f m) (Ret tt)).

Definition service_at (this : nat) (m : Mem) : Service :=
  default new_Service (heap m !! this).

(** Reading and assigning fields of [this]. *)
Definition self (this : nat) : Prog Service :=
  Get (fun m => Ret (service_at this m)).

(** Memory after [this.field = ...]. *)
Definition upd (this : nat) (f : Service -> Service) (m : Mem) : Mem :=
  set_heap (<[this := f (service_at this m)]> (heap m)) m.

Definition assign (this : nat) (f : Service -> Service) : Prog unit :=
  modify (upd this f).

Definition Date_now : Prog Z := Get (fun m => Ret (clock m)).

Definition console_log (text : string) : Prog unit :=
  modify (fun m => set_console (console m ++ [ConsoleLog text]) m).

Definition console_error (text : string) (error : Err) : Prog unit :=
  modify (fun m => set_console (console m ++ [ConsoleError text error]) m).

Definition push (msg : Message) (now : Z) (ws : Socket) : Socket :=
  {| ws_sessionId := ws_sessionId ws; readyState := readyState ws;
     listening := listening ws; outbox := outbox ws ++ [(now, msg)] |}.

Definition is_open (ws : Socket) : bool :=
  match readyState ws with OPEN => true | _ => false end.

(** [ws.send(JSON.stringify(msg))].  Nothing is transmitted on a socket
    that is not open; whether the [ws] library then throws or drops the
    message depends on its version, and the embedding drops it. *)
Definition transmit (ws : nat) (msg : Message) (m : Mem) : Mem :=
  match clients m !! ws with
  | Some sock =>
      if is_open sock
      then set_clients (<[ws := push msg (clock m) sock]> (clients m)) m
      else m
  | None => m
  end.

Definition ws_send (ws : nat) (msg : Message) : Prog unit :=
  modify (transmit ws msg).

Definition chat (ws : nat) (text : string) : Prog unit :=
  now ← Date_now; ws_send ws (ChatMessage text now).

Definition setInterval (owner : nat) : Prog nat :=
  Get (fun m => Put (set_timers (timers m ++ [(owner, true)]) m)
                    (Ret (length (timers m)))).

Definition clearInterval (t : nat) : Prog unit :=
  modify (fun m => set_timers (alter (fun e => (fst e, false)) t (timers m)) m).

(** ** StreamingPlaywrightService *)

(** The message of the [TypeError] of reading a property of [null]. *)
Definition TypeError_null (property : string) : Err :=
  "Cannot read properties of null (reading '" +:+ property +:+ "')".

(** [this.page.…] and [this.streamingClient.…] evaluated after an [await]:
    the field is read again, and [null] there is a [TypeError] that names
    the property that was asked of it. *)
Definition the_page (this : nat) (property : string) : Prog Page :=
  s ← self this;
  match page s with
  | Some pg => Ret pg
  | None => Throw (TypeError_null property)
  end.

Definition the_streamingClient (this : nat) (property : string) : Prog CDPSession :=
  s ← self this;
  match streamingClient s with
  | Some c => Ret c
  | None => Throw (TypeError_null property)
  end.

#[export] Instance ReadyState_eq_dec : EqDecision ReadyState.
Proof. solve_decision. Defined.

(** [Array.from(wss.clients).find(client => client.sessionId ===
    this.sessionId && client.readyState === WebSocket.OPEN)], with the
    position of the socket found. *)
Definition socket_of (this : nat) (m : Mem) : option (nat * Socket) :=
  list_find
    (fun client => ws_sessionId client = sessionId (service_at this m)
                   /\ readyState client = OPEN)
    (clients m).

Definition findWebSocketForSession (this : nat) : Prog (option nat) :=
  Get (fun m => Ret (fst <$> socket_of this m)).

(** A frame pushed by the driver ([Page.screencastFrame]). *)
Record ScreencastFrame := {
  frame_data : string;
  frame_timestamp : Q;
  deviceWidth : Q;
  deviceHeight : Q;
  frame_sessionId : Z
}.

(** The listener that [setupScreencast] registers. *)
Definition onScreencastFrame (this : nat) (frame : ScreencastFrame) : Prog unit :=
  s ← self this;
  if negb (isStreaming s) then Ret tt else
  now ← Date_now;
  assign this (set_lastFrameTimestamp now);;
  assign this (set_lastActivity now);;
  try_catch
    (ws ← findWebSocketForSession this;
     match ws with
     | None => Ret tt
     | Some ws =>
         ws_send ws (FrameMessage (frame_data frame) (frame_timestamp frame)
                       (Some (deviceWidth frame)) (Some (deviceHeight frame)));;
         s ← self this;
         if isStreaming s && bool_decide (is_Some (streamingClient s)) then
           try_catch
             (call (CdpSend "Page.screencastFrameAck");; Ret tt)
             (fun ackError =>
                console_log "Frame acknowledgment error - continuing stream")
         else Ret tt
     end)
    (fun error => console_error "Frame processing error" error).

Definition setupScreencast (this : nat) : Prog unit :=
  s ← self this;
  match page s with
  | None => Throw "Page not initialized"
  | Some _ =>
      try_catch
        (call ContextNewCDPSession;;
         assign this (set_streamingClient (Some CDPSessionHandle));;
         the_streamingClient this "send";;
         call (CdpSend "Page.startScreencast");;
         assign this (set_isStreaming true))
        (fun error =>
           console_error "Failed to setup screencast:" error;;
           Throw error)
  end.

(** The callback that [startPeriodicFrames] hands to [setInterval]. *)
Definition periodicFrame (this : nat) : Prog unit :=
  s ← self this;
  if negb (isStreaming s) || bool_decide (page s = None)
     || bool_decide (streamingClient s = None)
  then Ret tt else
  now ← Date_now;
  if (lastFrameTimestamp s =? 0)%Z
     || (FRAME_INTERVAL <=? now - lastFrameTimestamp s)%Z
  then
    try_catch
      (result ← call (CdpSend "Page.captureScreenshot");
       ws ← findWebSocketForSession this;
       match ws with
       | None => Ret tt
       | Some ws =>
           pg ← the_page this "viewportSize";
           ws_send ws (FrameMessage result (inject_Z now)
                         (inject_Z ∘ width <$> viewportSize pg)
                         (inject_Z ∘ height <$> viewportSize pg));;
           assign this (set_lastFrameTimestamp now)
       end)
      (fun error => console_error "Periodic frame capture error:" error)
  else Ret tt.

Definition startPeriodicFrames (this : nat) : Prog unit :=
  t ← setInterval this;
  assign this (set_periodicFrameInterval (Some t)).

Definition initialize (this : nat) (sessionId : string) : Prog unit :=
  try_catch
    (assign this (set_sessionId sessionId);;
     now ← Date_now;
     assign this (set_lastActivity now);;
     call ChromiumLaunch;;
     assign this (set_browser (Some BrowserHandle));;
     call (BrowserNewContext default_viewport);;
     assign this (set_context (Some BrowserContextHandle));;
     call ContextNewPage;;
     assign this (set_page (Some {| viewportSize := Some default_viewport |}));;
     the_page this "goto";;
     call (PageGoto "https://www.excalidraw.com");;
     setupScreencast this;;
     startPeriodicFrames this)
    (fun error =>
       console_error "Failed to initialize Playwright:" error;;
       Throw error).

Definition navigate (this : nat) (url : string) : Prog unit :=
  s ← self this;
  match page s with
  | None => Throw "Playwright not initialized"
  | Some _ =>
      try_catch
        (call (PageGoto url);;
         now ← Date_now;
         assign this (set_lastActivity now))
        (fun error =>
           console_error ("PlaywrightService: Failed to navigate to " +:+ url +:+ ":") error;;
           Throw error)
  end.

(** The common shape of the four pointer methods: the guard on [this.page],
    the viewport lookup, the coordinate fix, then the driver calls. *)
Definition pointer (this : nat) (x y : Q) (failure : string)
    (act : Q -> Q -> Prog unit) : Prog unit :=
  s ← self this;
  match page s with
  | None => Throw "Playwright not initialized"
  | Some pg =>
      try_catch
        (match viewportSize pg with
         | None => Throw "Unable to get viewport size"
         | Some viewportSize =>
             let '(absoluteX, absoluteY) := absolute viewportSize x y in
             act absoluteX absoluteY;;
             now ← Date_now;
             assign this (set_lastActivity now)
         end)
        (fun error => console_error failure error;; Throw error)
  end.

Definition click (this : nat) (x y : Q) : Prog unit :=
  pointer this x y "PlaywrightService: Failed to click"
    (fun absoluteX absoluteY => call (MouseClick absoluteX absoluteY);; Ret tt).

Definition mouseDown (this : nat) (x y : Q) : Prog unit :=
  pointer this x y "PlaywrightService: Failed to execute mouse down"
    (fun absoluteX absoluteY =>
       call (MouseMove absoluteX absoluteY);;
       the_page this "mouse";;
       call MouseDown;; Ret tt).

Definition mouseUp (this : nat) (x y : Q) : Prog unit :=
  pointer this x y "PlaywrightService: Failed to execute mouse up"
    (fun absoluteX absoluteY =>
       call (MouseMove absoluteX absoluteY);;
       the_page this "mouse";;
       call MouseUp;; Ret tt).

Definition mouseMove (this : nat) (x y : Q) : Prog unit :=
  pointer this x y "PlaywrightService: Failed to move mouse"
    (fun absoluteX absoluteY => call (MouseMove absoluteX absoluteY);; Ret tt).

(** The [case] labels of [pressKey], in order, each with its driver call. *)
Definition key_table : list (string * DriverCall) :=
  [ ("Back", PageGoBack);
    ("Forward", PageGoForward);
    ("F5", PageReload);
    ("Enter", KeyboardPress "Enter");
    ("Backspace", KeyboardPress "Backspace");
    ("Tab", KeyboardPress "Tab");
    ("Escape", KeyboardPress "Escape");
    ("ArrowLeft", KeyboardPress "ArrowLeft");
    ("ArrowRight", KeyboardPress "ArrowRight");
    ("ArrowUp", KeyboardPress "ArrowUp");
    ("ArrowDown", KeyboardPress "ArrowDown");
    ("Delete", KeyboardPress "Delete");
    (" ", KeyboardPress "Space") ].

Fixpoint switch (key : string) (cases : list (string * DriverCall))
    (default : DriverCall) : DriverCall :=
  match cases with
  | [] => default
  | (label, action) :: rest =>
      if String.eqb key label then action else switch key rest default
  end.

(** The driver call that [pressKey key] issues. *)
Definition key_action (key : string) : DriverCall :=
  switch key key_table
    (if (String.length key =? 1)%nat then KeyboardType key else KeyboardPress key).

Definition pressKey (this : nat) (key : string) : Prog unit :=
  s ← self this;
  match page s with
  | None => Throw "Playwright not initialized"
  | Some _ =>
      try_catch
        (call (key_action key);;
         now ← Date_now;
         assign this (set_lastActivity now))
        (fun error =>
           console_error ("PlaywrightService: Failed to press key " +:+ key +:+ ":") error;;
           Throw error)
  end.

Definition takeScreenshot (this : nat) : Prog string :=
  s ← self this;
  match page s with
  | None => Throw "Playwright not initialized"
  | Some _ =>
      try_catch
        (screenshot ← call PageScreenshot;
         Ret ("data:image/jpeg;base64," +:+ screenshot))
        (fun error =>
           console_error "PlaywrightService: Failed to take screenshot:" error;;
           Throw error)
  end.

Definition close (this : nat) : Prog unit :=
  try_catch
    (assign this (set_isStreaming false);;
     s ← self this;
     match periodicFrameInterval s with
     | Some t =>
         clearInterval t;;
         assign this (set_periodicFrameInterval None)
     | None => Ret tt
     end;;
     s ← self this;
     match streamingClient s with
     | Some _ =>
         try_catch
           (call (CdpSend "Page.stopScreencast");;
            the_streamingClient this "detach";;
            call CdpDetach;; Ret tt)
           (fun error => console_log "Screencast already stopped or detached");;
         assign this (set_streamingClient None)
     | None => Ret tt
     end;;
     s ← self this;
     match page s with
     | Some _ => call PageClose;; assign this (set_page None)
     | None => Ret tt
     end;;
     s ← self this;
     match context s with
     | Some _ => call ContextClose;; assign this (set_context None)
     | None => Ret tt
     end;;
     s ← self this;
     match browser s with
     | Some _ => call BrowserClose;; assign this (set_browser None)
     | None => Ret tt
     end)
    (fun error =>
       console_error "PlaywrightService: Failed to close:" error;;
       Throw error).

(** ** The relay (streaming-server.ts) *)

Record ChatContent := { chat_text : string }.

(** A parsed inbound message ([data]): an object whose fields [type],
    [key] and [content], where it has them, are of the type that the
    protocol gives them (a string, a string, and an object with a string
    [text]).  [data_type] and [data_content] are [None] when the field is
    absent; [data_key] is [None] when the field is absent or holds another
    value that counts as false ([null], [false], [0]); [data_x] and
    [data_y] are [None] when the field is absent or is not a number, and
    hold the number otherwise.  A parsed value that has no fields (a
    number, a string, a boolean, an array) is the record of five [None]s.
    An object in which [type], [key] or [content] is of another type than
    the protocol's (a number as [key], say) has no counterpart in this
    record. *)
Record ClientData := {
  data_type : option string;
  data_x : option Q;
  data_y : option Q;
  data_key : option string;
  data_content : option ChatContent
}.

(** What arrives on the socket: text that [JSON.parse] rejects (with the
    parser's message), a parsed message, or the JSON text [null]. *)
Inductive Inbound := Unparseable (e : Err) | Parsed (data : ClientData) | Null.

(** [`${data.type}`]: the string, or [undefined] for the absent field. *)
Definition show_type (data : ClientData) : string :=
  default "undefined" (data_type data).

Definition handleMouseEvent (browserService : nat) (data : ClientData)
    (ws : nat) : Prog unit :=
  try_catch
    (match data_x data, data_y data with
     | Some x, Some y =>
         match data_type data with
         | Some "click" => click browserService x y
         | Some "mousedown" => mouseDown browserService x y
         | Some "mouseup" => mouseUp browserService x y
         | Some "mousemove" => mouseMove browserService x y
         | _ => Ret tt
         end
     | _, _ => Throw "Missing coordinates"
     end)
    (fun error =>
       console_error "Error handling mouse event:" error;;
       chat ws ("Error with " +:+ show_type data +:+ ": " +:+ error)).

(** [!data.key] holds of the absent field, of a value that counts as false
    and of the empty string. *)
Definition handleKeyEvent (browserService : nat) (data : ClientData)
    (ws : nat) : Prog unit :=
  try_catch
    (match data_key data with
     | None | Some EmptyString => Throw "Missing key value"
     | Some key => pressKey browserService key
     end)
    (fun error =>
       console_error "Error handling key event:" error;;
       chat ws ("Error pressing key: " +:+ error)).

Definition to_lower (c : ascii) : ascii :=
  let n := nat_of_ascii c in
  if (65 <=? n)%nat && (n <=? 90)%nat then ascii_of_nat (n + 32) else c.

(** Consume [pattern] at the head of [text], letters compared without case
    (the [i] flag); the remainder of [text] on success. *)
Fixpoint match_literal_i (pattern text : string) : option string :=
  match pattern with
  | EmptyString => Some text
  | String p pattern' =>
      match text with
      | EmptyString => None
      | String c text' =>
          if Ascii.eqb (to_lower p) (to_lower c)
          then match_literal_i pattern' text' else None
      end
  end.

Definition line_terminator (c : ascii) : bool :=
  Ascii.eqb c "010" || Ascii.eqb c "013".

(** [(.+)$]: one or more characters, none a line terminator, up to the end
    of the input. *)
Fixpoint dot_star_end (text : string) : bool :=
  match text with
  | EmptyString => true
  | String c text' => negb (line_terminator c) && dot_star_end text'
  end.

Definition dot_plus_end (text : string) : bool :=
  match text with
  | EmptyString => false
  | _ => dot_star_end text
  end.

(** [text.match(/^(go to|navigate to|open) (.+)$/i)], reduced to the second
    group; the alternatives are tried from left to right. *)
Fixpoint match_alternatives (alternatives : list string) (text : string)
    : option string :=
  match alternatives with
  | [] => None
  | alt :: rest =>
      match match_literal_i (alt +:+ " ") text with
      | Some target =>
          if dot_plus_end target then Some target
          else match_alternatives rest text
      | None => match_alternatives rest text
      end
  end.

Definition navigateRegex (text : string) : option string :=
  match_alternatives ["go to"; "navigate to"; "open"] text.

Definition quote : ascii := "034"%char.

(** [navigateMatch[2].startsWith('http') ? navigateMatch[2]
     : `https://${navigateMatch[2]}`] *)
Definition navigation_url (target : string) : string :=
  if String.prefix "http" target then target else "https://" +:+ target.

Definition handleChatMessage (browserService : nat)
    (chatMessage : option ChatContent) (ws : nat) : Prog unit :=
  match chatMessage with
  | None => Throw "Cannot read properties of undefined (reading 'text')"
  | Some chatMessage =>
      match navigateRegex (chat_text chatMessage) with
      | Some target =>
          try_catch
            (let url := navigation_url target in
             chat ws ("Navigating to " +:+ url +:+ "...");;
             navigate browserService url)
            (fun error =>
               console_error "Error navigating:" error;;
               chat ws ("Error navigating: " +:+ error))
      | None =>
          chat ws ("Received your message: " +:+ String quote
                     (chat_text chatMessage +:+ String quote EmptyString))
      end
  end.

Definition cleanupSession (sessionId : string) : Prog unit :=
  m ← Get Ret;
  match activeSessions m !! sessionId with
  | Some browserService =>
      try_catch
        (close browserService;;
         modify (fun m => set_activeSessions (delete sessionId (activeSessions m)) m))
        (fun error =>
           console_error ("Error cleaning up session " +:+ sessionId +:+ ":") error)
  | None => Ret tt
  end.

(** [ws.on('message', ...)] *)
Definition onMessage (ws : nat) (sessionId : string) (message : Inbound)
    : Prog unit :=
  try_catch
    (data ← match message with
            | Unparseable e => Throw e
            | Parsed data => Ret (Some data)
            | Null => Ret None
            end;
     m ← Get Ret;
     match activeSessions m !! sessionId with
     | None => chat ws "Session not found or expired. Please reconnect."
     | Some browserService =>
         match data with
         | None => Throw (TypeError_null "type")
         | Some data =>
             match data_type data with
             | Some "click" | Some "mousedown" | Some "mouseup" | Some "mousemove" =>
                 handleMouseEvent browserService data ws
             | Some "keyPress" | Some "keypress" =>
                 handleKeyEvent browserService data ws
             | Some "chat" =>
                 handleChatMessage browserService (data_content data) ws
             | _ => chat ws ("Unknown command: " +:+ show_type data)
             end
         end
     end)
    (fun error =>
       console_error "Error processing message:" error;;
       chat ws ("Error processing message: " +:+ error)).

Definition set_ws_sessionId (v : string) (ws : Socket) : Socket :=
  {| ws_sessionId := v; readyState := readyState ws;
     listening := listening ws; outbox := outbox ws |}.

Definition set_listening (v : bool) (ws : Socket) : Socket :=
  {| ws_sessionId := ws_sessionId ws; readyState := readyState ws;
     listening := v; outbox := outbox ws |}.

(** [new StreamingPlaywrightService()] *)
Definition new_service : Prog nat :=
  Get (fun m => Put (set_heap (heap m ++ [new_Service]) m)
                    (Ret (length (heap m)))).

(** [wss.on('connection', ...)]; [sessionId] is the fresh [uuidv4()].  The
    message, close and error listeners are attached once the
    initialisation has settled. *)
Definition onConnection (ws : nat) (sessionId : string) : Prog unit :=
  modify (fun m => set_clients (alter (set_ws_sessionId sessionId) ws (clients m)) m);;
  chat ws "Connected to browser automation server. Initializing browser...";;
  try_catch
    (browserService ← new_service;
     initialize browserService sessionId;;
     modify (fun m => set_activeSessions
                        (<[sessionId := browserService]> (activeSessions m)) m);;
     chat ws "Browser initialized and streaming. Ready for interaction!")
    (fun error =>
       console_error ("Failed to initialize browser for " +:+ sessionId +:+ ":") error;;
       chat ws ("Error initializing browser: " +:+ error));;
  modify (fun m => set_clients (alter (set_listening true) ws (clients m)) m).

(** ** Running handlers *)

(** The environment: how the driver settles a call, given the calls made
    before it, and how many milliseconds pass meanwhile. *)
Definition Oracle := list DriverCall -> DriverCall -> N * Reply.

Record World := { mem : Mem; calls : list DriverCall }.

Inductive Outcome (A : Type) := Returned (a : A) | Thrown (e : Err).
Arguments Returned {A} a.
Arguments Thrown {A} e.

Definition settle (o : Oracle) (c : DriverCall) (w : World) : Reply * World :=
  let '(elapsed, r) := o (calls w) c in
  (r, {| mem := set_clock (clock (mem w) + Z.of_N elapsed) (mem w);
         calls := calls w ++ [c] |}).

(** A handler run to completion, every [await] settled at once. *)
Fixpoint run {A} (o : Oracle) (p : Prog A) (w : World) : Outcome A * World :=
  match p with
  | Ret a => (Returned a, w)
  | Throw e => (Thrown e, w)
  | Get k => run o (k (mem w)) w
  | Put m k => run o k {| mem := m; calls := calls w |}
  | Await c k => let '(r, w') := settle o c w in run o (k r) w'
  end.

(** ** Interleaved handlers *)

(** The synchronous stretch of a handler: up to its next [await], or to its
    end. *)
Fixpoint advance {A} (p : Prog A) (m : Mem) : Prog A * Mem :=
  match p with
  | Get k => advance (k m) m
  | Put m' k => advance k m'
  | _ => (p, m)
  end.

(** A step of the event loop: time passes, an event starts a handler, or a
    pending driver promise of a suspended handler settles. *)
Inductive Step :=
| Wait (elapsed : N)
| Spawn (handler : Prog unit)
| Resume (task : nat) (r : Reply).

Record Pool := { world : World; tasks : list (Prog unit) }.

(** Run a handler to its next suspension; the call it suspends on is issued
    to the driver then. *)
Definition park (p : Prog unit) (w : World) : Prog unit * World :=
  let '(p', m') := advance p (mem w) in
  (p', {| mem := m';
          calls := calls w ++ match p' with Await c _ => [c] | _ => [] end |}).

Definition step (s : Pool) (st : Step) : Pool :=
  match st with
  | Wait elapsed =>
      {| world := {| mem := set_clock (clock (mem (world s)) + Z.of_N elapsed)
                              (mem (world s));
                     calls := calls (world s) |};
         tasks := tasks s |}
  | Spawn handler =>
      let '(p, w) := park handler (world s) in
      {| world := w; tasks := tasks s ++ [p] |}
  | Resume task r =>
      match tasks s !! task with
      | Some (Await _ k) =>
          let '(p, w) := park (k r) (world s) in
          {| world := w; tasks := <[task := p]> (tasks s) |}
      | _ => s
      end
  end.

Definition sched (steps : list Step) (s : Pool) : Pool :=
  fold_left step steps s.

(** The schedule on which a handler, started as task number [task], runs
    undisturbed: each of its promises settles, after the time the driver
    takes, before anything else happens. *)
Fixpoint alone {A} (o : Oracle) (task : nat) (p : Prog A) (w : World)
    : list Step :=
  match p with
  | Ret _ | Throw _ => []
  | Get k => alone o task (k (mem w)) w
  | Put m k => alone o task k {| mem := m; calls := calls w |}
  | Await c k =>
      Wait (fst (o (calls w) c)) :: Resume task (fst (settle o c w))
        :: alone o task (k (fst (settle o c w))) (snd (settle o c w))
  end.

(** A settled handler: the way its promise ends. *)
Definition settled {A} (r : Outcome A) : Prog A :=
  match r with Returned a => Ret a | Thrown e => Throw e end.

(** ** Vocabulary of the properties *)

(** The coordinates that a driver call carries, if any. *)
Definition target (c : DriverCall) : option (Q * Q) :=
  match c with
  | MouseClick x y | MouseMove x y => Some (x, y)
  | _ => None
  end.

Definition targets (cs : list DriverCall) : list (Q * Q) := omap target cs.

(** The four pointer operations of the service. *)
Definition pointer_operations : list (nat -> Q -> Q -> Prog unit) :=
  [click; mouseDown; mouseUp; mouseMove].

(** [this] is a session whose page has the given viewport. *)
Definition session_with_viewport (this : nat) (vp : ViewportSize) (w : World) : Prop :=
  exists s pg, heap (mem w) !! this = Some s /\ page s = Some pg /\
               viewportSize pg = Some vp.

(** The first of the calls [cs], issued in this order after the calls
    [hist], that the driver rejects. *)
Fixpoint first_rejection (o : Oracle) (hist cs : list DriverCall) : option Err :=
  match cs with
  | [] => None
  | c :: cs' =>
      match snd (o hist c) with
      | Rejected e => Some e
      | Resolved _ => first_rejection o (hist ++ [c]) cs'
      end
  end.

(** The calls among [cs] that are issued when they are made in this order
    after the calls [hist], each awaited before the next, and the first
    rejection ends the sequence. *)
Fixpoint attempted (o : Oracle) (hist cs : list DriverCall) : list DriverCall :=
  match cs with
  | [] => []
  | c :: cs' =>
      c :: match snd (o hist c) with
           | Rejected _ => []
           | Resolved _ => attempted o (hist ++ [c]) cs'
           end
  end.

(** The driver calls of a session creation, in order: [initialize] up to
    and including [setupScreencast]. *)
Definition initialize_calls : list DriverCall :=
  [ ChromiumLaunch; BrowserNewContext default_viewport; ContextNewPage;
    PageGoto "https://www.excalidraw.com"; ContextNewCDPSession;
    CdpSend "Page.startScreencast" ].

(** Status texts of the relay. *)
Definition welcome : string :=
  "Connected to browser automation server. Initializing browser...".

Definition session_not_found : string :=
  "Session not found or expired. Please reconnect.".

(** Every handle of the service is gone and capture is off. *)
Definition released (s : Service) : Prop :=
  browser s = None /\ context s = None /\ page s = None /\
  streamingClient s = None /\ periodicFrameInterval s = None /\
  isStreaming s = false.

Definition close_failure : string := "PlaywrightService: Failed to close:".

Definition capture_gone : string := "Screencast already stopped or detached".

(** The two driver calls that release the capture handle, and the three
    that release the page, the context and the browser. *)
Definition capture_calls : list DriverCall :=
  [CdpSend "Page.stopScreencast"; CdpDetach].

Definition release_calls : list DriverCall :=
  [PageClose; ContextClose; BrowserClose].

(** The release calls for the handles that a service holds, in the order
    in which [close] makes them. *)
Definition held (s : Service) : list DriverCall :=
  match page s with Some _ => [PageClose] | None => [] end ++
  match context s with Some _ => [ContextClose] | None => [] end ++
  match browser s with Some _ => [BrowserClose] | None => [] end.

(** The frames among the messages sent on a socket, each with the time it
    was sent at. *)
Definition is_frame (msg : Message) : bool :=
  match msg with FrameMessage _ _ _ _ => true | ChatMessage _ _ => false end.

Definition frames (ws : nat) (m : Mem) : list (Z * Message) :=
  match clients m !! ws with
  | Some sock => filter (fun e => is_frame (snd e) = true) (outbox sock)
  | None => []
  end.

Definition frame_times (ws : nat) (m : Mem) : list Z := map fst (frames ws m).

(** ** Sample environments *)

(** The double that the literal [0.6] denotes. *)
Definition three_fifths : Q := round (3 # 5).

(** A driver that resolves every call at once. *)
Definition obliging : Oracle := fun _ _ => (0%N, Resolved "ok").

(** A driver that rejects the calls that satisfy [bad] and resolves the
    others after [delay] milliseconds. *)
Definition rejecting (bad : DriverCall -> bool) (delay : N) : Oracle :=
  fun _ c => (delay, if bad c then Rejected "rejected" else Resolved "ok").

(** One accepted connection, before its handler runs. *)
Definition accepted : World :=
  {| mem := set_clients [ {| ws_sessionId := EmptyString; readyState := OPEN;
                             listening := false; outbox := [] |} ] empty_Mem;
     calls := [] |}.

(** The world once the connection handler has set up session ["s1"] on an
    obliging driver: service [0], socket [0]. *)
Definition streaming : World := snd (run obliging (onConnection 0 "s1") accepted).

Definition ok : Reply := Resolved "ok".

Definition idle : Pool := {| world := streaming; tasks := [] |}.

(** Two teardowns of session ["s1"] in flight at once (the close and the
    error event of one socket), their promises settling in turn. *)
Definition racing_cleanups : list Step :=
  [ Spawn (cleanupSession "s1"); Spawn (cleanupSession "s1");
    Resume 0 ok; Resume 1 ok; Resume 0 ok; Resume 1 ok; Resume 0 ok;
    Resume 1 ok; Resume 0 ok; Resume 1 ok; Resume 0 ok; Resume 1 ok ].

Definition sample_frame (data : string) : ScreencastFrame :=
  {| frame_data := data; frame_timestamp := 0; deviceWidth := 1280;
     deviceHeight := 720; frame_sessionId := 1 |}.

(** Page changes at 500 ms and 2400 ms, timer ticks at 1000, 2000, 3000 and
    4000 ms; every promise settles at once. *)
Definition quiet_second : list Step :=
  [ Wait 500; Spawn (onScreencastFrame 0 (sample_frame "f1")); Resume 0 ok;
    Wait 500; Spawn (periodicFrame 0);
    Wait 1000; Spawn (periodicFrame 0); Resume 2 (Resolved "shot1");
    Wait 400; Spawn (onScreencastFrame 0 (sample_frame "f2")); Resume 3 ok;
    Wait 600; Spawn (periodicFrame 0);
    Wait 1000; Spawn (periodicFrame 0); Resume 5 (Resolved "shot2") ].

(** A page change at 2001 ms, while the capture of the tick of 2000 ms is
    still pending. *)
Definition overtaken_tick : list Step :=
  [ Wait 500; Spawn (onScreencastFrame 0 (sample_frame "f1")); Resume 0 ok;
    Wait 1500; Spawn (periodicFrame 0);
    Wait 1; Spawn (onScreencastFrame 0 (sample_frame "f2")); Resume 2 ok;
    Wait 1; Resume 1 (Resolved "shot") ].

(** ** Handlers as a whole *)

(** A handler in which every [throw], and every [await] of a promise that
    the driver may reject, is inside a [try] whose [catch] is such a
    handler again. *)
Fixpoint guarded {A} (p : Prog A) : Prop :=
  match p with
  | Ret _ => True
  | Throw _ => False
  | Get k => forall m, guarded (k m)
  | Put _ k => guarded k
  | Await _ k => forall r, guarded (k r)
  end.

(** A handler that keeps a property of the memory in each of its
    synchronous stretches, whatever it reads and whatever the driver
    answers. *)
Fixpoint keeps {A} (P : Mem -> Prop) (p : Prog A) : Prop :=
  match p with
  | Ret _ | Throw _ => True
  | Get k => forall m, P m -> keeps P (k m)
  | Put m k => P m /\ keeps P k
  | Await _ k => forall r, keeps P (k r)
  end.

(** A property of the memory that does not depend on the time of day. *)
Definition timeless (P : Mem -> Prop) : Prop :=
  forall t m, P m -> P (set_clock t m).

(** The event loop with nothing pending. *)
Definition quiet (w : World) : Pool := {| world := w; tasks := [] |}.

(** The handlers that a schedule starts. *)
Definition spawned (steps : list Step) : list (Prog unit) :=
  omap (fun st => match st with Spawn handler => Some handler | _ => None end) steps.

(** The memory outside the service at [this], the timers, the console and
    the clock. *)
Definition elsewhere (this : nat) (m0 m : Mem) : Prop :=
  activeSessions m = activeSessions m0 /\ clients m = clients m0 /\
  length (heap m) = length (heap m0) /\
  forall other, other <> this -> heap m !! other = heap m0 !! other.

(** The listeners that the relay attaches to a socket, and the callbacks
    that a service hands to the driver and to its timer.  The close and
    the error listener of a socket both run [cleanupSession]. *)
Inductive listener : Prog unit -> Prop :=
| listener_connection ws sessionId : listener (onConnection ws sessionId)
| listener_message ws sessionId message : listener (onMessage ws sessionId message)
| listener_close sessionId : listener (cleanupSession sessionId)
| listener_frame this frame : listener (onScreencastFrame this frame)
| listener_tick this : listener (periodicFrame this).

(** The listeners of the sockets and sessions other than socket [ws] and
    session [id], and the callbacks of the services other than [this]. *)
Inductive foreign (id : string) (this ws : nat) : Prog unit -> Prop :=
| foreign_connection ws' sessionId :
    ws' <> ws -> sessionId <> id -> foreign id this ws (onConnection ws' sessionId)
| foreign_message ws' sessionId message :
    ws' <> ws -> sessionId <> id -> foreign id this ws (onMessage ws' sessionId message)
| foreign_close sessionId :
    sessionId <> id -> foreign id this ws (cleanupSession sessionId)
| foreign_frame that frame :
    that <> this -> foreign id this ws (onScreencastFrame that frame)
| foreign_tick that :
    that <> this -> foreign id this ws (periodicFrame that).

(** Session [id] as the relay holds it: its service object, its socket and
    its entry in the registry, none of them shared with another session
    (no other id is registered to the service, no other service carries
    the id). *)
Definition session (id : string) (this ws : nat) (s : Service) (sock : Socket)
    (entry : option nat) (m : Mem) : Prop :=
  heap m !! this = Some s /\ clients m !! ws = Some sock /\
  activeSessions m !! id = entry /\
  (forall id', id' <> id -> activeSessions m !! id' <> Some this) /\
  (forall that, that <> this -> sessionId (service_at that m) <> id).

(** What runs on a service between the call of [close] and its end: more
    calls of [close], pushed frames and timer ticks. *)
Inductive closing (this : nat) : Prog unit -> Prop :=
| closing_close : closing this (close this)
| closing_frame frame : closing this (onScreencastFrame this frame)
| closing_tick : closing this (periodicFrame this).

(** The stream of [this] is off and the sockets are [sockets]. *)
Definition switched_off (this : nat) (sockets : list Socket) (m : Mem) : Prop :=
  isStreaming (service_at this m) = false /\ clients m = sockets.

(** ** Vocabulary of the further properties *)

(** The state of a service once [initialize] has gone through at time [now]
    with timer [t]. *)
Definition live_Service (id : string) (now : Z) (t : nat) (s : Service) : Prop :=
  browser s = Some BrowserHandle /\ context s = Some BrowserContextHandle /\
  page s = Some {| viewportSize := Some default_viewport |} /\
  streamingClient s = Some CDPSessionHandle /\ isStreaming s = true /\
  sessionId s = id /\ lastActivity s = now /\
  periodicFrameInterval s = Some t.

(** The status that ends a successful session creation. *)
Definition ready : string :=
  "Browser initialized and streaming. Ready for interaction!".

(** [GET /health]: the status and [activeSessions.size]. *)
Definition health (m : Mem) : string * nat := ("ok", size (activeSessions m)).

(** The error of every input operation on a service without a page. *)
Definition not_initialized : Err := "Playwright not initialized".

(** The memory after an input operation whose driver calls took [elapsed]
    ms in all: on success the time of the last activity is the time at
    which the last call settled; on failure it is not touched, and the
    error is on the console. *)
Definition succeeded (this : nat) (elapsed : N) (m : Mem) : Mem :=
  let t := (clock m + Z.of_N elapsed)%Z in
  upd this (set_lastActivity t) (set_clock t m).

Definition failed (failure : string) (e : Err) (elapsed : N) (m : Mem) : Mem :=
  let m' := set_clock (clock m + Z.of_N elapsed) m in
  set_console (console m' ++ [ConsoleError failure e]) m'.

(** The driver call of a heartbeat. *)
Definition capture : DriverCall := CdpSend "Page.captureScreenshot".

(** What the relay does with the error of a handler: a line on the console
    and a status message to the client. *)
Definition reported (ws : nat) (heading : string) (text : string) (e : Err)
    (m : Mem) : Mem :=
  transmit ws (ChatMessage (text +:+ e) (clock m))
    (set_console (console m ++ [ConsoleError heading e]) m).

(** The pointer message types, each with the operation it is routed to. *)
Definition pointer_handlers : list (string * (nat -> Q -> Q -> Prog unit)) :=
  [ ("click", click); ("mousedown", mouseDown); ("mouseup", mouseUp);
    ("mousemove", mouseMove) ].

(** The message types that the relay routes to a handler. *)
Definition message_types : list string :=
  ["click"; "mousedown"; "mouseup"; "mousemove"; "keyPress"; "keypress"; "chat"].

(** The message of the error of reading [text] of a chat message that has
    no content ([error.message] of the [TypeError]). *)
Definition no_content : Err :=
  "Cannot read properties of undefined (reading 'text')".

(** [`Received your message: "${text}"`] *)
Definition echo (text : string) : string :=
  "Received your message: " +:+ String quote (text +:+ String quote EmptyString).

(** A text with its letters A to Z in lower case. *)
Fixpoint lowercase (text : string) : string :=
  match text with
  | EmptyString => EmptyString
  | String c text' => String (to_lower c) (lowercase text')
  end.

(** The alternatives of the navigation pattern. *)
Definition command_words : list string := ["go to"; "navigate to"; "open"].

(** ** The page in the browser *)

(** The connection as the components of the page see it: the [isConnected]
    flag, and the state of [ws] when it is not [null]. *)
Record Connection := { isConnected : bool; ws_readyState : option ReadyState }.

(** [a / b] as [JSON.stringify] writes it and the relay reads it back: a
    quotient by zero, and a quotient that is too large for a double, is
    infinite or not a number, is written [null], and is not a number for
    the relay. *)
Definition quotient (a b : Q) : option Q :=
  if Qeq_bool b 0 || negb (finite a) then None
  else let r := round (a / b) in if finite r then Some r else None.

(** The senders of [CanvasSection.tsx]; each returns the message that goes
    out, if one does. *)
Module CanvasSection.

(** [canvas.getBoundingClientRect()] and the position of a mouse event:
    finite doubles. *)
Record DOMRect := { left : Q; top : Q; width : Q; height : Q }.

Record MouseEvent := { type : string; clientX : Q; clientY : Q }.

Record KeyboardEvent := { key : string }.

(** The negation of [!isConnected || !ws || ws.readyState !== WebSocket.OPEN]. *)
Definition connected (c : Connection) : bool :=
  isConnected c && bool_decide (ws_readyState c = Some OPEN).

Definition handleMouseEvent (c : Connection) (canvas : option DOMRect)
    (event : MouseEvent) : option ClientData :=
  if negb (connected c) then None else
  match canvas with
  | None => None
  | Some rect =>
      let x := quotient (round (clientX event - left rect)) (width rect) in
      let y := quotient (round (clientY event - top rect)) (height rect) in
      Some {| data_type := Some (type event); data_x := x; data_y := y;
              data_key := None; data_content := None |}
  end.

Definition handleKeyDown (c : Connection) (event : KeyboardEvent)
    : option ClientData :=
  if negb (connected c) then None else
  Some {| data_type := Some "keyPress"; data_x := None; data_y := None;
          data_key := Some (key event); data_content := None |}.

Definition sendBrowserAction (c : Connection) (action : string)
    : option ClientData :=
  if negb (connected c) then None else
  match
    match action with
    | "back" => Some "Back"
    | "forward" => Some "Forward"
    | "refresh" => Some "F5"
    | _ => None
    end
  with
  | Some key =>
      Some {| data_type := Some "keyPress"; data_x := None; data_y := None;
              data_key := Some key; data_content := None |}
  | None => None
  end.

End CanvasSection.

(** [handleSendMessage] of [app/page.tsx]. *)
Module Home.


End Home.

(** The senders of the hook [useWebSocket.ts]: the payload travels in a
    field [data], which the relay does not read. *)
Module useWebSocket.



End useWebSocket.

(** A page that is connected. *)
Definition online : Connection := {| isConnected := true; ws_readyState := Some OPEN |}.

(** A canvas at 0.7 from the left edge of the window and 192.3 wide, and a
    click at 193, which is inside it by 1e-14. *)
Definition narrow_canvas : CanvasSection.DOMRect :=
  {| CanvasSection.left := round (7 # 10); CanvasSection.top := 0;
     CanvasSection.width := round (1923 # 10); CanvasSection.height := 100 |}.

Definition click_at_the_edge : CanvasSection.MouseEvent :=
  {| CanvasSection.type := "click"; CanvasSection.clientX := 193;
     CanvasSection.clientY := 50 |}.

(** The buttons of the toolbar, each with the driver call it leads to. *)
Definition browser_actions : list (string * DriverCall) :=
  [("back", PageGoBack); ("forward", PageGoForward); ("refresh", PageReload)].

(** ** Further sample environments *)

(** The sample session after its socket has closed. *)
Definition hung_up : World :=
  {| mem := set_clients [ {| ws_sessionId := "s1"; readyState := CLOSED;
                             listening := true; outbox := [] |} ] (mem streaming);
     calls := calls streaming |}.

(** The sample session with the socket of another session beside its own. *)
Definition crowded : World :=
  {| mem := set_clients
              (clients (mem streaming) ++
               [ {| ws_sessionId := "s2"; readyState := OPEN; listening := true;
                    outbox := [] |} ])
              (mem streaming);
     calls := calls streaming |}.

(** A second client connects and sends a message while the sample session
    is live. *)
Definition newcomer : list Step :=
  [ Spawn (onConnection 1 "s2"); Wait 20; Resume 0 ok; Resume 0 ok;
    Spawn (onMessage 1 "s2" (Unparseable "Unexpected token")); Resume 0 ok;
    Resume 0 ok; Resume 0 ok; Resume 0 ok;
    Spawn (onMessage 1 "s2" (Unparseable "Unexpected end of JSON input")) ].

(** A heartbeat that is waiting for its capture when the sample session
    is closed, and the capture resolving afterwards. *)
Definition late_heartbeat : list Step :=
  [ Spawn (periodicFrame 0); Spawn (close 0); Resume 0 (Resolved "late") ].

(** Frames and ticks arriving while the close of the sample session is
    under way. *)
Definition late_frames : list Step :=
  [ Spawn (onScreencastFrame 0 (sample_frame "f1")); Resume 0 ok;
    Spawn (periodicFrame 0); Wait 1000; Resume 0 ok; Spawn (periodicFrame 0);
    Resume 0 ok; Resume 0 ok; Resume 0 ok ].

(** * Properties *)

(** ** Doubles *)

Lemma pow2_pos e : (0 < pow2 e)%Q.
Proof. apply Qpower_0_lt. reflexivity. Qed.

Lemma pow2_add a b : (pow2 (a + b) == pow2 a * pow2 b)%Q.
Proof. apply Qpower_plus. discriminate. Qed.

Lemma pow2_succ e : (pow2 (e + 1) == 2 * pow2 e)%Q.
Proof. rewrite pow2_add. change (pow2 1) with 2%Q. ring. Qed.

Lemma pow2_pred e : (pow2 e == 2 * pow2 (e - 1))%Q.
Proof. rewrite <- pow2_succ. now replace (e - 1 + 1)%Z with e by lia. Qed.

Lemma div_pow2 q e : (q / pow2 e == q * pow2 (- e))%Q.
Proof. unfold Qdiv, pow2. now rewrite Qpower_opp. Qed.

Lemma pow2_le a b : (a <= b)%Z -> (pow2 a <= pow2 b)%Q.
Proof. intros H. apply Qpower_le_compat_l; [exact H | discriminate]. Qed.

Lemma pow2_lt a b : (a < b)%Z -> (pow2 a < pow2 b)%Q.
Proof. intros H. apply Qpower_lt_compat_l; [exact H | reflexivity]. Qed.

Lemma pow2_lt_inv a b : (pow2 a < pow2 b)%Q -> (a < b)%Z.
Proof. intros H. apply (Qpower_lt_compat_l_inv 2); [exact H | reflexivity]. Qed.

Lemma pow2_Z n : (0 <= n)%Z -> (pow2 n == inject_Z (2 ^ n))%Q.
Proof. intros H. unfold pow2. now rewrite Zpower_Qpower. Qed.

(** A power of two on the grid of a smaller exponent. *)
Lemma pow2_grid a e : (e <= a)%Z -> (pow2 a == inject_Z (2 ^ (a - e)) * pow2 e)%Q.
Proof.
  intros H. rewrite <- pow2_Z by lia. rewrite <- pow2_add.
  now replace (a - e + e)%Z with a by lia.
Qed.

(** ** The order of magnitude *)

Lemma Qabs_wd_0 q : (Qabs q == 0)%Q -> (q == 0)%Q.
Proof.
  intros H. destruct (Qlt_le_dec q 0) as [Hn|Hp].
  - rewrite Qabs_neg in H by lra. lra.
  - rewrite Qabs_pos in H by exact Hp. exact H.
Qed.

Lemma Qabs_make n d : Qabs (n # d) = (Z.abs n # d).
Proof. reflexivity. Qed.

Lemma log2_ratio (p d : positive) :
  let k := (Z.log2 (Z.pos p) - Z.log2 (Z.pos d))%Z in
  (pow2 (k - 1) <= Z.pos p # d /\ Z.pos p # d < pow2 (k + 1))%Q.
Proof.
  intros k. unfold k.
  set (a := Z.log2 (Z.pos p)). set (b := Z.log2 (Z.pos d)).
  assert (Ha0 : (0 <= a)%Z) by apply Z.log2_nonneg.
  assert (Hb0 : (0 <= b)%Z) by apply Z.log2_nonneg.
  destruct (Z.log2_spec (Z.pos p)) as [Ha1 Ha2]; [lia|].
  destruct (Z.log2_spec (Z.pos d)) as [Hb1 Hb2]; [lia|].
  fold a in Ha1, Ha2. fold b in Hb1, Hb2.
  rewrite <- Z.add_1_r in Ha2, Hb2.
  assert (Hval : (Z.pos p # d == inject_Z (Z.pos p) / inject_Z (Z.pos d))%Q)
    by apply Qmake_Qdiv.
  assert (Hd : (0 < inject_Z (Z.pos d))%Q) by (rewrite <- (Zlt_Qlt 0); lia).
  assert (Hpa : (pow2 a <= inject_Z (Z.pos p))%Q)
    by (rewrite pow2_Z by lia; now rewrite <- Zle_Qle).
  assert (Hpa' : (inject_Z (Z.pos p) < pow2 (a + 1))%Q)
    by (rewrite pow2_Z by lia; now rewrite <- Zlt_Qlt).
  assert (Hpb : (pow2 b <= inject_Z (Z.pos d))%Q)
    by (rewrite pow2_Z by lia; now rewrite <- Zle_Qle).
  assert (Hpb' : (inject_Z (Z.pos d) < pow2 (b + 1))%Q)
    by (rewrite pow2_Z by lia; now rewrite <- Zlt_Qlt).
  assert (Hk : (pow2 a == pow2 (a - b) * pow2 b)%Q)
    by (rewrite <- pow2_add; now replace (a - b + b)%Z with a by lia).
  pose proof (pow2_pos (a - b - 1)) as Hkpos.
  pose proof (pow2_pos b) as Hbpos.
  rewrite (pow2_succ a) in Hpa'. rewrite (pow2_succ b) in Hpb'.
  rewrite (pow2_pred (a - b)) in Hk.
  rewrite pow2_succ, (pow2_pred (a - b)), Hval. clear Hval.
  set (P := inject_Z (Z.pos p)) in *. set (D := inject_Z (Z.pos d)) in *.
  set (A := pow2 a) in *. set (B := pow2 b) in *. set (K := pow2 (a - b - 1)) in *.
  clearbody P D A B K.
  split.
  - apply Qle_shift_div_l; [exact Hd|]. nra.
  - apply Qlt_shift_div_r; [exact Hd|]. nra.
Qed.

Lemma Qlog2_spec q : ~ (q == 0)%Q ->
  (pow2 (Qlog2 q) <= Qabs q /\ Qabs q < pow2 (Qlog2 q + 1))%Q.
Proof.
  destruct q as [n d]. intros Hq.
  assert (Hn : n <> 0%Z) by (intros ->; apply Hq; reflexivity).
  assert (Habs : exists p, Z.abs n = Z.pos p) by (destruct n as [|p|p]; [congruence|eauto..]).
  destruct Habs as [p Hp].
  assert (E : Qlog2 (n # d) =
              let k := (Z.log2 (Z.pos p) - Z.log2 (Z.pos d))%Z in
              if Qle_bool (pow2 k) (Z.pos p # d) then k else (k - 1)%Z).
  { unfold Qlog2. cbn [Qnum Qden]. rewrite Qabs_make, Hp. now destruct n. }
  rewrite E, Qabs_make, Hp. cbv zeta.
  destruct (log2_ratio p d) as [H1 H2]. cbv zeta in H1, H2.
  destruct (Qle_bool _ _) eqn:Eb.
  - apply Qle_bool_iff in Eb. split; assumption.
  - split; [exact H1|].
    replace (_ - 1 + 1)%Z with (Z.log2 (Z.pos p) - Z.log2 (Z.pos d))%Z by lia.
    apply Qnot_le_lt. intros Hle. apply Qle_bool_iff in Hle. congruence.
Qed.

Lemma Qlog2_unique q L :
  (pow2 L <= Qabs q)%Q -> (Qabs q < pow2 (L + 1))%Q -> Qlog2 q = L.
Proof.
  intros H1 H2.
  assert (Hq : ~ (q == 0)%Q).
  { intros E. rewrite E in H1. pose proof (pow2_pos L). change (Qabs 0) with 0%Q in H1. lra. }
  destruct (Qlog2_spec q Hq) as [H3 H4].
  assert (Ha : (Qlog2 q < L + 1)%Z)
    by (apply pow2_lt_inv; eapply Qle_lt_trans; eauto).
  assert (Hb : (L < Qlog2 q + 1)%Z)
    by (apply pow2_lt_inv; eapply Qle_lt_trans; eauto).
  lia.
Qed.

Lemma Qlog2_le q1 q2 :
  ~ (q1 == 0)%Q -> (Qabs q1 <= Qabs q2)%Q -> (Qlog2 q1 <= Qlog2 q2)%Z.
Proof.
  intros H1 Hle.
  assert (H2 : ~ (q2 == 0)%Q).
  { intros E. rewrite E in Hle. change (Qabs 0) with 0%Q in Hle.
    apply H1. apply Qabs_wd_0. pose proof (Qabs_nonneg q1). lra. }
  destruct (Qlog2_spec q1 H1) as [A1 A2].
  destruct (Qlog2_spec q2 H2) as [B1 B2].
  assert (Hlt : (Qlog2 q1 < Qlog2 q2 + 1)%Z).
  { apply pow2_lt_inv. lra. }
  lia.
Qed.

#[local] Instance Qlog2_comp : Proper (Qeq ==> eq) Qlog2.
Proof.
  intros q q' E.
  destruct (Qeq_dec q 0) as [H0|H0].
  - assert (H0' : (q' == 0)%Q) by now rewrite <- E.
    destruct q as [n d], q' as [n' d']. unfold Qeq in H0, H0'. cbn in H0, H0'.
    assert (n = 0%Z) by lia. assert (n' = 0%Z) by lia. subst. reflexivity.
  - destruct (Qlog2_spec q H0) as [A1 A2].
    symmetry. apply Qlog2_unique; now rewrite <- E.
Qed.

#[local] Instance exponent_comp : Proper (Qeq ==> eq) exponent.
Proof. intros q q' E. unfold exponent. now rewrite (Qlog2_comp _ _ E). Qed.

(** ** Rounding to an integer *)

Lemma nearest_even_cases r :
  (nearest_even r = Qfloor r /\ r - inject_Z (Qfloor r) <= 1 # 2)%Q \/
  (nearest_even r = (Qfloor r + 1)%Z /\ 1 # 2 <= r - inject_Z (Qfloor r))%Q.
Proof.
  unfold nearest_even.
  destruct (Qcompare_spec (r - inject_Z (Qfloor r)) (1 # 2)) as [E|E|E].
  - destruct (Z.even (Qfloor r)); [left|right]; split; auto; rewrite E; lra.
  - left. split; [reflexivity | lra].
  - right. split; [reflexivity | lra].
Qed.

Lemma floor_bounds r : (inject_Z (Qfloor r) <= r /\ r < inject_Z (Qfloor r) + 1)%Q.
Proof.
  split; [apply Qfloor_le|].
  pose proof (Qlt_floor r) as H. rewrite inject_Z_plus in H. exact H.
Qed.

Lemma nearest_even_near r :
  (inject_Z (nearest_even r) - (1 # 2) <= r /\
   r <= inject_Z (nearest_even r) + (1 # 2))%Q.
Proof.
  destruct (floor_bounds r) as [F1 F2].
  destruct (nearest_even_cases r) as [[-> H]|[-> H]].
  - lra.
  - rewrite inject_Z_plus. change (inject_Z 1) with 1%Q. lra.
Qed.

Lemma nearest_even_le r n : (r <= inject_Z n)%Q -> (nearest_even r <= n)%Z.
Proof.
  intros H. destruct (nearest_even_near r) as [H1 _].
  assert (Hlt : (inject_Z (nearest_even r) < inject_Z (n + 1))%Q).
  { rewrite inject_Z_plus. change (inject_Z 1) with 1%Q. lra. }
  rewrite <- Zlt_Qlt in Hlt. lia.
Qed.

Lemma nearest_even_ge r n : (inject_Z n <= r)%Q -> (n <= nearest_even r)%Z.
Proof.
  intros H. destruct (nearest_even_near r) as [_ H1].
  assert (Hlt : (inject_Z n < inject_Z (nearest_even r + 1))%Q).
  { rewrite inject_Z_plus. change (inject_Z 1) with 1%Q. lra. }
  rewrite <- Zlt_Qlt in Hlt. lia.
Qed.

Lemma nearest_even_Z n : nearest_even (inject_Z n) = n.
Proof.
  apply Z.le_antisymm; [apply nearest_even_le | apply nearest_even_ge]; lra.
Qed.

#[local] Instance nearest_even_comp : Proper (Qeq ==> eq) nearest_even.
Proof.
  intros r r' E. unfold nearest_even.
  rewrite (Qfloor_comp _ _ E).
  assert (H : (r - inject_Z (Qfloor r') ?= 1 # 2)%Q = (r' - inject_Z (Qfloor r') ?= 1 # 2)%Q)
    by now rewrite E.
  now rewrite H.
Qed.

Lemma nearest_even_mono r1 r2 : (r1 <= r2)%Q -> (nearest_even r1 <= nearest_even r2)%Z.
Proof.
  intros H.
  pose proof (Qfloor_resp_le _ _ H) as Hf.
  destruct (floor_bounds r1) as [A1 A2], (floor_bounds r2) as [B1 B2].
  destruct (Z.eq_dec (Qfloor r1) (Qfloor r2)) as [E|E].
  - unfold nearest_even. rewrite E.
    destruct (Qcompare_spec (r1 - inject_Z (Qfloor r2)) (1 # 2)) as [C1|C1|C1];
      destruct (Qcompare_spec (r2 - inject_Z (Qfloor r2)) (1 # 2)) as [C2|C2|C2];
      try destruct (Z.even (Qfloor r2)); try lia; exfalso; lra.
  - destruct (nearest_even_cases r1) as [[-> _]|[-> _]];
      destruct (nearest_even_cases r2) as [[-> _]|[-> _]]; lia.
Qed.

(** ** Rounding to a double *)

#[local] Instance round_comp : Proper (Qeq ==> Qeq) round.
Proof.
  intros q q' E. unfold round.
  rewrite (exponent_comp _ _ E).
  assert (H : (q / pow2 (exponent q') == q' / pow2 (exponent q'))%Q)
    by (apply Qdiv_comp; [exact E | reflexivity]).
  now rewrite (nearest_even_comp _ _ H).
Qed.

Lemma round_nonneg q : (0 <= q)%Q -> (0 <= round q)%Q.
Proof.
  intros H. unfold round. pose proof (pow2_pos (exponent q)) as He.
  assert (H0 : (0 <= nearest_even (q / pow2 (exponent q)))%Z).
  { apply nearest_even_ge. change (inject_Z 0) with 0%Q.
    apply Qle_shift_div_l; [exact He | lra]. }
  rewrite Zle_Qle in H0. change (inject_Z 0) with 0%Q in H0. nra.
Qed.

(** A rounded number is at most half a unit in the last place away. *)
Lemma round_near q :
  (2 * round q - pow2 (exponent q) <= 2 * q /\
   2 * q <= 2 * round q + pow2 (exponent q))%Q.
Proof.
  unfold round. pose proof (pow2_pos (exponent q)) as He.
  destruct (nearest_even_near (q / pow2 (exponent q))) as [H1 H2].
  assert (E : (q == q / pow2 (exponent q) * pow2 (exponent q))%Q) by (field; lra).
  set (m := inject_Z (nearest_even (q / pow2 (exponent q)))) in *.
  set (r := (q / pow2 (exponent q))%Q) in *.
  set (e := pow2 (exponent q)) in *. clearbody m r e.
  split; nra.
Qed.

(** Rounding does not cross a point of the grid it rounds to. *)
Lemma round_le_grid q m :
  (q <= inject_Z m * pow2 (exponent q))%Q ->
  (round q <= inject_Z m * pow2 (exponent q))%Q.
Proof.
  intros H. unfold round. pose proof (pow2_pos (exponent q)) as He.
  assert (Hm : (nearest_even (q / pow2 (exponent q)) <= m)%Z).
  { apply nearest_even_le. apply Qle_shift_div_r; [exact He | exact H]. }
  rewrite Zle_Qle in Hm. nra.
Qed.

Lemma round_ge_grid q m :
  (inject_Z m * pow2 (exponent q) <= q)%Q ->
  (inject_Z m * pow2 (exponent q) <= round q)%Q.
Proof.
  intros H. unfold round. pose proof (pow2_pos (exponent q)) as He.
  assert (Hm : (m <= nearest_even (q / pow2 (exponent q)))%Z).
  { apply nearest_even_ge. apply Qle_shift_div_l; [exact He | exact H]. }
  rewrite Zle_Qle in Hm. nra.
Qed.

Lemma Qabs_pos_eq q : (0 <= q)%Q -> (Qabs q == q)%Q.
Proof. apply Qabs_pos. Qed.

(** Rounding keeps the order of numbers that are not negative. *)
Lemma round_mono q1 q2 : (0 <= q1)%Q -> (q1 <= q2)%Q -> (round q1 <= round q2)%Q.
Proof.
  intros H0 Hle.
  destruct (Qeq_dec q1 0) as [E|Hne].
  - rewrite E. change (round 0) with (0 * pow2 (exponent 0))%Q.
    pose proof (round_nonneg q2). lra.
  - assert (Hpos : (0 < q1)%Q).
    { destruct (Qlt_le_dec 0 q1) as [|Hn]; [assumption|]. exfalso. apply Hne. lra. }
    assert (Hne2 : ~ (q2 == 0)%Q) by (intros E; rewrite E in Hle; lra).
    assert (HL : (Qlog2 q1 <= Qlog2 q2)%Z).
    { apply Qlog2_le; [exact Hne|]. rewrite !Qabs_pos_eq by lra. exact Hle. }
    destruct (Qlog2_spec q1 Hne) as [A1 A2]. destruct (Qlog2_spec q2 Hne2) as [B1 B2].
    rewrite Qabs_pos_eq in A1, A2 by lra. rewrite Qabs_pos_eq in B1, B2 by lra.
    destruct (Z.eq_dec (exponent q1) (exponent q2)) as [Ee|Ee].
    + unfold round. rewrite Ee. pose proof (pow2_pos (exponent q2)) as He.
      assert (Hm : (nearest_even (q1 / pow2 (exponent q2)) <=
                    nearest_even (q2 / pow2 (exponent q2)))%Z).
      { apply nearest_even_mono. apply Qle_shift_div_l; [exact He|].
        assert (E : (q1 / pow2 (exponent q2) * pow2 (exponent q2) == q1)%Q) by (field; lra).
        rewrite E. exact Hle. }
      rewrite Zle_Qle in Hm. nra.
    + assert (He2 : exponent q2 = (Qlog2 q2 - 52)%Z) by (unfold exponent in *; lia).
      assert (HL' : (Qlog2 q1 + 1 <= Qlog2 q2)%Z) by (unfold exponent in *; lia).
      assert (Hmid1 : (q1 <= pow2 (Qlog2 q2))%Q).
      { pose proof (pow2_le _ _ HL'). lra. }
      apply Qle_trans with (pow2 (Qlog2 q2)).
      * rewrite (pow2_grid (Qlog2 q2) (exponent q1)) in * by (unfold exponent in *; lia).
        now apply round_le_grid.
      * rewrite (pow2_grid (Qlog2 q2) (exponent q2)) in * by lia.
        now apply round_ge_grid.
Qed.

(** The integers up to [2 ** 53] are doubles. *)
Lemma double_Z n : (0 <= n <= 2 ^ 53)%Z -> double (inject_Z n).
Proof.
  intros [H0 H1]. unfold double.
  destruct (Z.eq_dec n 0%Z) as [->|Hn]; [reflexivity|].
  assert (Hq : ~ (inject_Z n == 0)%Q).
  { intros E. unfold Qeq in E. cbn in E. lia. }
  destruct (Qlog2_spec _ Hq) as [A1 A2].
  assert (Habs : (Qabs (inject_Z n) == inject_Z n)%Q).
  { apply Qabs_pos. change 0%Q with (inject_Z 0). rewrite <- Zle_Qle. lia. }
  rewrite Habs in A1, A2.
  set (L := Qlog2 (inject_Z n)) in *.
  assert (HL0 : (0 <= L)%Z).
  { assert (H : (pow2 0 < pow2 (L + 1))%Q).
    { eapply Qle_lt_trans; [|exact A2]. change (pow2 0) with (inject_Z 1).
      rewrite <- Zle_Qle. lia. }
    apply pow2_lt_inv in H. lia. }
  assert (HL1 : (L <= 53)%Z).
  { assert (H : (pow2 L < pow2 54)%Q).
    { eapply Qle_lt_trans; [exact A1|]. rewrite (pow2_Z 54) by lia.
      rewrite <- Zlt_Qlt. lia. }
    apply pow2_lt_inv in H. lia. }
  assert (He : exponent (inject_Z n) = (L - 52)%Z) by (unfold exponent; fold L; lia).
  unfold round. rewrite He.
  destruct (Z.eq_dec L 53%Z) as [E53|E53].
  - assert (n = 2 ^ 53)%Z.
    { rewrite E53, pow2_Z, <- Zle_Qle in A1 by lia. lia. }
    subst n. rewrite E53. vm_compute. reflexivity.
  - assert (Hgrid : (inject_Z n / pow2 (L - 52) == inject_Z (n * 2 ^ (52 - L)))%Q).
    { rewrite inject_Z_mult, <- pow2_Z, div_pow2 by lia.
      now replace (- (L - 52))%Z with (52 - L)%Z by lia. }
    rewrite Hgrid, nearest_even_Z, <- Hgrid.
    pose proof (pow2_pos (L - 52)). field. lra.
Qed.

(** Rounding does not cross a double. *)
Lemma round_le_double q d : (0 <= q)%Q -> (q <= d)%Q -> double d -> (round q <= d)%Q.
Proof.
  intros H0 Hle Hd. unfold double in Hd. rewrite <- Hd. now apply round_mono.
Qed.

Lemma round_ge_double q d : (0 <= d)%Q -> (d <= q)%Q -> double d -> (d <= round q)%Q.
Proof.
  intros H0 Hle Hd. unfold double in Hd. rewrite <- Hd. now apply round_mono.
Qed.

(** The double next below 1 is [1 - 2 ** -53]. *)
Lemma double_below_one x :
  double x -> (0 <= x)%Q -> (x < 1)%Q -> (x <= 1 - pow2 (-53))%Q.
Proof.
  intros Hd H0 H1.
  destruct (Qeq_dec x 0) as [E|Hne].
  - rewrite E. vm_compute. discriminate.
  - destruct (Qlog2_spec x Hne) as [A1 A2].
    rewrite Qabs_pos_eq in A1, A2 by exact H0.
    assert (HL : (Qlog2 x < 0)%Z).
    { apply pow2_lt_inv. change (pow2 0) with 1%Q. lra. }
    destruct (Z.eq_dec (Qlog2 x) (-1)%Z) as [E1|E1].
    + assert (He : exponent x = (-53)%Z) by (unfold exponent; rewrite E1; reflexivity).
      unfold double, round in Hd. rewrite He in Hd.
      set (m := nearest_even (x / pow2 (-53))) in *.
      assert (Hm : (m < 2 ^ 53)%Z).
      { rewrite Zlt_Qlt. rewrite <- pow2_Z by lia.
        pose proof (pow2_add 53 (-53)) as Hadd. change (pow2 (53 + -53)) with 1%Q in Hadd.
        pose proof (pow2_pos 53). pose proof (pow2_pos (-53)).
        rewrite <- Hd in H1. nra. }
      assert (Hm' : (inject_Z m <= inject_Z (2 ^ 53 - 1))%Q) by (rewrite <- Zle_Qle; lia).
      rewrite <- Hd.
      pose proof (pow2_pos (-53)).
      assert (E : (1 - pow2 (-53) == inject_Z (2 ^ 53 - 1) * pow2 (-53))%Q)
        by (vm_compute; reflexivity).
      rewrite E. nra.
    + assert (Hhalf : (x < pow2 (-1))%Q).
      { eapply Qlt_le_trans; [exact A2|]. apply pow2_le. lia. }
      assert (E : (pow2 (-1) <= 1 - pow2 (-53))%Q) by (vm_compute; discriminate).
      lra.
Qed.

(** A proper fraction of a whole number of pixels rounds below it. *)
Lemma round_fraction_below x W :
  double x -> (0 <= x)%Q -> (x < 1)%Q -> (1 <= W)%Z ->
  (round (x * inject_Z W) < inject_Z W)%Q.
Proof.
  intros Hd H0 H1 HW.
  pose proof (double_below_one x Hd H0 H1) as Hx.
  assert (HW1 : (1 <= inject_Z W)%Q) by (change 1%Q with (inject_Z 1); now rewrite <- Zle_Qle).
  set (w := inject_Z W) in *. clearbody w. set (q := (x * w)%Q).
  destruct (Qeq_dec q 0) as [E|Hne].
  - rewrite E. change (round 0) with (0 * pow2 (exponent 0))%Q. lra.
  - pose proof (pow2_pos (-53)) as Hp53.
    assert (Hqw : (q <= w - w * pow2 (-53))%Q) by (unfold q; nra).
    assert (Hq0 : (0 <= q)%Q) by (unfold q; nra).
    clearbody q.
    assert (Hwne : ~ (w == 0)%Q) by lra.
    destruct (Qlog2_spec w Hwne) as [W1 W2]. rewrite Qabs_pos_eq in W1, W2 by lra.
    destruct (Qlog2_spec q Hne) as [Q1 Q2]. rewrite Qabs_pos_eq in Q1, Q2 by lra.
    set (k := Qlog2 w) in *.
    assert (Hk0 : (0 <= k)%Z).
    { assert (H : (pow2 0 < pow2 (k + 1))%Q) by (change (pow2 0) with 1%Q; lra).
      apply pow2_lt_inv in H. lia. }
    assert (HLq : (Qlog2 q <= k)%Z).
    { apply Qlog2_le; [exact Hne|]. rewrite !Qabs_pos_eq by lra. nra. }
    assert (Hu : (pow2 (k - 53) == pow2 k * pow2 (-53))%Q) by (rewrite <- pow2_add; reflexivity).
    pose proof (pow2_pos (k - 53)) as Hupos.
    pose proof (pow2_pos k) as Hkpos.
    destruct (round_near q) as [Hnear _].
    assert (Hwu : (pow2 (k - 53) <= w * pow2 (-53))%Q).
    { rewrite Hu. apply Qmult_le_r; [exact Hp53 | exact W1]. }
    destruct (Z.eq_dec (Qlog2 q) k) as [Ek|Ek].
    + assert (He : exponent q = (k - 52)%Z) by (unfold exponent; rewrite Ek; lia).
      rewrite He in Hnear. rewrite Ek in Q1.
      assert (Hh : (pow2 (k - 52) == 2 * pow2 (k - 53))%Q).
      { rewrite (pow2_pred (k - 52)). now replace (k - 52 - 1)%Z with (k - 53)%Z by lia. }
      rewrite Hh in Hnear.
      assert (Hgt : (pow2 k < w)%Q) by nra.
      assert (Hwu' : (pow2 (k - 53) < w * pow2 (-53))%Q).
      { rewrite Hu. apply Qmult_lt_r; [exact Hp53 | exact Hgt]. }
      lra.
    + assert (He : (exponent q <= k - 53)%Z) by (unfold exponent; lia).
      pose proof (pow2_le _ _ He) as Hle.
      pose proof (pow2_pos (exponent q)).
      lra.
Qed.

(** Below [2 ** 53] rounding moves a number to the next integer at most. *)
Lemma floor_round_bracket q :
  (0 <= q)%Q -> (q <= inject_Z (2 ^ 53))%Q ->
  (Qfloor q <= Qfloor (round q) <= Qfloor q + 1)%Z.
Proof.
  intros H0 H1.
  destruct (floor_bounds q) as [F1 F2].
  assert (Hf0 : (0 <= Qfloor q)%Z).
  { rewrite <- (Qfloor_Z 0). now apply Qfloor_resp_le. }
  assert (Hf1 : (Qfloor q <= 2 ^ 53)%Z).
  { rewrite <- (Qfloor_Z (2 ^ 53)). now apply Qfloor_resp_le. }
  split.
  - rewrite <- (Qfloor_Z (Qfloor q)) at 1. apply Qfloor_resp_le.
    apply round_ge_double; [|exact F1|apply double_Z; lia].
    change 0%Q with (inject_Z 0). rewrite <- Zle_Qle. lia.
  - destruct (Z.eq_dec (Qfloor q) (2 ^ 53)%Z) as [E|E].
    + assert (Eq : (q == inject_Z (2 ^ 53))%Q) by (rewrite E in F1; lra).
      assert (Hd : double (inject_Z (2 ^ 53))) by (apply double_Z; lia).
      unfold double in Hd. rewrite Eq, Hd, Qfloor_Z. lia.
    + rewrite <- (Qfloor_Z (Qfloor q + 1)). apply Qfloor_resp_le.
      apply round_le_double; [exact H0| |apply double_Z; lia].
      rewrite inject_Z_plus. change (inject_Z 1) with 1%Q. lra.
Qed.

(** The integers of at most 53 bits, scaled by a power of two that is no
    less than the smallest unit, are doubles. *)
Lemma double_scaled m e : (0 <= m <= 2 ^ 53)%Z -> (-1074 <= e)%Z ->
  double (inject_Z m * pow2 e).
Proof.
  intros [H0 H1] He. unfold double.
  pose proof (pow2_pos e) as Hpe.
  destruct (Z.eq_dec m 0%Z) as [->|Hm].
  { assert (E : (inject_Z 0 * pow2 e == 0)%Q) by ring. rewrite E. reflexivity. }
  destruct (Z.log2_spec m) as [A1 A2]; [lia|]. rewrite <- Z.add_1_r in A2.
  set (a := Z.log2 m) in *.
  assert (Ha0 : (0 <= a)%Z) by apply Z.log2_nonneg.
  assert (Ha1 : (a <= 53)%Z).
  { assert (H : (2 ^ a < 2 ^ 54)%Z) by lia. apply Z.pow_lt_mono_r_iff in H; lia. }
  set (v := (inject_Z m * pow2 e)%Q).
  assert (Hv1 : (pow2 (e + a) <= v)%Q).
  { unfold v. rewrite pow2_add, (pow2_Z a), (Qmult_comm (pow2 e)) by lia.
    apply Qmult_le_r; [exact Hpe|]. now rewrite <- Zle_Qle. }
  assert (Hv2 : (v < pow2 (e + a + 1))%Q).
  { unfold v. replace (e + a + 1)%Z with (e + (a + 1))%Z by lia.
    rewrite pow2_add, (pow2_Z (a + 1)), (Qmult_comm (pow2 e)) by lia.
    apply Qmult_lt_r; [exact Hpe|]. now rewrite <- Zlt_Qlt. }
  assert (Hvpos : (0 < v)%Q) by (pose proof (pow2_pos (e + a)); lra).
  assert (HL : Qlog2 v = (e + a)%Z).
  { apply Qlog2_unique; rewrite Qabs_pos_eq by lra; assumption. }
  destruct (Z.eq_dec a 53%Z) as [E53|E53].
  - assert (Em : m = (2 ^ 53)%Z) by (rewrite E53 in A1; lia).
    assert (Hex : exponent v = (e + 1)%Z) by (unfold exponent; rewrite HL; lia).
    unfold round. rewrite Hex.
    assert (Hr : (v / pow2 (e + 1) == inject_Z (2 ^ 52))%Q).
    { unfold v. rewrite Em, pow2_succ.
      change (inject_Z (2 ^ 53)) with (2 * inject_Z (2 ^ 52))%Q. field. lra. }
    rewrite Hr, nearest_even_Z. rewrite <- Hr. field.
    pose proof (pow2_pos (e + 1)). lra.
  - set (ev := exponent v).
    assert (Hev : (ev <= e)%Z) by (unfold ev, exponent; rewrite HL; lia).
    assert (Hr : (v / pow2 ev == inject_Z (m * 2 ^ (e - ev)))%Q).
    { unfold v. rewrite inject_Z_mult, (pow2_grid e ev) by lia.
      pose proof (pow2_pos ev). field. lra. }
    unfold round. fold ev. rewrite Hr, nearest_even_Z, <- Hr.
    pose proof (pow2_pos ev). field. lra.
Qed.

(** What rounding returns is a double. *)
Lemma double_round q : (0 <= q)%Q -> double (round q).
Proof.
  intros H0.
  destruct (Qeq_dec q 0) as [E|Hne].
  { unfold double. rewrite E. reflexivity. }
  destruct (Qlog2_spec q Hne) as [A1 A2]. rewrite Qabs_pos_eq in A1, A2 by exact H0.
  unfold round.
  pose proof (pow2_pos (exponent q)) as Hpe.
  apply double_scaled; [|unfold exponent; lia].
  split.
  - apply nearest_even_ge. change (inject_Z 0) with 0%Q.
    apply Qle_shift_div_l; [exact Hpe | lra].
  - apply nearest_even_le. apply Qle_shift_div_r; [exact Hpe|].
    rewrite <- pow2_Z, <- pow2_add by lia.
    apply Qlt_le_weak. eapply Qlt_le_trans; [exact A2|].
    apply pow2_le. unfold exponent. lia.
Qed.

Lemma double_1 : double 1.
Proof. apply (double_Z 1). lia. Qed.

Lemma finite_iff q : finite q = true <-> (Qabs q < pow2 1024)%Q.
Proof.
  unfold finite. rewrite negb_true_iff. split.
  - intros H. apply Qnot_le_lt. intros Hle. apply Qle_bool_iff in Hle. congruence.
  - intros H. destruct (Qle_bool _ _) eqn:E; [|reflexivity].
    apply Qle_bool_iff in E. exfalso. exact (Qlt_not_le _ _ H E).
Qed.

Lemma finite_below q b :
  (0 <= q)%Q -> (q <= b)%Q -> finite b = true -> finite q = true.
Proof.
  intros H0 Hle Hb. apply finite_iff in Hb. apply finite_iff.
  rewrite Qabs_pos_eq in * by lra. lra.
Qed.

Lemma finite_1 : finite 1 = true.
Proof.
  apply finite_iff. change (Qabs 1) with (pow2 0). apply pow2_lt. lia.
Qed.

(** ** Memory *)

Lemma service_at_lookup this m s : heap m !! this = Some s -> service_at this m = s.
Proof. unfold service_at. now intros ->. Qed.

Lemma service_at_is_lookup this m :
  (this < length (heap m))%nat -> heap m !! this = Some (service_at this m).
Proof.
  intros Hlt. unfold service_at.
  destruct (lookup_lt_is_Some_2 (heap m) this Hlt) as [s ->]. reflexivity.
Qed.

Lemma lookup_lt_heap this m s : heap m !! this = Some s -> (this < length (heap m))%nat.
Proof. intros H. eapply lookup_lt_Some; eauto. Qed.

(** Assigning a field of [this] changes the object at [this] and nothing
    else. *)
Lemma service_at_upd this f m :
  (this < length (heap m))%nat -> service_at this (upd this f m) = f (service_at this m).
Proof.
  intros H. unfold service_at at 1, upd. simpl.
  now rewrite list_lookup_insert_eq.
Qed.

Lemma length_heap_upd this f m : length (heap (upd this f m)) = length (heap m).
Proof. unfold upd. simpl. apply length_insert. Qed.

Lemma clock_upd this f m : clock (upd this f m) = clock m.
Proof. reflexivity. Qed.

Lemma timers_upd this f m : timers (upd this f m) = timers m.
Proof. reflexivity. Qed.

Lemma console_upd this f m : console (upd this f m) = console m.
Proof. reflexivity. Qed.

Lemma clients_upd this f m : clients (upd this f m) = clients m.
Proof. reflexivity. Qed.

Lemma activeSessions_upd this f m : activeSessions (upd this f m) = activeSessions m.
Proof. reflexivity. Qed.

Lemma upd_id this f m s :
  heap m !! this = Some s -> f s = s -> upd this f m = m.
Proof.
  intros Hs Hf. unfold upd. rewrite (service_at_lookup _ _ _ Hs), Hf.
  rewrite list_insert_id by exact Hs. now destruct m.
Qed.

(** The other components of the memory do not hold service objects. *)
Lemma service_at_set_clock this t m : service_at this (set_clock t m) = service_at this m.
Proof. reflexivity. Qed.

Lemma service_at_set_console this c m : service_at this (set_console c m) = service_at this m.
Proof. reflexivity. Qed.

Lemma service_at_set_timers this c m : service_at this (set_timers c m) = service_at this m.
Proof. reflexivity. Qed.

Lemma service_at_set_activeSessions this c m :
  service_at this (set_activeSessions c m) = service_at this m.
Proof. reflexivity. Qed.

Lemma service_at_set_clients this c m : service_at this (set_clients c m) = service_at this m.
Proof. reflexivity. Qed.

(** Sending touches the sockets only. *)
Lemma transmit_cases ws msg m :
  transmit ws msg m = m \/
  exists sock, transmit ws msg m =
               set_clients (<[ws := push msg (clock m) sock]> (clients m)) m.
Proof.
  unfold transmit. destruct (clients m !! ws) as [sock|]; [|now left].
  destruct (is_open sock); [right; now exists sock | now left].
Qed.

Lemma heap_transmit ws msg m : heap (transmit ws msg m) = heap m.
Proof. destruct (transmit_cases ws msg m) as [->|[sock ->]]; reflexivity. Qed.

Lemma activeSessions_transmit ws msg m :
  activeSessions (transmit ws msg m) = activeSessions m.
Proof. destruct (transmit_cases ws msg m) as [->|[sock ->]]; reflexivity. Qed.

Lemma clock_transmit ws msg m : clock (transmit ws msg m) = clock m.
Proof. destruct (transmit_cases ws msg m) as [->|[sock ->]]; reflexivity. Qed.

Lemma service_at_transmit this ws msg m :
  service_at this (transmit ws msg m) = service_at this m.
Proof. unfold service_at. now rewrite heap_transmit. Qed.

Lemma length_heap_transmit ws msg m : length (heap (transmit ws msg m)) = length (heap m).
Proof. now rewrite heap_transmit. Qed.

(** On an open socket a message is appended to the outbox, stamped with the
    time of sending. *)
Lemma transmit_open ws msg m sock :
  clients m !! ws = Some sock -> readyState sock = OPEN ->
  clients (transmit ws msg m) !! ws = Some (push msg (clock m) sock).
Proof.
  intros Hws Hopen. unfold transmit, is_open. rewrite Hws, Hopen. simpl.
  apply list_lookup_insert_eq. eapply lookup_lt_Some; eauto.
Qed.

Create Rewrite HintDb memory.
Create Rewrite HintDb service.
Create Rewrite HintDb heap_length.
Create Rewrite HintDb run.

#[local] Hint Rewrite
  clock_upd timers_upd console_upd clients_upd activeSessions_upd
  clock_transmit activeSessions_transmit : memory.

#[local] Hint Rewrite
  service_at_set_clock service_at_set_console service_at_set_timers
  service_at_set_activeSessions service_at_set_clients service_at_transmit
  : service.

#[local] Hint Rewrite length_heap_upd length_heap_transmit : heap_length.

(** ** Running programs symbolically *)

Section Run.

Variable o : Oracle.

Lemma run_bind {A B} (p : Prog A) (f : A -> Prog B) w :
  run o (p ≫= f) w =
    match run o p w with
    | (Returned a, w') => run o (f a) w'
    | (Thrown e, w') => (Thrown e, w')
    end.
Proof.
  unfold mbind, Prog_bind. revert w.
  induction p as [a|e|k IH|m k IH|c k IH]; intros w; simpl; auto.
  destruct (settle o c w) as [r w']. apply IH.
Qed.

Lemma run_try_catch {A} (p : Prog A) (h : Err -> Prog A) w :
  run o (try_catch p h) w =
    match run o p w with
    | (Returned a, w') => (Returned a, w')
    | (Thrown e, w') => run o (h e) w'
    end.
Proof.
  revert w.
  induction p as [a|e|k IH|m k IH|c k IH]; intros w; simpl; auto.
  destruct (settle o c w) as [r w']. apply IH.
Qed.

Lemma run_ret {A} (a : A) w : run o (Ret a) w = (Returned a, w).
Proof. reflexivity. Qed.

Lemma run_throw {A} e w : run o (@Throw A e) w = (Thrown e, w).
Proof. reflexivity. Qed.

Lemma run_get w : run o (Get Ret) w = (Returned (mem w), w).
Proof. reflexivity. Qed.

Lemma run_modify f w :
  run o (modify f) w = (Returned tt, {| mem := f (mem w); calls := calls w |}).
Proof. reflexivity. Qed.

Lemma run_self this w : run o (self this) w = (Returned (service_at this (mem w)), w).
Proof. reflexivity. Qed.

Lemma run_assign this f w :
  run o (assign this f) w = (Returned tt, {| mem := upd this f (mem w); calls := calls w |}).
Proof. reflexivity. Qed.

Lemma run_now w : run o Date_now w = (Returned (clock (mem w)), w).
Proof. reflexivity. Qed.

Lemma run_console_error text e w :
  run o (console_error text e) w =
    (Returned tt,
     {| mem := set_console (console (mem w) ++ [ConsoleError text e]) (mem w);
        calls := calls w |}).
Proof. reflexivity. Qed.

Lemma run_console_log text w :
  run o (console_log text) w =
    (Returned tt,
     {| mem := set_console (console (mem w) ++ [ConsoleLog text]) (mem w);
        calls := calls w |}).
Proof. reflexivity. Qed.

Lemma run_chat ws text w :
  run o (chat ws text) w =
    (Returned tt,
     {| mem := transmit ws (ChatMessage text (clock (mem w))) (mem w);
        calls := calls w |}).
Proof. reflexivity. Qed.

(** An awaited driver call: the call joins the trace, the clock moves on by
    the time the driver takes, and a rejection is thrown. *)
Lemma run_call c w :
  run o (call c) w =
    (match snd (o (calls w) c) with
     | Rejected e => Thrown e
     | Resolved d => Returned d
     end,
     {| mem := set_clock (clock (mem w) + Z.of_N (fst (o (calls w) c))) (mem w);
        calls := calls w ++ [c] |}).
Proof.
  simpl. unfold settle. destruct (o (calls w) c) as [dt [e|d]]; reflexivity.
Qed.

Lemma calls_run_call c w : calls (snd (run o (call c) w)) = calls w ++ [c].
Proof. now rewrite run_call. Qed.

End Run.

#[local] Hint Rewrite
  @run_bind @run_try_catch @run_ret @run_throw run_get run_modify run_self
  run_assign run_now run_console_error run_console_log run_chat run_call
  : run.

(** [this < length (heap m)] for a memory [m] reached from one where it held. *)
Ltac heap_length :=
  repeat first
    [ progress autorewrite with heap_length
    | progress cbn [heap mem set_clock set_console set_timers
                    set_activeSessions set_clients] ];
  first [assumption | reflexivity | eapply lookup_lt_Some; eassumption].

(** Read the object at [this] through the updates made so far. *)
Ltac look :=
  repeat first
    [ progress autorewrite with service
    | rewrite service_at_upd by heap_length
    | match goal with
      | H : heap (mem ?w) !! ?this = Some ?s |- context [service_at ?this (mem ?w)] =>
          rewrite (service_at_lookup this (mem w) s H)
      end ].

Ltac reduce1 :=
  cbn beta iota;
  autorewrite with memory;
  cbn [fst snd negb andb orb mem calls clock timers console clients
       activeSessions set_clock set_console set_timers set_activeSessions set_clients
       browser context page streamingClient isStreaming lastActivity sessionId
       periodicFrameInterval lastFrameTimestamp
       set_browser set_context set_page set_streamingClient set_isStreaming
       set_lastActivity set_sessionId set_periodicFrameInterval
       set_lastFrameTimestamp].

Ltac reduce := reduce1; repeat (progress reduce1).

(** Run a handler as far as its text and the hypotheses determine. *)
Ltac exec :=
  repeat (progress (autorewrite with run; reduce; look; reduce)).

(** ** Sequential runs are schedules *)

Lemma park_ret w (a : unit) : park (Ret a) w = (Ret a, w).
Proof. unfold park. simpl. rewrite app_nil_r. now destruct w. Qed.

Lemma park_throw w e : park (@Throw unit e) w = (Throw e, w).
Proof. unfold park. simpl. rewrite app_nil_r. now destruct w. Qed.

Lemma park_get k w : park (Get k) w = park (k (mem w)) w.
Proof. reflexivity. Qed.

Lemma park_put m k w : park (Put m k) w = park k {| mem := m; calls := calls w |}.
Proof. reflexivity. Qed.

Lemma park_await c k w :
  park (Await c k) w = (Await c k, {| mem := mem w; calls := calls w ++ [c] |}).
Proof. reflexivity. Qed.

Lemma insert_last {A} (l : list A) (x y : A) :
  <[length l := y]> (l ++ [x]) = l ++ [y].
Proof. rewrite insert_app_r_alt by lia. now rewrite Nat.sub_diag. Qed.

(** Once a handler is parked as the last task, the schedule [alone] takes
    it to the outcome and the world of [run]. *)
Lemma sched_alone_parked o (p : Prog unit) w ts :
  sched (alone o (length ts) p w)
    {| world := snd (park p w); tasks := ts ++ [fst (park p w)] |} =
  {| world := snd (run o p w); tasks := ts ++ [settled (fst (run o p w))] |}.
Proof.
  revert w. induction p as [a|e|k IH|m k IH|c k IH]; intros w.
  - rewrite park_ret. reflexivity.
  - rewrite park_throw. reflexivity.
  - rewrite park_get. simpl. apply IH.
  - rewrite park_put. simpl. apply IH.
  - rewrite park_await. cbn [alone sched fold_left fst snd].
    cbn [step world tasks mem calls].
    rewrite list_lookup_middle by reflexivity.
    assert (Hw : {| mem := set_clock (clock (mem w) + Z.of_N (fst (o (calls w) c))) (mem w);
                    calls := calls w ++ [c] |} = snd (settle o c w)).
    { unfold settle. destruct (o (calls w) c) as [dt r]. reflexivity. }
    rewrite Hw.
    specialize (IH (fst (settle o c w)) (snd (settle o c w))).
    destruct (park (k (fst (settle o c w))) (snd (settle o c w))) as [p' w'].
    cbn [fst snd] in IH. rewrite insert_last.
    change (fold_left step ?l ?s) with (sched l s).
    rewrite IH. simpl run.
    destruct (settle o c w) as [r w1]. reflexivity.
Qed.

(** [run] is the event loop with nothing else going on: starting the
    handler and letting it run alone ends in the world of [run], with the
    handler settled as [run] says. *)
Theorem run_is_a_schedule o (p : Prog unit) w ts :
  sched (Spawn p :: alone o (length ts) p w) {| world := w; tasks := ts |} =
  {| world := snd (run o p w); tasks := ts ++ [settled (fst (run o p w))] |}.
Proof.
  cbn [sched fold_left step world tasks].
  destruct (park p w) as [p' w'] eqn:Hpark.
  pose proof (sched_alone_parked o p w ts) as H.
  rewrite Hpark in H. exact H.
Qed.

(** ** The sample session *)

Lemma streaming_session : session_with_viewport 0 default_viewport streaming.
Proof.
  exists (service_at 0 (mem streaming)), {| viewportSize := Some default_viewport |}.
  split; [|split]; vm_compute; reflexivity.
Defined.

Lemma streaming_service_live :
  heap (mem streaming) !! 0%nat = Some (service_at 0 (mem streaming)) /\
  page (service_at 0 (mem streaming)) <> None.
Proof. split; [vm_compute; reflexivity | vm_compute; discriminate]. Defined.

Lemma streaming_is_streaming :
  isStreaming (service_at 0 (mem streaming)) = true /\
  page (service_at 0 (mem streaming)) = Some {| viewportSize := Some default_viewport |} /\
  streamingClient (service_at 0 (mem streaming)) <> None /\
  lastFrameTimestamp (service_at 0 (mem streaming)) = 0%Z /\
  activeSessions (mem streaming) !! "s1" = Some 0%nat.
Proof.
  split; [vm_compute; reflexivity|].
  split; [vm_compute; reflexivity|].
  split; [vm_compute; discriminate|].
  split; vm_compute; reflexivity.
Defined.

(** ** The three branches of the coordinate fix *)

Lemma Qgt_bool_iff a b : Qgt_bool a b = true <-> (b < a)%Q.
Proof.
  unfold Qgt_bool. rewrite negb_true_iff.
  split.
  - intros H. apply Qnot_le_lt. intros Hle.
    apply Qle_bool_iff in Hle. congruence.
  - intros H. destruct (Qle_bool a b) eqn:E; [|reflexivity].
    apply Qle_bool_iff in E. exfalso. exact (Qlt_not_le _ _ H E).
Qed.

Lemma Qle_bool_false a b : Qle_bool a b = false <-> (b < a)%Q.
Proof. rewrite <- Qgt_bool_iff. unfold Qgt_bool. now rewrite negb_true_iff. Qed.

Lemma absolute_fraction vp x y :
  (x <= 1)%Q -> (y <= 1)%Q ->
  absolute vp x y =
    (inject_Z (Qfloor (round (x * inject_Z (width vp)))),
     inject_Z (Qfloor (round (y * inject_Z (height vp))))).
Proof.
  intros Hx Hy. unfold absolute.
  apply Qle_bool_iff in Hx. apply Qle_bool_iff in Hy.
  now rewrite Hx, Hy.
Qed.

Lemma absolute_not_fraction vp x y :
  (1 < x \/ 1 < y)%Q ->
  absolute vp x y =
    if Qgt_bool x (inject_Z (width vp)) || Qgt_bool y (inject_Z (height vp))
    then (Qmin x (inject_Z (width vp) - 1), Qmin y (inject_Z (height vp) - 1))
    else (x, y).
Proof.
  intros H. unfold absolute.
  destruct H as [H|H]; apply Qle_bool_false in H; rewrite H;
    [|rewrite andb_false_r]; reflexivity.
Qed.

Lemma absolute_identity vp x y :
  (1 < x \/ 1 < y)%Q ->
  (x <= inject_Z (width vp))%Q -> (y <= inject_Z (height vp))%Q ->
  absolute vp x y = (x, y).
Proof.
  intros H Hx Hy. rewrite absolute_not_fraction by exact H.
  unfold Qgt_bool.
  apply Qle_bool_iff in Hx. apply Qle_bool_iff in Hy.
  now rewrite Hx, Hy.
Qed.
(** ** Bounds of the fixed coordinates *)

Lemma inject_Z_pred z : (inject_Z z - 1 == inject_Z (z - 1))%Q.
Proof. unfold Z.sub. rewrite inject_Z_plus. reflexivity. Qed.

Lemma inject_Z_ge_1 z : (1 <= z)%Z -> (1 <= inject_Z z)%Q.
Proof. intros H. change 1%Q with (inject_Z 1). now rewrite <- Zle_Qle. Qed.

Lemma floor_scaled_nonneg x W : (0 <= x)%Q -> (1 <= W)%Z ->
  (0 <= inject_Z (Qfloor (round (x * inject_Z W))))%Q.
Proof.
  intros Hx HW. apply inject_Z_ge_1 in HW.
  change 0%Q with (inject_Z 0). rewrite <- Zle_Qle.
  rewrite <- (Qfloor_Z 0). apply Qfloor_resp_le.
  change (inject_Z 0) with 0%Q. apply round_nonneg. nra.
Qed.

(** The pixel of a proper fraction is inside the viewport: the product is
    rounded, but it stays below the size of the viewport. *)
Lemma floor_scaled_below x W : double x -> (0 <= x)%Q -> (x < 1)%Q -> (1 <= W)%Z ->
  (inject_Z (Qfloor (round (x * inject_Z W))) <= inject_Z W - 1)%Q.
Proof.
  intros Hd H0 Hx HW. rewrite inject_Z_pred, <- Zle_Qle.
  assert (H : (Qfloor (round (x * inject_Z W)) < W)%Z).
  { rewrite Zlt_Qlt. eapply Qle_lt_trans; [apply Qfloor_le|].
    now apply round_fraction_below. }
  lia.
Qed.

Lemma scaled_le_pow2_53 x W : (0 <= x)%Q -> (x <= 1)%Q -> (1 <= W <= 2 ^ 53)%Z ->
  (x * inject_Z W <= inject_Z (2 ^ 53))%Q.
Proof.
  intros H0 H1 [HW1 HW2]. apply inject_Z_ge_1 in HW1. rewrite Zle_Qle in HW2.
  set (w := inject_Z W) in *. set (b := inject_Z (2 ^ 53)) in *. clearbody w b. nra.
Qed.

Lemma Qmin_nonneg a b : (0 <= a)%Q -> (0 <= b)%Q -> (0 <= Qmin a b)%Q.
Proof. intros. now apply Q.min_glb. Qed.

Section Viewport.

(** A rendering surface of at least one pixel each way. *)
Variable vp : ViewportSize.
Hypothesis HW : (1 <= width vp)%Z.
Hypothesis HH : (1 <= height vp)%Z.

(** The clamp is reached by every pair that exceeds the viewport: such a
    pair cannot have both components at most 1. *)
Lemma absolute_clamp x y :
  (inject_Z (width vp) < x \/ inject_Z (height vp) < y)%Q ->
  absolute vp x y =
    (Qmin x (inject_Z (width vp) - 1), Qmin y (inject_Z (height vp) - 1)).
Proof.
  intros H.
  pose proof (inject_Z_ge_1 _ HW) as HW'.
  pose proof (inject_Z_ge_1 _ HH) as HH'.
  rewrite absolute_not_fraction.
  - destruct H as [H|H]; apply Qgt_bool_iff in H; rewrite H;
      [|rewrite orb_true_r]; reflexivity.
  - destruct H as [H|H]; [left|right].
    + exact (Qle_lt_trans _ _ _ HW' H).
    + exact (Qle_lt_trans _ _ _ HH' H).
Qed.

(** Non-negative input never yields a negative coordinate. *)
Lemma absolute_nonneg x y :
  (0 <= x)%Q -> (0 <= y)%Q ->
  (0 <= fst (absolute vp x y) /\ 0 <= snd (absolute vp x y))%Q.
Proof.
  intros Hx Hy. unfold absolute.
  pose proof (inject_Z_ge_1 _ HW). pose proof (inject_Z_ge_1 _ HH).
  destruct (Qle_bool x 1 && Qle_bool y 1).
  - simpl. split; now apply floor_scaled_nonneg.
  - destruct (_ || _); simpl; [|now split].
    split; apply Qmin_nonneg; auto; lra.
Qed.

Lemma absolute_in_viewport x y :
  double x -> double y -> (0 <= x)%Q -> (0 <= y)%Q ->
  (x < 1 /\ y < 1)%Q \/
  (inject_Z (width vp) < x \/ inject_Z (height vp) < y)%Q \/
  (in_viewport vp (x, y) /\ (1 < x \/ 1 < y)%Q) ->
  in_viewport vp (absolute vp x y).
Proof.
  intros Hdx Hdy Hx Hy Hcase.
  destruct (absolute_nonneg x y Hx Hy) as [H0x H0y].
  destruct Hcase as [[Hx1 Hy1]|[Hbig|[Hin Hpix]]].
  - rewrite absolute_fraction in * by lra. unfold in_viewport.
    cbn [fst snd] in *.
    repeat split; auto using floor_scaled_below.
  - rewrite absolute_clamp in * by auto. unfold in_viewport.
    cbn [fst snd] in *.
    repeat split; auto using Q.le_min_r.
  - unfold in_viewport in Hin. simpl in Hin.
    rewrite absolute_identity; [exact Hin | exact Hpix | lra | lra].
Qed.

End Viewport.

(** ** The pointer operations *)

(** What a pointer operation does once its guards have passed: the driver
    calls of [act] at the fixed coordinates, then the activity stamp, or the
    logged error. *)
Lemma run_pointer o this x y failure act w s pg vp :
  heap (mem w) !! this = Some s -> page s = Some pg -> viewportSize pg = Some vp ->
  run o (pointer this x y failure act) w =
    match run o (act (fst (absolute vp x y)) (snd (absolute vp x y))) w with
    | (Returned _, w') =>
        (Returned tt,
         {| mem := upd this (set_lastActivity (clock (mem w'))) (mem w');
            calls := calls w' |})
    | (Thrown e, w') =>
        (Thrown e,
         {| mem := set_console (console (mem w') ++ [ConsoleError failure e]) (mem w');
            calls := calls w' |})
    end.
Proof.
  intros Hs Hpg Hvp. unfold pointer.
  rewrite run_bind, run_self, (service_at_lookup _ _ _ Hs), Hpg, Hvp.
  rewrite run_try_catch.
  destruct (absolute vp x y) as [ax ay]. simpl fst; simpl snd.
  rewrite run_bind.
  destruct (run o (act ax ay) w) as [[[]|e] w']; reflexivity.
Qed.

Lemma calls_run_pointer o this x y failure act w vp :
  session_with_viewport this vp w ->
  calls (snd (run o (pointer this x y failure act) w)) =
  calls (snd (run o (act (fst (absolute vp x y)) (snd (absolute vp x y))) w)).
Proof.
  intros (s & pg & Hs & Hpg & Hvp).
  rewrite (run_pointer _ _ _ _ _ _ _ _ _ _ Hs Hpg Hvp).
  destruct (run o _ w) as [[[]|e] w']; reflexivity.
Qed.

Lemma calls_click o this x y w vp :
  session_with_viewport this vp w ->
  calls (snd (run o (click this x y) w)) =
  calls w ++ [MouseClick (fst (absolute vp x y)) (snd (absolute vp x y))].
Proof.
  intros H. unfold click. rewrite (calls_run_pointer _ _ _ _ _ _ _ _ H).
  rewrite run_bind, run_call.
  destruct (snd (o (calls w) _)); reflexivity.
Qed.

Lemma calls_mouseMove o this x y w vp :
  session_with_viewport this vp w ->
  calls (snd (run o (mouseMove this x y) w)) =
  calls w ++ [MouseMove (fst (absolute vp x y)) (snd (absolute vp x y))].
Proof.
  intros H. unfold mouseMove. rewrite (calls_run_pointer _ _ _ _ _ _ _ _ H).
  rewrite run_bind, run_call.
  destruct (snd (o (calls w) _)); reflexivity.
Qed.

(** Move-then-press: the move carries the coordinates, the button call
    follows unless the move was rejected. *)
Lemma calls_move_then o this (button : DriverCall) ax ay w :
  target button = None ->
  exists new,
    calls (snd (run o (call (MouseMove ax ay);; the_page this "mouse";; call button;; Ret tt) w))
      = calls w ++ new /\ targets new = [(ax, ay)].
Proof.
  intros Hb. rewrite run_bind, run_call.
  destruct (snd (o (calls w) (MouseMove ax ay))) as [e|d]; cbn beta iota.
  - exists [MouseMove ax ay]. split; reflexivity.
  - unfold the_page. rewrite !run_bind, run_self. cbn beta iota.
    match goal with
    | |- context [page ?s] => destruct (page s) as [pg|]
    end; cbn beta iota.
    + rewrite run_ret. cbn beta iota. rewrite run_bind, run_call.
      exists [MouseMove ax ay; button]. split.
      * destruct (snd (o _ button)); cbn [snd calls]; now rewrite <- app_assoc.
      * unfold targets. simpl. now rewrite Hb.
    + exists [MouseMove ax ay]. split; reflexivity.
Qed.

(** Every pointer operation hands the driver exactly one coordinate pair,
    the fixed one. *)
Lemma targets_pointer_operation op o this x y w vp :
  In op pointer_operations -> session_with_viewport this vp w ->
  exists new,
    calls (snd (run o (op this x y) w)) = calls w ++ new /\
    targets new = [absolute vp x y].
Proof.
  intros Hop H.
  assert (Heta : absolute vp x y = (fst (absolute vp x y), snd (absolute vp x y)))
    by now destruct (absolute vp x y).
  rewrite Heta.
  destruct Hop as [<-|[<-|[<-|[<-|[]]]]].
  - eexists. split; [apply calls_click; exact H | reflexivity].
  - unfold mouseDown. rewrite (calls_run_pointer _ _ _ _ _ _ _ _ H).
    now apply calls_move_then.
  - unfold mouseUp. rewrite (calls_run_pointer _ _ _ _ _ _ _ _ H).
    now apply calls_move_then.
  - eexists. split; [apply calls_mouseMove; exact H | reflexivity].
Qed.

(** The driver calls of [click] on a session with viewport [vp]. *)
Lemma calls_click_eq o this x y w vp p :
  session_with_viewport this vp w -> absolute vp x y = p ->
  calls (snd (run o (click this x y) w)) = calls w ++ [MouseClick (fst p) (snd p)].
Proof. intros H <-. now apply calls_click. Qed.

(** ** Claims on the coordinate normaliser *)

(** C1 (as stated, refuted): the pair handed to the driver is not always
    inside [[0, W-1] × [0, H-1]].  Negative input is scaled as a fraction
    and stays negative; the fraction 1 maps to the pixel [W]; the pixel [W]
    itself passes unclamped. *)
Lemma C1_counterexample :
  absolute default_viewport (-5) (-5) = ((-6400)%Q, (-3600)%Q) /\
  ~ in_viewport default_viewport (absolute default_viewport (-5) (-5)) /\
  ~ in_viewport default_viewport (absolute default_viewport 1 1) /\
  ~ in_viewport default_viewport (absolute default_viewport 1280 100) /\
  calls (snd (run obliging (click 0 (-5) (-5)) streaming)) =
    calls streaming ++ [MouseClick (-6400) (-3600)].
Proof.
  split; [reflexivity|].
  split; [|split; [|split]].
  - intros (H & _). vm_compute in H. apply H. reflexivity.
  - intros (_ & H & _). vm_compute in H. apply H. reflexivity.
  - intros (_ & H & _). vm_compute in H. apply H. reflexivity.
  - vm_compute. reflexivity.
Qed.

(** C1 (amended): for non-negative input on a viewport of at least one
    pixel each way, every pointer operation hands the driver one coordinate
    pair; the pair is non-negative, and it lies in [[0, W-1] × [0, H-1]]
    when the input is a pair of proper fractions, or exceeds the viewport,
    or is a pixel pair already inside it.  The input is a pair of doubles,
    as every pair of numbers is. *)
Theorem C1_pointer_coordinates_bounded op o this w vp x y :
  In op pointer_operations -> session_with_viewport this vp w ->
  (1 <= width vp)%Z -> (1 <= height vp)%Z ->
  double x -> double y -> (0 <= x)%Q -> (0 <= y)%Q ->
  exists new p,
    calls (snd (run o (op this x y) w)) = calls w ++ new /\
    targets new = [p] /\
    (0 <= fst p /\ 0 <= snd p)%Q /\
    ((x < 1 /\ y < 1)%Q \/
     (inject_Z (width vp) < x \/ inject_Z (height vp) < y)%Q \/
     (in_viewport vp (x, y) /\ (1 < x \/ 1 < y)%Q) ->
     in_viewport vp p).
Proof.
  intros Hop Hs HW HH Hdx Hdy Hx Hy.
  destruct (targets_pointer_operation op o this x y w vp Hop Hs) as (new & Hc & Ht).
  exists new, (absolute vp x y).
  split; [exact Hc|]. split; [exact Ht|].
  split; [now apply absolute_nonneg|].
  now apply absolute_in_viewport.
Qed.

Lemma C1_pointer_coordinates_bounded_witness :
  In click pointer_operations /\
  session_with_viewport 0 default_viewport streaming /\
  double 2000 /\ double 50 /\ (0 <= 2000)%Q /\ (0 <= 50)%Q /\
  exists new p,
    calls (snd (run obliging (click 0 2000 50) streaming)) = calls streaming ++ new /\
    targets new = [p] /\
    (0 <= fst p /\ 0 <= snd p)%Q /\
    ((2000 < 1 /\ 50 < 1)%Q \/
     (inject_Z 1280 < 2000 \/ inject_Z 720 < 50)%Q \/
     (in_viewport default_viewport (2000, 50)%Q /\ (1 < 2000 \/ 1 < 50)%Q) ->
     in_viewport default_viewport p).
Proof.
  assert (Hdx : double 2000) by (vm_compute; reflexivity).
  assert (Hdy : double 50) by (vm_compute; reflexivity).
  split; [left; reflexivity|].
  split; [exact streaming_session|].
  split; [exact Hdx|]. split; [exact Hdy|].
  split; [unfold Qle; simpl; lia|].
  split; [unfold Qle; simpl; lia|].
  apply (C1_pointer_coordinates_bounded click obliging 0 streaming default_viewport 2000 50).
  - left; reflexivity.
  - exact streaming_session.
  - simpl; lia.
  - simpl; lia.
  - exact Hdx.
  - exact Hdy.
  - unfold Qle; simpl; lia.
  - unfold Qle; simpl; lia.
Defined.

(** C2 (as stated, refuted): the pixel is the floor of the product as the
    machine computes it, rounded to a double, not of the exact product.
    The double that the literal 0.6 denotes lies below 0.6, and so does
    its exact product with 1280 below 768; but that product is no double,
    and it rounds to 768. *)
Lemma C2_counterexample :
  double three_fifths /\ (0 <= three_fifths /\ three_fifths <= 1)%Q /\
  Qfloor (three_fifths * inject_Z (width default_viewport)) = 767%Z /\
  absolute default_viewport three_fifths (1 # 2) = (768%Q, 360%Q) /\
  calls (snd (run obliging (click 0 three_fifths (1 # 2)) streaming)) =
    calls streaming ++ [MouseClick 768 360].
Proof.
  split; [vm_compute; reflexivity|].
  split; [split; vm_compute; discriminate|].
  split; [|split]; vm_compute; reflexivity.
Qed.

(** C2 (amended): a pair with both components in [[0,1]] is read as
    fractions of the viewport, and [click] hands the driver the pixel
    [(floor (fl (x*W)), floor (fl (y*H)))], where [fl] rounds the exact
    product to a double.  On a viewport of at most [2 ** 53] pixels each
    way a component is [floor (x*W)] or the pixel after it, and it is
    [floor (x*W)] when the exact product is a double.  At 1280×720 the pair
    (0.5, 0.5) is clicked at (640, 360). *)
Theorem C2_fractions_scaled_to_pixels o this w vp x y :
  session_with_viewport this vp w ->
  (1 <= width vp <= 2 ^ 53)%Z -> (1 <= height vp <= 2 ^ 53)%Z ->
  (0 <= x /\ x <= 1)%Q -> (0 <= y /\ y <= 1)%Q ->
  let px := Qfloor (round (x * inject_Z (width vp))) in
  let py := Qfloor (round (y * inject_Z (height vp))) in
  absolute vp x y = (inject_Z px, inject_Z py) /\
  calls (snd (run o (click this x y) w)) =
    calls w ++ [MouseClick (inject_Z px) (inject_Z py)] /\
  (Qfloor (x * inject_Z (width vp)) <= px <= Qfloor (x * inject_Z (width vp)) + 1)%Z /\
  (Qfloor (y * inject_Z (height vp)) <= py <= Qfloor (y * inject_Z (height vp)) + 1)%Z /\
  (double (x * inject_Z (width vp)) -> px = Qfloor (x * inject_Z (width vp))) /\
  (double (y * inject_Z (height vp)) -> py = Qfloor (y * inject_Z (height vp))).
Proof.
  intros Hs HW HH [Hx0 Hx] [Hy0 Hy] px py.
  pose proof (absolute_fraction vp x y Hx Hy) as E.
  split; [exact E|].
  split; [now rewrite (calls_click_eq o this x y w vp _ Hs E)|].
  pose proof (inject_Z_ge_1 _ (proj1 HW)) as HW'.
  pose proof (inject_Z_ge_1 _ (proj1 HH)) as HH'.
  split; [apply floor_round_bracket; [nra | now apply scaled_le_pow2_53]|].
  split; [apply floor_round_bracket; [nra | now apply scaled_le_pow2_53]|].
  split; intros Hd; unfold px, py; unfold double in Hd; now rewrite Hd.
Qed.

Lemma C2_fractions_scaled_to_pixels_witness :
  session_with_viewport 0 default_viewport streaming /\
  (0 <= 1#2 /\ 1#2 <= 1)%Q /\
  absolute default_viewport (1#2) (1#2) = (640%Q, 360%Q) /\
  calls (snd (run obliging (click 0 (1#2) (1#2)) streaming)) =
    calls streaming ++ [MouseClick 640 360].
Proof.
  assert (Hf : (0 <= 1#2 /\ 1#2 <= 1)%Q) by (split; unfold Qle; simpl; lia).
  split; [exact streaming_session|].
  split; [exact Hf|].
  destruct (C2_fractions_scaled_to_pixels obliging 0 streaming default_viewport (1#2) (1#2)
              streaming_session ltac:(simpl; lia) ltac:(simpl; lia) Hf Hf)
    as (Habs & Hcalls & _).
  split; [exact Habs | exact Hcalls].
Defined.

(** C3: on a viewport of at least one pixel each way, a pair with [x > W]
    or [y > H] is clamped to [(min x (W-1), min y (H-1))], and [click] hands
    exactly that pair to the driver; at 1280×720 the pair (2000, 50) is
    clicked at (1279, 50). *)
Theorem C3_oversized_pair_clamped o this w vp x y :
  session_with_viewport this vp w ->
  (1 <= width vp)%Z -> (1 <= height vp)%Z ->
  (inject_Z (width vp) < x \/ inject_Z (height vp) < y)%Q ->
  absolute vp x y =
    (Qmin x (inject_Z (width vp) - 1), Qmin y (inject_Z (height vp) - 1)) /\
  calls (snd (run o (click this x y) w)) =
    calls w ++ [MouseClick (Qmin x (inject_Z (width vp) - 1))
                           (Qmin y (inject_Z (height vp) - 1))].
Proof.
  intros Hs HW HH Hbig.
  pose proof (absolute_clamp vp HW HH x y Hbig) as E.
  split; [exact E|].
  now rewrite (calls_click_eq o this x y w vp _ Hs E).
Qed.

Lemma C3_oversized_pair_clamped_witness :
  session_with_viewport 0 default_viewport streaming /\
  (inject_Z 1280 < 2000 \/ inject_Z 720 < 50)%Q /\
  absolute default_viewport 2000 50 = (1279%Q, 50%Q) /\
  calls (snd (run obliging (click 0 2000 50) streaming)) =
    calls streaming ++ [MouseClick 1279 50].
Proof.
  split; [exact streaming_session|].
  split; [left; unfold Qlt; simpl; lia|].
  apply (C3_oversized_pair_clamped obliging 0 streaming default_viewport 2000 50).
  - exact streaming_session.
  - simpl; lia.
  - simpl; lia.
  - left; unfold Qlt; simpl; lia.
Defined.

(** C4: a pair already inside [[0, W-1] × [0, H-1]] whose components are
    not both at most 1 is left as it is, and reaches the driver unchanged. *)
Theorem C4_inside_pair_unchanged o this w vp x y :
  session_with_viewport this vp w ->
  in_viewport vp (x, y) -> ~ (x <= 1 /\ y <= 1)%Q ->
  absolute vp x y = (x, y) /\
  calls (snd (run o (click this x y) w)) = calls w ++ [MouseClick x y].
Proof.
  intros Hs (_ & Hx & _ & Hy) Hnot. simpl in Hx, Hy.
  assert (Hpix : (1 < x \/ 1 < y)%Q).
  { destruct (Qlt_le_dec 1 x) as [H|H]; [now left|].
    destruct (Qlt_le_dec 1 y) as [H'|H']; [now right|].
    exfalso. apply Hnot. now split. }
  assert (E : absolute vp x y = (x, y)) by (apply absolute_identity; auto; lra).
  split; [exact E|].
  now rewrite (calls_click_eq o this x y w vp _ Hs E).
Qed.

Lemma C4_inside_pair_unchanged_witness :
  session_with_viewport 0 default_viewport streaming /\
  in_viewport default_viewport (300, 200)%Q /\ ~ (300 <= 1 /\ 200 <= 1)%Q /\
  absolute default_viewport 300 200 = (300%Q, 200%Q) /\
  calls (snd (run obliging (click 0 300 200) streaming)) =
    calls streaming ++ [MouseClick 300 200].
Proof.
  assert (Hin : in_viewport default_viewport (300, 200)%Q)
    by (unfold in_viewport, Qle; simpl; lia).
  assert (Hnot : ~ (300 <= 1 /\ 200 <= 1)%Q)
    by (unfold Qle; simpl; lia).
  split; [exact streaming_session|].
  split; [exact Hin|].
  split; [exact Hnot|].
  exact (C4_inside_pair_unchanged obliging 0 streaming default_viewport 300 200
           streaming_session Hin Hnot).
Defined.

(** ** Key presses *)

Lemma switch_found key cases default action :
  NoDup (map fst cases) -> In (key, action) cases ->
  switch key cases default = action.
Proof.
  induction cases as [|[label a] rest IH]; intros Hnd Hin; [destruct Hin|].
  simpl in *. apply NoDup_cons in Hnd as [Hfresh Hnd].
  destruct Hin as [Heq|Hin].
  - injection Heq as -> ->. now rewrite String.eqb_refl.
  - destruct (String.eqb_spec key label) as [->|_]; [|now apply IH].
    exfalso. apply Hfresh. apply list_elem_of_In.
    change label with (fst (label, action)). now apply in_map.
Qed.

Lemma switch_default key cases default :
  ~ In key (map fst cases) -> switch key cases default = default.
Proof.
  induction cases as [|[label a] rest IH]; intros Hnot; [reflexivity|].
  simpl in *. destruct (String.eqb_spec key label) as [->|_].
  - exfalso. apply Hnot. now left.
  - apply IH. intros H. apply Hnot. now right.
Qed.

Lemma key_table_labels_distinct : NoDup (map fst key_table).
Proof. apply (bool_decide_unpack _). vm_compute. reflexivity. Qed.

Lemma run_pressKey o this key w s :
  heap (mem w) !! this = Some s -> page s <> None ->
  calls (snd (run o (pressKey this key) w)) = calls w ++ [key_action key].
Proof.
  intros Hs Hpg. unfold pressKey.
  rewrite run_bind, run_self, (service_at_lookup _ _ _ Hs).
  destruct (page s) as [pg|]; [|congruence].
  rewrite run_try_catch, run_bind, run_call.
  destruct (snd (o (calls w) (key_action key))); reflexivity.
Qed.

(** C8: on a live session [pressKey] issues one driver call: for a key of
    the table, the action of its row (["Back"] is history back, ["F5"] is
    reload, ["ArrowLeft"] is a named key press); for a key outside the
    table, typed text when its length is 1 and a named key press of the key
    itself when it is longer. *)
Theorem C8_key_dispatch o this w s key :
  heap (mem w) !! this = Some s -> page s <> None ->
  calls (snd (run o (pressKey this key) w)) = calls w ++ [key_action key] /\
  (forall action, In (key, action) key_table -> key_action key = action) /\
  (~ In key (map fst key_table) -> String.length key = 1%nat ->
   key_action key = KeyboardType key) /\
  (~ In key (map fst key_table) -> (1 < String.length key)%nat ->
   key_action key = KeyboardPress key) /\
  key_action "Back" = PageGoBack /\
  key_action "F5" = PageReload /\
  key_action "ArrowLeft" = KeyboardPress "ArrowLeft" /\
  key_action "a" = KeyboardType "a".
Proof.
  intros Hs Hpg. split; [now apply (run_pressKey o this key w s)|].
  split; [|split; [|split]].
  - intros action Hin. unfold key_action.
    apply switch_found; [exact key_table_labels_distinct | exact Hin].
  - intros Hout Hlen. unfold key_action.
    rewrite switch_default by exact Hout. now rewrite Hlen.
  - intros Hout Hlen. unfold key_action.
    rewrite switch_default by exact Hout.
    destruct (Nat.eqb_spec (String.length key) 1) as [E|_]; [lia|reflexivity].
  - repeat split; reflexivity.
Qed.

Lemma C8_key_dispatch_witness :
  heap (mem streaming) !! 0%nat = Some (service_at 0 (mem streaming)) /\
  page (service_at 0 (mem streaming)) <> None /\
  calls (snd (run obliging (pressKey 0 "PageDown") streaming)) =
    calls streaming ++ [KeyboardPress "PageDown"].
Proof.
  split; [exact (proj1 streaming_service_live)|].
  split; [exact (proj2 streaming_service_live)|].
  exact (proj1 (C8_key_dispatch obliging 0 streaming (service_at 0 (mem streaming))
                  "PageDown" (proj1 streaming_service_live)
                  (proj2 streaming_service_live))).
Defined.

(** ** Chat commands *)

Lemma run_navigate_calls o this url w s :
  heap (mem w) !! this = Some s -> page s <> None ->
  calls (snd (run o (navigate this url) w)) = calls w ++ [PageGoto url].
Proof.
  intros Hs Hpg. unfold navigate.
  rewrite run_bind, run_self, (service_at_lookup _ _ _ Hs).
  destruct (page s) as [pg|]; [|congruence].
  rewrite run_try_catch, run_bind, run_call.
  destruct (snd (o (calls w) (PageGoto url))); reflexivity.
Qed.

(** A chat text that matches the command pattern navigates the live session
    to its target, with the scheme decided by [startsWith('http')]. *)
Lemma handleChatMessage_navigates o browserService ws w s text target :
  heap (mem w) !! browserService = Some s -> page s <> None ->
  navigateRegex text = Some target ->
  calls (snd (run o (handleChatMessage browserService (Some {| chat_text := text |}) ws) w))
    = calls w ++ [PageGoto (navigation_url target)].
Proof.
  intros Hs Hpg Hm. unfold handleChatMessage. simpl chat_text. rewrite Hm.
  rewrite run_try_catch, run_bind, run_chat.
  set (w1 := {| mem := transmit ws _ (mem w); calls := calls w |}).
  assert (Hs1 : heap (mem w1) !! browserService = Some s)
    by (unfold w1; simpl; now rewrite heap_transmit).
  pose proof (run_navigate_calls o browserService (navigation_url target) w1 s Hs1 Hpg) as Hc.
  destruct (run o (navigate _ _) w1) as [[[]|e] w2]; simpl in *.
  - exact Hc.
  - exact Hc.
Qed.

(** Any other text is acknowledged by an echo, and the driver is left
    alone. *)
Lemma handleChatMessage_echoes o browserService ws w text :
  navigateRegex text = None ->
  run o (handleChatMessage browserService (Some {| chat_text := text |}) ws) w =
    (Returned tt,
     {| mem := transmit ws
                 (ChatMessage ("Received your message: " +:+ String quote
                                 (text +:+ String quote EmptyString))
                    (clock (mem w))) (mem w);
        calls := calls w |}).
Proof. intros Hm. unfold handleChatMessage. simpl chat_text. now rewrite Hm. Qed.

(** The scenario of the design document: ["go to example.com"]. *)
Lemma chat_go_to_example :
  navigateRegex "go to example.com" = Some "example.com" /\
  calls (snd (run obliging
                (handleChatMessage 0 (Some {| chat_text := "go to example.com" |}) 0)
                streaming))
    = calls streaming ++ [PageGoto "https://example.com"].
Proof. split; vm_compute; reflexivity. Qed.

(** A target that has a scheme other than http(s), or none at all but does
    not begin with the letters [http], gets [https://] in front. *)
Lemma navigation_url_prefixed target :
  String.prefix "http" target = false ->
  navigation_url target = "https://" +:+ target.
Proof. unfold navigation_url. now intros ->. Qed.

Lemma match_literal_i_prefix pattern rest :
  match_literal_i pattern (pattern +:+ rest) = Some rest.
Proof.
  induction pattern as [|p pattern IH]; [reflexivity|].
  simpl. now rewrite Ascii.eqb_refl.
Qed.

(** A text made of one of the three command words, a space and a target
    on one line matches, and the target is the second group. *)
Lemma navigateRegex_command alt target :
  In alt ["go to"; "navigate to"; "open"] -> dot_plus_end target = true ->
  navigateRegex (alt +:+ " " +:+ target) = Some target.
Proof.
  intros Halt Htarget. unfold navigateRegex.
  destruct Halt as [<-|[<-|[<-|[]]]].
  - change ("go to" +:+ " " +:+ target) with ("go to " +:+ target).
    cbn [match_alternatives].
    change ("go to" +:+ " ") with "go to ".
    now rewrite match_literal_i_prefix, Htarget.
  - change ("navigate to" +:+ " " +:+ target) with ("navigate to " +:+ target).
    cbn [match_alternatives].
    change ("navigate to" +:+ " ") with "navigate to ".
    rewrite match_literal_i_prefix, Htarget. reflexivity.
  - change ("open" +:+ " " +:+ target) with ("open " +:+ target).
    cbn [match_alternatives].
    change ("open" +:+ " ") with "open ".
    rewrite match_literal_i_prefix, Htarget. reflexivity.
Qed.

(** The pattern is anchored: a text that matches is a command word (in any
    case), a space, and a non-empty target without line terminators. *)
Lemma match_alternatives_Some alternatives text target :
  match_alternatives alternatives text = Some target ->
  dot_plus_end target = true /\
  exists alt, In alt alternatives /\
              match_literal_i (alt +:+ " ") text = Some target.
Proof.
  induction alternatives as [|alt rest IH]; [discriminate|].
  cbn [match_alternatives].
  destruct (match_literal_i (alt +:+ " ") text) as [t|] eqn:E.
  - destruct (dot_plus_end t) eqn:D.
    + intros [= <-]. split; [exact D|]. exists alt. split; [now left | exact E].
    + intros H. destruct (IH H) as (Hd & alt' & Hin & Hm).
      split; [exact Hd|]. exists alt'. split; [now right | exact Hm].
  - intros H. destruct (IH H) as (Hd & alt' & Hin & Hm).
    split; [exact Hd|]. exists alt'. split; [now right | exact Hm].
Qed.

Lemma navigateRegex_target text target :
  navigateRegex text = Some target ->
  dot_plus_end target = true /\
  exists alt, In alt ["go to"; "navigate to"; "open"] /\
              match_literal_i (alt +:+ " ") text = Some target.
Proof. apply match_alternatives_Some. Qed.

(** A command whose target does not begin with [http] navigates the live
    session to [https://] followed by the target. *)
Lemma command_navigates_with_https o browserService ws w s alt target :
  heap (mem w) !! browserService = Some s -> page s <> None ->
  In alt ["go to"; "navigate to"; "open"] -> dot_plus_end target = true ->
  String.prefix "http" target = false ->
  calls (snd (run o (handleChatMessage browserService
                       (Some {| chat_text := alt +:+ " " +:+ target |}) ws) w))
    = calls w ++ [PageGoto ("https://" +:+ target)].
Proof.
  intros Hs Hpg Halt Htarget Hscheme.
  rewrite (handleChatMessage_navigates o browserService ws w s _ target Hs Hpg
             (navigateRegex_command alt target Halt Htarget)).
  now rewrite navigation_url_prefixed.
Qed.

(** C9 (the code departs from the claim): the test for a scheme is
    [startsWith('http')], so a target without a scheme that begins with
    these four letters is navigated to as it is, without [https://]. *)
Theorem C9_bare_http_target_not_prefixed :
  navigateRegex "go to httpbin.org" = Some "httpbin.org" /\
  navigation_url "httpbin.org" = "httpbin.org" /\
  calls (snd (run obliging
                (handleChatMessage 0 (Some {| chat_text := "go to httpbin.org" |}) 0)
                streaming))
    = calls streaming ++ [PageGoto "httpbin.org"].
Proof. split; [|split]; vm_compute; reflexivity. Qed.

(** ** Session creation *)

(** [initialize] throws exactly when the driver rejects one of its calls,
    and it never touches the sockets or the registry. *)
Lemma run_initialize o this sessionId w :
  (this < length (heap (mem w)))%nat ->
  exists w',
    run o (initialize this sessionId) w =
      (match first_rejection o (calls w) initialize_calls with
       | Some e => Thrown e
       | None => Returned tt
       end, w') /\
    clients (mem w') = clients (mem w) /\
    activeSessions (mem w') = activeSessions (mem w).
Proof.
  intros Hlt. unfold initialize, initialize_calls, first_rejection.
  exec.
  destruct (o (calls w) ChromiumLaunch) as [dt1 [e1|d1]] eqn:E1.
  { exec. eexists; split; [reflexivity|]. split; reflexivity. }
  exec.
  destruct (o _ (BrowserNewContext _)) as [dt2 [e2|d2]] eqn:E2.
  { exec. eexists; split; [reflexivity|]. split; reflexivity. }
  exec.
  destruct (o _ ContextNewPage) as [dt3 [e3|d3]] eqn:E3.
  { exec. eexists; split; [reflexivity|]. split; reflexivity. }
  exec. unfold the_page. exec.
  destruct (o _ (PageGoto _)) as [dt4 [e4|d4]] eqn:E4.
  { exec. eexists; split; [reflexivity|]. split; reflexivity. }
  exec. unfold setupScreencast. exec.
  destruct (o _ ContextNewCDPSession) as [dt5 [e5|d5]] eqn:E5.
  { exec. eexists; split; [reflexivity|]. split; reflexivity. }
  exec. unfold the_streamingClient. exec.
  destruct (o _ (CdpSend _)) as [dt6 [e6|d6]] eqn:E6.
  { exec. eexists; split; [reflexivity|]. split; reflexivity. }
  exec. unfold startPeriodicFrames, setInterval. exec.
  eexists; split; [reflexivity|]. split; reflexivity.
Qed.

(** With no entry for the session, a parsed message is answered by the
    session-not-found status and nothing else happens. *)
Lemma run_onMessage_no_session o ws sessionId data w :
  activeSessions (mem w) !! sessionId = None ->
  run o (onMessage ws sessionId (Parsed data)) w =
    (Returned tt,
     {| mem := transmit ws (ChatMessage session_not_found (clock (mem w))) (mem w);
        calls := calls w |}).
Proof.
  intros Hnone. unfold onMessage.
  rewrite run_try_catch, run_bind, run_ret. cbn beta iota.
  rewrite run_bind, run_get. cbn beta iota. rewrite Hnone.
  now rewrite run_chat.
Qed.

Lemma run_onMessage_null_no_session o ws sessionId w :
  activeSessions (mem w) !! sessionId = None ->
  run o (onMessage ws sessionId Null) w =
    (Returned tt,
     {| mem := transmit ws (ChatMessage session_not_found (clock (mem w))) (mem w);
        calls := calls w |}).
Proof.
  intros Hnone. unfold onMessage.
  rewrite run_try_catch, run_bind, run_ret. cbn beta iota.
  rewrite run_bind, run_get. cbn beta iota. rewrite Hnone.
  now rewrite run_chat.
Qed.

(** A message that does not parse is answered by the parser's error. *)
Lemma run_onMessage_unparseable o ws sessionId e w :
  run o (onMessage ws sessionId (Unparseable e)) w =
    (Returned tt,
     {| mem := transmit ws
                 (ChatMessage ("Error processing message: " +:+ e) (clock (mem w)))
                 (set_console
                    (console (mem w) ++ [ConsoleError "Error processing message:" e])
                    (mem w));
        calls := calls w |}).
Proof. reflexivity. Qed.

Lemma run_onConnection_failed o w ws sessionId sock e :
  clients (mem w) !! ws = Some sock -> readyState sock = OPEN ->
  first_rejection o (calls w) initialize_calls = Some e ->
  exists w' t1 t2,
    run o (onConnection ws sessionId) w = (Returned tt, w') /\
    activeSessions (mem w') = activeSessions (mem w) /\
    clients (mem w') !! ws =
      Some (set_listening true
              (push (ChatMessage ("Error initializing browser: " +:+ e) t2) t2
                 (push (ChatMessage welcome t1) t1
                    (set_ws_sessionId sessionId sock)))).
Proof.
  intros Hws Hopen Hrej. unfold onConnection.
  rewrite run_bind, run_modify. cbn beta iota.
  rewrite run_bind, run_chat. cbn beta iota.
  set (m1 := set_clients (alter (set_ws_sessionId sessionId) ws (clients (mem w))) (mem w)).
  cbn [mem calls].
  set (m2 := transmit ws (ChatMessage _ (clock m1)) m1).
  assert (Hws1 : clients m1 !! ws = Some (set_ws_sessionId sessionId sock)).
  { unfold m1. cbn [clients set_clients]. rewrite list_lookup_alter_eq, Hws. reflexivity. }
  assert (Hws2 : clients m2 !! ws =
                 Some (push (ChatMessage welcome (clock m1)) (clock m1)
                         (set_ws_sessionId sessionId sock))).
  { unfold m2. now apply transmit_open. }
  rewrite run_bind, run_try_catch, run_bind.
  unfold new_service at 1. cbn [run mem calls].
  set (m3 := set_heap (heap m2 ++ [new_Service]) m2).
  destruct (run_initialize o (length (heap m2)) sessionId
              {| mem := m3; calls := calls w |}) as (w4 & Hrun & Hcl & Hact).
  { unfold m3. cbn [mem heap set_heap]. rewrite length_app. simpl. lia. }
  cbn [calls mem] in Hrun, Hcl, Hact. rewrite Hrej in Hrun.
  rewrite run_bind, Hrun. cbn beta iota.
  rewrite run_bind, run_console_error. cbn beta iota.
  rewrite run_chat. cbn beta iota. rewrite run_modify. cbn [mem calls].
  set (m5 := set_console _ (mem w4)).
  set (m6 := transmit ws _ m5).
  assert (Hws5 : clients m5 !! ws =
                 Some (push (ChatMessage welcome (clock m1)) (clock m1)
                         (set_ws_sessionId sessionId sock))).
  { unfold m5. cbn [clients set_console]. rewrite Hcl. unfold m3.
    cbn [clients set_heap]. exact Hws2. }
  eexists _, (clock m1), (clock m5). split; [reflexivity|]. split.
  - cbn [mem activeSessions set_clients]. unfold m6.
    rewrite activeSessions_transmit. unfold m5. cbn [activeSessions set_console].
    rewrite Hact. unfold m3. cbn [activeSessions set_heap]. unfold m2.
    rewrite activeSessions_transmit. reflexivity.
  - cbn [mem clients set_clients]. rewrite list_lookup_alter_eq.
    unfold m6. erewrite transmit_open; [reflexivity | exact Hws5 | exact Hopen].
Qed.

(** C10: when a call of the session creation is rejected, the connection
    handler returns normally with the registry as it was, the socket still
    open with its listeners attached, and just the welcome and one
    diagnostic added to what was sent; every message that arrives
    afterwards and parses, the text [null] included, is answered by the
    session-not-found status, without any driver call. *)
Theorem C10_failed_session_creation o w ws sessionId sock e :
  clients (mem w) !! ws = Some sock -> readyState sock = OPEN ->
  activeSessions (mem w) !! sessionId = None ->
  first_rejection o (calls w) initialize_calls = Some e ->
  exists w' sock' t1 t2,
    run o (onConnection ws sessionId) w = (Returned tt, w') /\
    activeSessions (mem w') = activeSessions (mem w) /\
    clients (mem w') !! ws = Some sock' /\
    readyState sock' = OPEN /\ listening sock' = true /\
    outbox sock' =
      outbox sock ++
        [ (t1, ChatMessage welcome t1);
          (t2, ChatMessage ("Error initializing browser: " +:+ e) t2) ] /\
    forall o' message, (forall e', message <> Unparseable e') ->
    exists w'' sock'' t,
      run o' (onMessage ws sessionId message) w' = (Returned tt, w'') /\
      calls w'' = calls w' /\
      activeSessions (mem w'') = activeSessions (mem w') /\
      clients (mem w'') !! ws = Some sock'' /\
      outbox sock'' = outbox sock' ++ [(t, ChatMessage session_not_found t)].
Proof.
  intros Hws Hopen Hfresh Hrej.
  destruct (run_onConnection_failed o w ws sessionId sock e Hws Hopen Hrej)
    as (w' & t1 & t2 & Hrun & Hact & Hsock).
  eexists w', _, t1, t2.
  split; [exact Hrun|]. split; [exact Hact|]. split; [exact Hsock|].
  split; [exact Hopen|]. split; [reflexivity|].
  split; [cbn [outbox set_listening push set_ws_sessionId];
          now rewrite <- app_assoc|].
  intros o' message Hparses.
  assert (Hnone : activeSessions (mem w') !! sessionId = None)
    by now rewrite Hact.
  assert (Hanswer : run o' (onMessage ws sessionId message) w' =
                      (Returned tt,
                       {| mem := transmit ws (ChatMessage session_not_found (clock (mem w')))
                                   (mem w');
                          calls := calls w' |})).
  { destruct message as [e'|data|].
    - now destruct (Hparses e').
    - now apply run_onMessage_no_session.
    - now apply run_onMessage_null_no_session. }
  rewrite Hanswer.
  eexists _, _, (clock (mem w')).
  split; [reflexivity|]. split; [reflexivity|].
  split; [cbn [mem]; apply activeSessions_transmit|].
  split.
  - cbn [mem]. eapply transmit_open; [exact Hsock | exact Hopen].
  - reflexivity.
Qed.

Lemma C10_failed_session_creation_witness :
  let o := rejecting (fun c => match c with ChromiumLaunch => true | _ => false end) 0 in
  first_rejection o (calls accepted) initialize_calls = Some "rejected" /\
  exists w' sock',
    run o (onConnection 0 "s1") accepted = (Returned tt, w') /\
    activeSessions (mem w') = activeSessions (mem accepted) /\
    clients (mem w') !! 0%nat = Some sock' /\
    readyState sock' = OPEN /\
    length (outbox sock') = 2%nat.
Proof.
  cbv zeta.
  split; [reflexivity|].
  destruct (C10_failed_session_creation
              (rejecting (fun c => match c with ChromiumLaunch => true | _ => false end) 0)
              accepted 0 "s1"
              {| ws_sessionId := EmptyString; readyState := OPEN;
                 listening := false; outbox := [] |}
              "rejected" eq_refl eq_refl eq_refl eq_refl)
    as (w' & sock' & t1 & t2 & Hrun & Hact & Hsock & Hopen & _ & Hout & _).
  exists w', sock'. split; [exact Hrun|]. split; [exact Hact|].
  split; [exact Hsock|]. split; [exact Hopen|].
  rewrite Hout. reflexivity.
Defined.

(** ** Teardown *)

(** Branch on the next thing the run depends on: the answer of the driver
    to a call, or a handle that may be [null]. *)
Ltac branch o :=
  match goal with
  | |- context [o ?h ?c] => destruct (o h c) as [? [?|?]] eqn:?
  | |- context [match ?x with Some _ => _ | None => _ end] => is_var x; destruct x
  end.

(** [calls w' = calls w ++ ?new], for the trace [calls w'] of a finished run. *)
Ltac new_calls :=
  cbn [calls]; rewrite <- ?app_assoc;
  first [reflexivity | symmetry; apply app_nil_r].

(** Every path through [close], by cases on the handles that are set and on
    the answers of the driver.  Whatever happens to the capture handle, the
    page is closed if there is one; [close] returns only with every handle
    released; it throws only the rejection of the call it made last, one of
    the three release calls, and logs it; and a rejected capture call
    leaves its line on the console. *)
Lemma run_close_cases o this w s :
  heap (mem w) !! this = Some s ->
  exists res w' new,
    run o (close this) w = (res, w') /\
    calls w' = calls w ++ new /\
    activeSessions (mem w') = activeSessions (mem w) /\
    length (heap (mem w')) = length (heap (mem w)) /\
    (page s <> None -> In PageClose new) /\
    (res = Returned tt -> released (service_at this (mem w'))) /\
    (forall e, res = Thrown e ->
       In (ConsoleError close_failure e) (console (mem w')) /\
       exists c, In c release_calls /\ last new = Some c) /\
    (streamingClient s <> None ->
     first_rejection o (calls w) capture_calls <> None ->
     In (ConsoleLog capture_gone) (console (mem w'))).
Proof.
  intros Hs. pose proof (lookup_lt_heap _ _ _ Hs) as Hlt.
  unfold close, the_streamingClient, clearInterval.
  destruct s as [b c p sc st la sid t lf].
  exec. repeat (branch o; exec).
  all: eexists _, _, _; split; [reflexivity|]; split; [new_calls|].
  all: split; [reduce; reflexivity|].
  all: split; [cbn [mem]; heap_length|].
  all: split; [intros Hp; cbn; first [congruence | intuition auto]|].
  all: split;
    [intros Hr;
     first [discriminate Hr
           | unfold released; cbn [mem]; look; reduce;
             repeat apply conj; reflexivity]|].
  all: split;
    [intros e' He';
     first [discriminate He'
           | injection He' as <-; split;
             [reduce; rewrite ?in_app_iff; simpl; auto 10
             | eexists; split; [|cbn; reflexivity]; simpl; auto]]|].
  all: intros Hsc Hrej; cbn [first_rejection capture_calls] in Hrej;
    repeat match goal with
           | Hq : _ = (_, _) |- _ => rewrite Hq in Hrej; clear Hq
           end;
    cbn [snd] in Hrej;
    first [congruence
          | unfold capture_gone; reduce; rewrite ?in_app_iff; simpl; auto 10].
Qed.

(** Closing a service whose handles are all gone does nothing. *)
Lemma run_close_released o this w s :
  heap (mem w) !! this = Some s -> released s ->
  run o (close this) w = (Returned tt, w).
Proof.
  intros Hs (Hb & Hc & Hp & Hsc & Ht & Hst).
  pose proof (lookup_lt_heap _ _ _ Hs) as Hlt.
  unfold close. exec. rewrite Ht. exec. rewrite Hsc. exec. rewrite Hp. exec.
  rewrite Hc. exec. rewrite Hb. exec.
  rewrite (upd_id this _ (mem w) s Hs).
  - now destruct w.
  - destruct s; simpl in *; now subst.
Qed.

(** [cleanupSession] in terms of the outcome of [close]: the entry goes
    when [close] returns, and stays, with the error logged, when it
    throws.  Either way nothing is thrown. *)
Lemma run_cleanupSession o sessionId w this :
  activeSessions (mem w) !! sessionId = Some this ->
  run o (cleanupSession sessionId) w =
    match run o (close this) w with
    | (Returned _, w1) =>
        (Returned tt,
         {| mem := set_activeSessions (delete sessionId (activeSessions (mem w1)))
                     (mem w1);
            calls := calls w1 |})
    | (Thrown e, w1) =>
        (Returned tt,
         {| mem := set_console
                     (console (mem w1) ++
                      [ConsoleError ("Error cleaning up session " +:+ sessionId +:+ ":") e])
                     (mem w1);
            calls := calls w1 |})
    end.
Proof.
  intros Hreg. unfold cleanupSession.
  rewrite run_bind, run_get. cbn beta iota. rewrite Hreg.
  rewrite run_try_catch, run_bind.
  destruct (run o (close this) w) as [[[]|e] w1]; reflexivity.
Qed.

Lemma run_cleanupSession_absent o sessionId w :
  activeSessions (mem w) !! sessionId = None ->
  run o (cleanupSession sessionId) w = (Returned tt, w).
Proof.
  intros Hreg. unfold cleanupSession.
  rewrite run_bind, run_get. cbn beta iota. now rewrite Hreg.
Qed.

Lemma cleanupSession_never_throws o sessionId w :
  fst (run o (cleanupSession sessionId) w) = Returned tt.
Proof.
  destruct (activeSessions (mem w) !! sessionId) as [this|] eqn:Hreg.
  - rewrite (run_cleanupSession o sessionId w this Hreg).
    destruct (run o (close this) w) as [[[]|e] w1]; reflexivity.
  - now rewrite run_cleanupSession_absent.
Qed.

(** C6 (as stated, refuted): on a streaming session whose driver rejects
    [page.close()], [close] throws to its caller, and neither the context
    nor the browser is closed; [cleanupSession] then keeps the registry
    entry.  A rejected [Page.stopScreencast] is swallowed, but the detach
    is skipped. *)
Lemma C6_counterexample :
  let o := rejecting (fun c => match c with PageClose => true | _ => false end) 0 in
  let o' := rejecting (fun c => match c with CdpSend _ => true | _ => false end) 0 in
  fst (run o (close 0) streaming) = Thrown "rejected" /\
  calls (snd (run o (close 0) streaming)) =
    calls streaming ++ [CdpSend "Page.stopScreencast"; CdpDetach; PageClose] /\
  activeSessions (mem (snd (run o (cleanupSession "s1") streaming))) !! "s1" = Some 0%nat /\
  calls (snd (run o' (close 0) streaming)) =
    calls streaming ++ [CdpSend "Page.stopScreencast"; PageClose; ContextClose; BrowserClose].
Proof. cbv zeta. split; [|split; [|split]]; vm_compute; reflexivity. Qed.

(** The histories of the answers at hand, as one list each. *)
Ltac answers :=
  repeat match goal with
         | Hq : _ = (_, _) |- _ =>
             progress (rewrite <- ?app_assoc in Hq; cbn [app] in Hq)
         end.

(** Settle [attempted] and [first_rejection] in [H] by the answers of the
    driver that the case at hand has fixed. *)
Ltac settle_in H :=
  do 8 (cbn [app attempted first_rejection snd fst] in H;
        rewrite <- ?app_assoc in H; rewrite ?app_nil_r in H; cbn [app] in H;
        repeat match goal with
               | Hq : ?f ?h ?c = (_, _) |- _ =>
                   match type of H with
                   | context [f h c] => rewrite Hq in H
                   end
               end);
  cbn [app attempted first_rejection snd fst] in H.

(** The driver calls of [close] and its outcome, in terms of the answers
    of the driver.  The two capture calls are made if there is a capture
    handle, the second if the first is accepted; whatever their answers,
    the release calls for the handles at hand follow, up to the first that
    is rejected, and that rejection is what [close] throws. *)
Lemma run_close_trace o this w s :
  heap (mem w) !! this = Some s ->
  let cap := match streamingClient s with
             | Some _ => attempted o (calls w) capture_calls
             | None => []
             end in
  exists w',
    run o (close this) w =
      (match first_rejection o (calls w ++ cap) (held s) with
       | Some e => Thrown e
       | None => Returned tt
       end, w') /\
    calls w' = calls w ++ cap ++ attempted o (calls w ++ cap) (held s) /\
    forall e, first_rejection o (calls w ++ cap) (held s) = Some e ->
      In (ConsoleError close_failure e) (console (mem w')).
Proof.
  intros Hs. pose proof (lookup_lt_heap _ _ _ Hs) as Hlt. cbv zeta.
  remember (match streamingClient s with
            | Some _ => attempted o (calls w) capture_calls
            | None => []
            end) as cap eqn:Hcap.
  remember (match first_rejection o (calls w ++ cap) (held s) with
            | Some e => Thrown e
            | None => Returned tt
            end) as res eqn:Hres.
  remember (first_rejection o (calls w ++ cap) (held s)) as rejection eqn:Hrej.
  remember (attempted o (calls w ++ cap) (held s)) as rel eqn:Hrel.
  revert Hcap Hres Hrej Hrel.
  unfold close, the_streamingClient, clearInterval.
  destruct s as [b c p sc st la sid t lf].
  unfold held, capture_calls. cbn [page context browser streamingClient].
  intros Hcap Hres Hrej Hrel.
  exec. repeat (branch o; exec).
  all: answers; settle_in Hcap; subst cap; settle_in Hrej; settle_in Hrel;
    subst rejection rel; cbn beta iota in Hres; subst res.
  all: eexists; split; [reflexivity|]; split; [new_calls|].
  all: intros e' He'; first [discriminate He' | injection He' as <-];
    reduce; rewrite ?in_app_iff; simpl; auto 10.
Qed.

(** C6 (amended): an error of stopping the screencast or detaching the
    capture handle is logged and swallowed inside [close], and the page is
    still closed; an error of closing the page, the context or the browser
    is logged and thrown by [close], and ends the teardown at that call;
    [cleanupSession] swallows whatever [close] throws.  In terms of the
    answers of the driver: the release calls for the handles at hand are
    made after the capture calls whatever the answers to those, up to the
    first that is rejected; [close] throws that rejection, and returns,
    with every handle released, when there is none. *)
Theorem C6_teardown_errors o w this s :
  heap (mem w) !! this = Some s ->
  let cap := match streamingClient s with
             | Some _ => attempted o (calls w) capture_calls
             | None => []
             end in
  let rejection := first_rejection o (calls w ++ cap) (held s) in
  exists w',
    run o (close this) w =
      (match rejection with Some e => Thrown e | None => Returned tt end, w') /\
    calls w' = calls w ++ cap ++ attempted o (calls w ++ cap) (held s) /\
    (streamingClient s <> None ->
     first_rejection o (calls w) capture_calls <> None ->
     In (ConsoleLog capture_gone) (console (mem w'))) /\
    (forall e, rejection = Some e ->
       In (ConsoleError close_failure e) (console (mem w'))) /\
    (rejection = None -> released (service_at this (mem w'))) /\
    forall sessionId, fst (run o (cleanupSession sessionId) w) = Returned tt.
Proof.
  intros Hs. cbv zeta.
  destruct (run_close_trace o this w s Hs) as (w' & Hrun & Hcalls & Hlogged).
  cbv zeta in Hrun, Hcalls, Hlogged.
  destruct (run_close_cases o this w s Hs)
    as (res & w'' & new & Hrun' & _ & _ & _ & _ & Hrel & _ & Hlog).
  rewrite Hrun in Hrun'.
  assert (Hw : w'' = w') by congruence.
  assert (Hres : res = match first_rejection o
                               (calls w ++
                                match streamingClient s with
                                | Some _ => attempted o (calls w) capture_calls
                                | None => []
                                end) (held s)
                       with Some e => Thrown e | None => Returned tt end)
    by congruence.
  clear Hrun'. subst w''.
  exists w'. split; [exact Hrun|]. split; [exact Hcalls|].
  split; [exact Hlog|]. split; [exact Hlogged|].
  split; [|intros sessionId; apply cleanupSession_never_throws].
  intros Hnone. apply Hrel. rewrite Hres, Hnone. reflexivity.
Qed.

Lemma C6_teardown_errors_witness :
  let o := rejecting (fun c => match c with PageClose => true | _ => false end) 0 in
  heap (mem streaming) !! 0%nat = Some (service_at 0 (mem streaming)) /\
  exists w',
    run o (close 0) streaming = (Thrown "rejected", w') /\
    calls w' = calls streaming ++ [CdpSend "Page.stopScreencast"; CdpDetach; PageClose] /\
    In (ConsoleError close_failure "rejected") (console (mem w')).
Proof.
  cbv zeta.
  split; [exact (proj1 streaming_service_live)|].
  destruct (C6_teardown_errors
              (rejecting (fun c => match c with PageClose => true | _ => false end) 0)
              streaming 0 (service_at 0 (mem streaming))
              (proj1 streaming_service_live))
    as (w' & Hrun & Hcalls & _ & Hlogged & _).
  exists w'.
  assert (Hrej : first_rejection
                   (rejecting (fun c => match c with PageClose => true | _ => false end) 0)
                   (calls streaming ++
                    match streamingClient (service_at 0 (mem streaming)) with
                    | Some _ =>
                        attempted
                          (rejecting (fun c => match c with PageClose => true | _ => false end) 0)
                          (calls streaming) capture_calls
                    | None => []
                    end)
                   (held (service_at 0 (mem streaming))) = Some "rejected")
    by (vm_compute; reflexivity).
  split; [rewrite Hrun, Hrej; reflexivity|].
  split; [rewrite Hcalls; vm_compute; reflexivity|].
  exact (Hlogged _ Hrej).
Defined.

(** C7 (as stated, refuted).  When the close and the error event of one
    socket start two teardowns that overlap, the driver receives every
    teardown call twice.  And on a driver that rejects [page.close()], two
    teardowns in a row leave the registry entry in place and issue
    [page.close()] twice. *)
Lemma C7_counterexample :
  let o := rejecting (fun c => match c with PageClose => true | _ => false end) 0 in
  calls (world (sched racing_cleanups idle)) =
    calls streaming ++
      [ CdpSend "Page.stopScreencast"; CdpSend "Page.stopScreencast";
        CdpDetach; CdpDetach; PageClose; PageClose;
        ContextClose; ContextClose; BrowserClose; BrowserClose ] /\
  activeSessions
    (mem (snd (run o (cleanupSession "s1";; cleanupSession "s1") streaming))) !! "s1"
    = Some 0%nat /\
  calls (snd (run o (cleanupSession "s1";; cleanupSession "s1") streaming)) =
    calls streaming ++
      [ CdpSend "Page.stopScreencast"; CdpDetach; PageClose; PageClose ] /\
  fst (run o (close 0) (snd (run o (close 0) streaming))) = Thrown "rejected".
Proof. cbv zeta. split; [|split; [|split]]; vm_compute; reflexivity. Qed.

(** C7 (amended): once a first [close] has returned, a second [close]
    issues no driver call, changes nothing and returns; the
    [cleanupSession] that ran that first [close] has removed the registry
    entry, and a second [cleanupSession] does nothing at all. *)
Theorem C7_second_close_is_idle o o' w this s sessionId :
  heap (mem w) !! this = Some s ->
  activeSessions (mem w) !! sessionId = Some this ->
  fst (run o (close this) w) = Returned tt ->
  let w1 := snd (run o (close this) w) in
  let w2 := snd (run o (cleanupSession sessionId) w) in
  run o' (close this) w1 = (Returned tt, w1) /\
  calls w2 = calls w1 /\
  activeSessions (mem w2) = delete sessionId (activeSessions (mem w)) /\
  run o' (cleanupSession sessionId) w2 = (Returned tt, w2).
Proof.
  intros Hs Hreg Hok w1 w2.
  destruct (run_close_cases o this w s Hs)
    as (res & w' & new & Hrun & Hcalls & Hact & Hlen & _ & Hrel & _).
  assert (Hres : res = Returned tt) by (rewrite Hrun in Hok; exact Hok).
  subst res. specialize (Hrel eq_refl).
  assert (Hw1 : w1 = w') by (unfold w1; now rewrite Hrun).
  assert (Hw2 : w2 = {| mem := set_activeSessions
                                 (delete sessionId (activeSessions (mem w'))) (mem w');
                        calls := calls w' |}).
  { unfold w2. rewrite (run_cleanupSession o sessionId w this Hreg), Hrun. reflexivity. }
  rewrite Hw1, Hw2. cbn [calls mem activeSessions set_activeSessions].
  split; [|split; [reflexivity|split]].
  - apply run_close_released with (s := service_at this (mem w')); [|exact Hrel].
    apply service_at_is_lookup. rewrite Hlen. eapply lookup_lt_Some; eauto.
  - now rewrite Hact.
  - apply run_cleanupSession_absent. cbn [mem activeSessions set_activeSessions].
    apply lookup_delete_eq.
Qed.

Lemma C7_second_close_is_idle_witness :
  heap (mem streaming) !! 0%nat = Some (service_at 0 (mem streaming)) /\
  activeSessions (mem streaming) !! "s1" = Some 0%nat /\
  fst (run obliging (close 0) streaming) = Returned tt /\
  run obliging (close 0) (snd (run obliging (close 0) streaming)) =
    (Returned tt, snd (run obliging (close 0) streaming)) /\
  run obliging (cleanupSession "s1") (snd (run obliging (cleanupSession "s1") streaming)) =
    (Returned tt, snd (run obliging (cleanupSession "s1") streaming)).
Proof.
  assert (Hok : fst (run obliging (close 0) streaming) = Returned tt)
    by (vm_compute; reflexivity).
  split; [exact (proj1 streaming_service_live)|].
  split; [exact (proj2 (proj2 (proj2 (proj2 streaming_is_streaming))))|].
  split; [exact Hok|].
  destruct (C7_second_close_is_idle obliging obliging streaming 0
              (service_at 0 (mem streaming)) "s1"
              (proj1 streaming_service_live)
              (proj2 (proj2 (proj2 (proj2 streaming_is_streaming))))
              Hok) as (Hclose & _ & _ & Hcleanup).
  split; [exact Hclose | exact Hcleanup].
Defined.

(** ** Frames *)

Lemma run_findWebSocketForSession o this w :
  run o (findWebSocketForSession this) w = (Returned (fst <$> socket_of this (mem w)), w).
Proof. reflexivity. Qed.

(** The socket of a service depends on its [sessionId] and on the sockets
    only. *)
Lemma socket_of_ext this m m' :
  sessionId (service_at this m) = sessionId (service_at this m') ->
  clients m = clients m' ->
  socket_of this m = socket_of this m'.
Proof. unfold socket_of. now intros -> ->. Qed.

Lemma socket_of_open this m ws sock :
  socket_of this m = Some (ws, sock) ->
  clients m !! ws = Some sock /\ readyState sock = OPEN.
Proof.
  unfold socket_of. intros H. apply list_find_Some in H as (Hws & [_ Hopen] & _).
  now split.
Qed.

Lemma frames_ext ws m m' : clients m = clients m' -> frames ws m = frames ws m'.
Proof. unfold frames. now intros ->. Qed.

Lemma frames_transmit ws msg m sock :
  clients m !! ws = Some sock -> readyState sock = OPEN -> is_frame msg = true ->
  frames ws (transmit ws msg m) = frames ws m ++ [(clock m, msg)].
Proof.
  intros Hws Hopen Hmsg. unfold frames.
  rewrite (transmit_open ws msg m sock Hws Hopen), Hws.
  cbn [outbox push]. rewrite filter_app. f_equal.
  rewrite filter_cons_True by exact Hmsg. reflexivity.
Qed.

(** An event-driven frame is forwarded as soon as it arrives, and its
    arrival time becomes [lastFrameTimestamp]. *)
Lemma run_onScreencastFrame o this w s ws sock frame :
  heap (mem w) !! this = Some s -> isStreaming s = true ->
  socket_of this (mem w) = Some (ws, sock) ->
  exists w',
    run o (onScreencastFrame this frame) w = (Returned tt, w') /\
    frames ws (mem w') =
      frames ws (mem w) ++
        [(clock (mem w),
          FrameMessage (frame_data frame) (frame_timestamp frame)
            (Some (deviceWidth frame)) (Some (deviceHeight frame)))] /\
    lastFrameTimestamp (service_at this (mem w')) = clock (mem w).
Proof.
  intros Hs Hst Hsock.
  pose proof (lookup_lt_heap _ _ _ Hs) as Hlt.
  destruct (socket_of_open _ _ _ _ Hsock) as [Hws Hopen].
  unfold onScreencastFrame. exec. rewrite Hst. exec.
  rewrite run_findWebSocketForSession. cbn [mem].
  set (m1 := upd this _ (upd this _ (mem w))).
  assert (Hsock1 : socket_of this m1 = Some (ws, sock)).
  { rewrite <- Hsock. apply socket_of_ext; unfold m1; look; reduce; reflexivity. }
  rewrite Hsock1. cbn [fmap option_fmap option_map fst].
  unfold ws_send. exec.
  assert (Hfr : frames ws (transmit ws
                  (FrameMessage (frame_data frame) (frame_timestamp frame)
                     (Some (deviceWidth frame)) (Some (deviceHeight frame))) m1)
                = frames ws (mem w) ++
                  [(clock (mem w),
                    FrameMessage (frame_data frame) (frame_timestamp frame)
                      (Some (deviceWidth frame)) (Some (deviceHeight frame)))]).
  { rewrite (frames_transmit ws _ m1 sock); [|exact Hws|exact Hopen|reflexivity].
    reflexivity. }
  assert (Hlast : lastFrameTimestamp (service_at this
                    (transmit ws
                       (FrameMessage (frame_data frame) (frame_timestamp frame)
                          (Some (deviceWidth frame)) (Some (deviceHeight frame))) m1))
                  = clock (mem w)).
  { rewrite service_at_transmit. unfold m1. look. reduce. reflexivity. }
  assert (Hcase : isStreaming (service_at this m1) = true).
  { unfold m1. look. reduce. exact Hst. }
  unfold m1 in *. clear m1.
  match goal with
  | |- context [bool_decide ?P] => destruct (bool_decide P)
  end; exec.
  - rewrite Hst. exec.
    destruct (o (calls w) (CdpSend "Page.screencastFrameAck")) as [dt [e|d]];
      exec; eexists; (split; [reflexivity|]); cbn [mem];
      (split; [erewrite frames_ext; [exact Hfr|reflexivity]
              | exact Hlast]).
  - rewrite Hst. exec.
    eexists; (split; [reflexivity|]); cbn [mem]; split; [exact Hfr | exact Hlast].
Qed.

(** A tick that comes less than [FRAME_INTERVAL] after the last recorded
    frame does nothing at all. *)
Lemma run_periodicFrame_suppressed o this w s :
  heap (mem w) !! this = Some s ->
  lastFrameTimestamp s <> 0%Z ->
  (clock (mem w) - lastFrameTimestamp s < FRAME_INTERVAL)%Z ->
  run o (periodicFrame this) w = (Returned tt, w).
Proof.
  intros Hs Hlast Hrecent. unfold periodicFrame. exec.
  destruct (negb (isStreaming s) || bool_decide (page s = None)
            || bool_decide (streamingClient s = None)); [reflexivity|].
  exec.
  destruct (Z.eqb_spec (lastFrameTimestamp s) 0) as [E|_]; [contradiction|].
  destruct (Z.leb_spec FRAME_INTERVAL (clock (mem w) - lastFrameTimestamp s)) as [E|_];
    [lia|].
  reflexivity.
Qed.

(** A tick with no frame recorded during the last [FRAME_INTERVAL]
    captures the page and forwards the image, stamped with the time of the
    tick, which becomes [lastFrameTimestamp]. *)
Lemma run_periodicFrame_fires o this w s pg ws sock elapsed data :
  heap (mem w) !! this = Some s ->
  isStreaming s = true -> page s = Some pg -> streamingClient s <> None ->
  socket_of this (mem w) = Some (ws, sock) ->
  lastFrameTimestamp s = 0%Z \/
    (FRAME_INTERVAL <= clock (mem w) - lastFrameTimestamp s)%Z ->
  o (calls w) (CdpSend "Page.captureScreenshot") = (elapsed, Resolved data) ->
  exists w',
    run o (periodicFrame this) w = (Returned tt, w') /\
    frames ws (mem w') =
      frames ws (mem w) ++
        [((clock (mem w) + Z.of_N elapsed)%Z,
          FrameMessage data (inject_Z (clock (mem w)))
            (inject_Z ∘ width <$> viewportSize pg)
            (inject_Z ∘ height <$> viewportSize pg))] /\
    lastFrameTimestamp (service_at this (mem w')) = clock (mem w).
Proof.
  intros Hs Hst Hpg Hsc Hsock Hdue Hcap.
  pose proof (lookup_lt_heap _ _ _ Hs) as Hlt.
  destruct (socket_of_open _ _ _ _ Hsock) as [Hws Hopen].
  unfold periodicFrame. exec. rewrite Hst, Hpg.
  destruct (streamingClient s) as [cl|] eqn:Hcl; [|congruence].
  rewrite !bool_decide_eq_false_2 by discriminate. exec.
  assert (Hcond : (lastFrameTimestamp s =? 0)%Z
                  || (FRAME_INTERVAL <=? clock (mem w) - lastFrameTimestamp s)%Z = true).
  { destruct Hdue as [->|Hge]; [reflexivity|].
    apply orb_true_iff. right. now apply Z.leb_le. }
  rewrite Hcond. exec. rewrite Hcap. exec.
  rewrite run_findWebSocketForSession. cbn [mem].
  set (m1 := set_clock _ (mem w)).
  assert (Hsock1 : socket_of this m1 = Some (ws, sock)).
  { rewrite <- Hsock. apply socket_of_ext; reflexivity. }
  rewrite Hsock1. cbn [fmap option_fmap option_map fst].
  unfold the_page, ws_send. exec.
  assert (Hs1 : service_at this m1 = s) by (unfold m1; look; reflexivity).
  rewrite Hs1, Hpg. exec.
  eexists. split; [reflexivity|]. cbn [mem]. split.
  - erewrite frames_ext; [|apply clients_upd].
    rewrite (frames_transmit ws _ m1 sock); [reflexivity|exact Hws|exact Hopen|reflexivity].
  - look. reduce. reflexivity.
Qed.

(** C5 (as stated, refuted).  With page changes at 500 ms and 2400 ms and
    ticks every 1000 ms, frames are forwarded at 500, 2000, 2400 and
    4000 ms: the interval [2500, 3500), the third of length
    [FRAME_INTERVAL] counted from the first forwarded frame, has none.  And
    when a page change arrives while the capture of a tick is pending, the
    heartbeat is forwarded right after the event-driven frame, in the same
    interval. *)
Lemma C5_counterexample :
  frame_times 0 (mem (world (sched quiet_second idle))) = [500; 2000; 2400; 4000]%Z /\
  (forall t, In t (frame_times 0 (mem (world (sched quiet_second idle)))) ->
             ~ (500 + 2 * FRAME_INTERVAL <= t < 500 + 3 * FRAME_INTERVAL)%Z) /\
  frames 0 (mem (world (sched overtaken_tick idle))) =
    [ (500%Z, FrameMessage "f1" 0 (Some 1280%Q) (Some 720%Q));
      (2001%Z, FrameMessage "f2" 0 (Some 1280%Q) (Some 720%Q));
      (2002%Z, FrameMessage "shot" 2000 (Some 1280%Q) (Some 720%Q)) ].
Proof.
  assert (H : frame_times 0 (mem (world (sched quiet_second idle)))
              = [500; 2000; 2400; 4000]%Z) by (vm_compute; reflexivity).
  split; [exact H|]. split.
  - rewrite H. unfold FRAME_INTERVAL. simpl. intros t Ht. lia.
  - vm_compute. reflexivity.
Qed.

(** C5 (amended): on a streaming session with an open connection, an
    event-driven frame is forwarded as soon as it arrives and its arrival
    time becomes [lastFrameTimestamp]; a heartbeat tick at time [t] forwards
    nothing when [lastFrameTimestamp] is set and less than [FRAME_INTERVAL]
    before [t], and otherwise, when the capture succeeds, forwards one
    frame stamped [t] and sets [lastFrameTimestamp] to [t]. *)
Theorem C5_heartbeat_policy o this w s pg ws sock :
  heap (mem w) !! this = Some s ->
  isStreaming s = true -> page s = Some pg -> streamingClient s <> None ->
  socket_of this (mem w) = Some (ws, sock) ->
  (forall frame, exists w',
     run o (onScreencastFrame this frame) w = (Returned tt, w') /\
     frames ws (mem w') =
       frames ws (mem w) ++
         [(clock (mem w),
           FrameMessage (frame_data frame) (frame_timestamp frame)
             (Some (deviceWidth frame)) (Some (deviceHeight frame)))] /\
     lastFrameTimestamp (service_at this (mem w')) = clock (mem w)) /\
  (lastFrameTimestamp s <> 0%Z ->
   (clock (mem w) - lastFrameTimestamp s < FRAME_INTERVAL)%Z ->
   run o (periodicFrame this) w = (Returned tt, w)) /\
  (lastFrameTimestamp s = 0%Z \/
     (FRAME_INTERVAL <= clock (mem w) - lastFrameTimestamp s)%Z ->
   forall elapsed data,
     o (calls w) (CdpSend "Page.captureScreenshot") = (elapsed, Resolved data) ->
     exists w',
       run o (periodicFrame this) w = (Returned tt, w') /\
       frames ws (mem w') =
         frames ws (mem w) ++
           [((clock (mem w) + Z.of_N elapsed)%Z,
             FrameMessage data (inject_Z (clock (mem w)))
               (inject_Z ∘ width <$> viewportSize pg)
               (inject_Z ∘ height <$> viewportSize pg))] /\
       lastFrameTimestamp (service_at this (mem w')) = clock (mem w)).
Proof.
  intros Hs Hst Hpg Hsc Hsock. split; [|split].
  - intros frame. now apply (run_onScreencastFrame o this w s ws sock).
  - now apply run_periodicFrame_suppressed.
  - intros Hdue elapsed data Hcap.
    now apply (run_periodicFrame_fires o this w s pg ws sock elapsed data).
Qed.

Lemma C5_heartbeat_policy_witness :
  heap (mem streaming) !! 0%nat = Some (service_at 0 (mem streaming)) /\
  isStreaming (service_at 0 (mem streaming)) = true /\
  exists w',
    run obliging (periodicFrame 0) streaming = (Returned tt, w') /\
    lastFrameTimestamp (service_at 0 (mem w')) = clock (mem streaming).
Proof.
  split; [exact (proj1 streaming_service_live)|].
  split; [exact (proj1 streaming_is_streaming)|].
  destruct (socket_of 0 (mem streaming)) as [[ws sock]|] eqn:Hsock;
    [|vm_compute in Hsock; discriminate Hsock].
  destruct (C5_heartbeat_policy obliging 0 streaming (service_at 0 (mem streaming))
              {| viewportSize := Some default_viewport |} ws sock
              (proj1 streaming_service_live)
              (proj1 streaming_is_streaming)
              (proj1 (proj2 streaming_is_streaming))
              (proj1 (proj2 (proj2 streaming_is_streaming)))
              Hsock) as (_ & _ & Hfire).
  destruct (Hfire (or_introl (proj1 (proj2 (proj2 (proj2 streaming_is_streaming)))))
              0%N "ok" eq_refl) as (w' & Hrun & _ & Hlast).
  exists w'. split; [exact Hrun | exact Hlast].
Defined.

(** * Further properties *)

(** ** Guarded handlers *)

Lemma guarded_bind {A B} (p : Prog A) (f : A -> Prog B) :
  guarded p -> (forall a, guarded (f a)) -> guarded (p ≫= f).
Proof.
  intros Hp Hf. unfold mbind, Prog_bind.
  induction p as [a|e|k IH|m k IH|c k IH]; cbn in *; auto; contradiction.
Qed.

Lemma guarded_try_catch {A} (p : Prog A) h :
  (forall e, guarded (h e)) -> guarded (try_catch p h).
Proof. intros Hh. induction p as [a|e|k IH|m k IH|c k IH]; cbn; auto. Qed.

(** A guarded handler returns, whatever the driver answers. *)
Lemma guarded_run {A} o (p : Prog A) w :
  guarded p -> exists a, fst (run o p w) = Returned a.
Proof.
  revert w. induction p as [a|e|k IH|m k IH|c k IH]; intros w Hp; cbn in *.
  - now exists a.
  - contradiction.
  - now apply IH.
  - now apply IH.
  - destruct (settle o c w) as [r w']. now apply IH.
Qed.

Lemma guarded_advance {A} (p : Prog A) m : guarded p -> guarded (fst (advance p m)).
Proof.
  revert m. induction p as [a|e|k IH|m' k IH|c k IH]; intros m Hp; cbn in *; auto.
Qed.

Lemma guarded_park p w : guarded p -> guarded (fst (park p w)).
Proof.
  intros Hp. unfold park. pose proof (guarded_advance p (mem w) Hp) as H.
  destruct (advance p (mem w)) as [p' m']. exact H.
Qed.

Lemma guarded_step s st :
  Forall guarded (tasks s) ->
  match st with Spawn handler => guarded handler | _ => True end ->
  Forall guarded (tasks (step s st)).
Proof.
  intros Hs Hst. destruct st as [elapsed|handler|task r]; cbn.
  - exact Hs.
  - pose proof (guarded_park handler (world s) Hst) as H.
    destruct (park handler (world s)) as [p w]. cbn.
    apply Forall_app. split; [exact Hs|]. now constructor.
  - destruct (tasks s !! task) as [[a|e|k|m k|c k]|] eqn:E; try exact Hs.
    assert (Hk : guarded (k r)).
    { rewrite Forall_lookup in Hs. exact (Hs _ _ E r). }
    pose proof (guarded_park (k r) (world s) Hk) as H.
    destruct (park (k r) (world s)) as [p w]. cbn.
    now apply Forall_insert.
Qed.

(** Under the event loop, guarded handlers stay guarded: none of them ever
    ends in an error. *)
Lemma guarded_sched steps s :
  Forall guarded (tasks s) -> Forall guarded (spawned steps) ->
  Forall guarded (tasks (sched steps s)).
Proof.
  revert s. induction steps as [|st steps IH]; intros s Hs Hsteps; [exact Hs|].
  cbn [sched fold_left]. apply IH.
  - apply guarded_step; [exact Hs|].
    destruct st; try exact I. cbn in Hsteps. now inversion Hsteps.
  - destruct st; cbn in Hsteps; try exact Hsteps. now inversion Hsteps.
Qed.

(** Decompose a handler along its text; what is left are the statements
    that can throw outside every [try]. *)
Ltac guarded :=
  repeat first
    [ exact I
    | apply guarded_try_catch; intros ?
    | apply guarded_bind; [|intros ?]
    | match goal with
      | |- guarded (match ?x with _ => _ end) => destruct x
      end
    | progress (cbn [guarded modify assign chat ws_send console_error console_log
                     self Date_now findWebSocketForSession]; intros) ].

(** ** Properties of the memory that handlers keep *)

Lemma keeps_ret {A} P (a : A) : keeps P (Ret a).
Proof. exact I. Qed.

Lemma keeps_throw {A} P e : keeps P (@Throw A e).
Proof. exact I. Qed.

Lemma keeps_bind {A B} P (p : Prog A) (f : A -> Prog B) :
  keeps P p -> (forall a, keeps P (f a)) -> keeps P (p ≫= f).
Proof.
  intros Hp Hf. unfold mbind, Prog_bind.
  induction p as [a|e|k IH|m k IH|c k IH]; cbn in *; auto.
  destruct Hp as [Hm Hk]. split; auto.
Qed.

Lemma keeps_try_catch {A} P (p : Prog A) h :
  keeps P p -> (forall e, keeps P (h e)) -> keeps P (try_catch p h).
Proof.
  intros Hp Hh.
  induction p as [a|e|k IH|m k IH|c k IH]; cbn in *; auto.
  destruct Hp as [Hm Hk]. split; auto.
Qed.

(** What a handler reads from the memory satisfies the property kept. *)
Lemma keeps_read {A B} P (g : Mem -> A) (f : A -> Prog B) :
  (forall m, P m -> keeps P (f (g m))) ->
  keeps P (Get (fun m => Ret (g m)) ≫= f).
Proof. intros Hk m Hm. exact (Hk m Hm). Qed.

Lemma keeps_pure_read {A} P (g : Mem -> A) : keeps P (Get (fun m => Ret (g m))).
Proof. intros m Hm. exact I. Qed.

Lemma keeps_modify P f : (forall m, P m -> P (f m)) -> keeps P (modify f).
Proof. intros Hf m Hm. split; [now apply Hf | exact I]. Qed.

Lemma keeps_call P c : keeps P (call c).
Proof. intros [e|d]; exact I. Qed.

Lemma keeps_assign P this f :
  (forall m, P m -> P (upd this f m)) -> keeps P (assign this f).
Proof. apply keeps_modify. Qed.

Lemma keeps_chat P ws text :
  (forall msg m, P m -> P (transmit ws msg m)) -> keeps P (chat ws text).
Proof. intros H m Hm m' Hm'. split; [now apply H | exact I]. Qed.

Lemma keeps_console_error P text e :
  (forall c m, P m -> P (set_console c m)) -> keeps P (console_error text e).
Proof. intros H. apply keeps_modify. intros m. apply H. Qed.

Lemma keeps_console_log P text :
  (forall c m, P m -> P (set_console c m)) -> keeps P (console_log text).
Proof. intros H. apply keeps_modify. intros m. apply H. Qed.

Lemma keeps_setInterval P owner :
  (forall c m, P m -> P (set_timers c m)) -> keeps P (setInterval owner).
Proof. intros H m Hm. split; [now apply H | exact I]. Qed.

Lemma keeps_clearInterval P t :
  (forall c m, P m -> P (set_timers c m)) -> keeps P (clearInterval t).
Proof. intros H. apply keeps_modify. intros m. apply H. Qed.

(** A property that a handler keeps holds when the handler has run. *)
Lemma keeps_run {A} P o (p : Prog A) w :
  timeless P -> keeps P p -> P (mem w) -> P (mem (snd (run o p w))).
Proof.
  intros Ht. revert w. induction p as [a|e|k IH|m k IH|c k IH]; intros w Hp Hw; cbn in *.
  - exact Hw.
  - exact Hw.
  - now apply IH; [apply Hp|].
  - destruct Hp as [Hm Hk]. now apply IH.
  - unfold settle. destruct (o (calls w) c) as [dt r]. apply IH; [apply Hp|].
    cbn. now apply Ht.
Qed.

Lemma keeps_advance {A} P (p : Prog A) m :
  keeps P p -> P m -> keeps P (fst (advance p m)) /\ P (snd (advance p m)).
Proof.
  revert m. induction p as [a|e|k IH|m' k IH|c k IH]; intros m Hp Hm; cbn in *; auto.
  destruct Hp as [Hm' Hk]. now apply IH.
Qed.

Lemma keeps_park P p w :
  keeps P p -> P (mem w) -> keeps P (fst (park p w)) /\ P (mem (snd (park p w))).
Proof.
  intros Hp Hw. unfold park. pose proof (keeps_advance P p (mem w) Hp Hw) as H.
  destruct (advance p (mem w)) as [p' m']. exact H.
Qed.

Lemma keeps_step P s st :
  timeless P ->
  P (mem (world s)) -> Forall (keeps P) (tasks s) ->
  match st with Spawn handler => keeps P handler | _ => True end ->
  P (mem (world (step s st))) /\ Forall (keeps P) (tasks (step s st)).
Proof.
  intros Ht Hw Hs Hst. destruct st as [elapsed|handler|task r]; cbn.
  - split; [now apply Ht | exact Hs].
  - pose proof (keeps_park P handler (world s) Hst Hw) as [H1 H2].
    destruct (park handler (world s)) as [p w]. cbn in *.
    split; [exact H2|]. apply Forall_app. split; [exact Hs|]. now constructor.
  - destruct (tasks s !! task) as [[a|e|k|m k|c k]|] eqn:E; try (split; [exact Hw | exact Hs]).
    assert (Hk : keeps P (k r)).
    { rewrite Forall_lookup in Hs. exact (Hs _ _ E r). }
    pose proof (keeps_park P (k r) (world s) Hk Hw) as [H1 H2].
    destruct (park (k r) (world s)) as [p w]. cbn in *.
    split; [exact H2|]. now apply Forall_insert.
Qed.

(** A property that all handlers keep holds under the event loop, however
    they are interleaved and however their promises settle. *)
Lemma keeps_sched P steps s :
  timeless P ->
  P (mem (world s)) -> Forall (keeps P) (tasks s) -> Forall (keeps P) (spawned steps) ->
  P (mem (world (sched steps s))).
Proof.
  intros Ht. revert s. induction steps as [|st steps IH]; intros s Hw Hs Hsteps; [exact Hw|].
  cbn [sched fold_left].
  assert (Hst : match st with Spawn handler => keeps P handler | _ => True end).
  { destruct st; try exact I. cbn in Hsteps. now inversion Hsteps. }
  destruct (keeps_step P s st Ht Hw Hs Hst) as [Hw' Hs'].
  apply IH; [exact Hw' | exact Hs' |].
  destruct st; cbn in Hsteps; try exact Hsteps. now inversion Hsteps.
Qed.

(** Decompose the claim that a handler keeps [P] along the text of the
    handler, down to its accesses to the memory. *)
Ltac keeps :=
  repeat match goal with
         | |- keeps _ (Ret _) => apply keeps_ret
         | |- keeps _ (Throw _) => apply keeps_throw
         | |- keeps _ (call _) => apply keeps_call
         | |- keeps _ (try_catch _ _) => apply keeps_try_catch; [|intros ?]
         | |- keeps _ (self _ ≫= _) => apply keeps_read; intros ? ?
         | |- keeps _ (Date_now ≫= _) => apply keeps_read; intros ? ?
         | |- keeps _ (Get Ret ≫= _) => apply keeps_read; intros ? ?
         | |- keeps _ (findWebSocketForSession _ ≫= _) => apply keeps_read; intros ? ?
         | |- keeps _ (_ ≫= _) => apply keeps_bind; [|intros ?]
         | |- keeps _ (match ?x with _ => _ end) => destruct x
         | |- keeps _ (let '(_, _) := ?x in _) => destruct x
         end.

(** The components of the memory other than the heap do not bear on the
    size of the heap. *)
Lemma length_heap_set_clock t m : length (heap (set_clock t m)) = length (heap m).
Proof. reflexivity. Qed.

Lemma length_heap_set_console c m : length (heap (set_console c m)) = length (heap m).
Proof. reflexivity. Qed.

Lemma length_heap_set_timers c m : length (heap (set_timers c m)) = length (heap m).
Proof. reflexivity. Qed.

Lemma length_heap_set_activeSessions c m :
  length (heap (set_activeSessions c m)) = length (heap m).
Proof. reflexivity. Qed.

Lemma length_heap_set_clients c m : length (heap (set_clients c m)) = length (heap m).
Proof. reflexivity. Qed.

#[local] Hint Rewrite length_heap_set_clock length_heap_set_console
  length_heap_set_timers length_heap_set_activeSessions length_heap_set_clients
  : heap_length.

(** ** What stays as it is *)

(** An assignment to a field of [this]: the object at [this] changes if
    there is one, no other object does. *)
Lemma service_at_upd_cases this f m :
  service_at this (upd this f m) = f (service_at this m) \/
  (service_at this (upd this f m) = new_Service /\ service_at this m = new_Service).
Proof.
  destruct (decide (this < length (heap m))%nat) as [Hlt|Hge].
  - left. now apply service_at_upd.
  - right. unfold service_at, upd. cbn [heap set_heap].
    rewrite list_insert_ge by lia. rewrite lookup_ge_None_2 by lia. now split.
Qed.

Lemma heap_upd_ne this other f m :
  this <> other -> heap (upd this f m) !! other = heap m !! other.
Proof. intros Hne. unfold upd. cbn [heap set_heap]. now apply list_lookup_insert_ne. Qed.

Lemma service_at_upd_ne this other f m :
  this <> other -> service_at other (upd this f m) = service_at other m.
Proof. intros Hne. unfold service_at. now rewrite heap_upd_ne. Qed.

Lemma clients_transmit_ne ws j msg m :
  ws <> j -> clients (transmit ws msg m) !! j = clients m !! j.
Proof.
  intros Hne. destruct (transmit_cases ws msg m) as [->|[sock ->]]; [reflexivity|].
  cbn [clients set_clients]. now apply list_lookup_insert_ne.
Qed.

Lemma timers_transmit ws msg m : timers (transmit ws msg m) = timers m.
Proof. destruct (transmit_cases ws msg m) as [->|[sock ->]]; reflexivity. Qed.

(** One goal for each member of a list of handlers. *)
Ltac each :=
  repeat match goal with
         | |- Forall _ (_ :: _) => apply List.Forall_cons
         | |- Forall _ [] => apply List.Forall_nil
         end.

(** The leaves of [keeps] for a property that only the stated accesses can
    break. *)
Ltac keeps_leaf Hconsole Htimers Hupd Hsend :=
  first [ apply keeps_console_log, Hconsole
        | apply keeps_console_error, Hconsole
        | apply keeps_clearInterval, Htimers
        | apply keeps_setInterval, Htimers
        | apply keeps_assign, Hupd
        | apply keeps_chat, Hsend
        | apply keeps_modify; intros ?; apply Hsend ].

(** [close] switches the stream off first, and nothing in it switches it on
    again. *)
Lemma close_stops_streaming o this w :
  isStreaming (service_at this (mem (snd (run o (close this) w)))) = false.
Proof.
  set (P := fun m => isStreaming (service_at this m) = false).
  assert (Hupd : forall f, (forall s, isStreaming (f s) = isStreaming s) ->
                           forall m, P m -> P (upd this f m)).
  { intros f Hf m Hm. unfold P in *.
    destruct (service_at_upd_cases this f m) as [->|[-> _]]; [|reflexivity].
    now rewrite Hf. }
  assert (Hclock : timeless P) by (intros t m Hm; exact Hm).
  assert (Hconsole : forall c m, P m -> P (set_console c m)) by (intros c m Hm; exact Hm).
  assert (Htimers : forall c m, P m -> P (set_timers c m)) by (intros c m Hm; exact Hm).
  change (P (mem (snd (run o (close this) w)))).
  unfold close. rewrite run_try_catch, run_bind, run_assign.
  match goal with
  | |- context [run o ?rest ?w1] =>
      assert (Hrest : keeps P rest);
      [|assert (H1 : P (mem w1));
        [|pose proof (keeps_run P o rest w1 Hclock Hrest H1) as H2;
          destruct (run o rest w1) as [[[]|e] w2]]]
  end.
  - unfold the_streamingClient.
    keeps;
      first [ apply keeps_console_log, Hconsole
            | apply keeps_clearInterval, Htimers
            | apply keeps_assign, Hupd; reflexivity ].
  - cbn [mem]. unfold P.
    destruct (service_at_upd_cases this (set_isStreaming false) (mem w)) as [->|[-> _]];
      reflexivity.
  - exact H2.
  - exact H2.
Qed.

(** X5: once [close] has settled, either way, the two frame callbacks do
    nothing: no frame is sent, no driver call is made, no field changes. *)
Theorem X5_no_frames_after_close o o' this w frame :
  let w' := snd (run o (close this) w) in
  run o' (onScreencastFrame this frame) w' = (Returned tt, w') /\
  run o' (periodicFrame this) w' = (Returned tt, w').
Proof.
  intros w'. pose proof (close_stops_streaming o this w) as H. fold w' in H.
  split.
  - unfold onScreencastFrame. rewrite run_bind, run_self. now rewrite H.
  - unfold periodicFrame. rewrite run_bind, run_self. now rewrite H.
Qed.

(** The footprint of the methods of a service: its own fields, the timers
    and the console.  Only [initialize] assigns the [sessionId]. *)
Section Footprint.

Variables (this : nat) (P : Mem -> Prop).
Hypothesis P_console : forall c m, P m -> P (set_console c m).
Hypothesis P_timers : forall c m, P m -> P (set_timers c m).
Hypothesis P_fields :
  forall f, (forall s, sessionId (f s) = sessionId s) -> forall m, P m -> P (upd this f m).

Ltac footprint :=
  keeps;
  first [ apply keeps_console_log, P_console
        | apply keeps_console_error, P_console
        | apply keeps_clearInterval, P_timers
        | apply keeps_setInterval, P_timers
        | apply keeps_assign, P_fields; reflexivity ].

Lemma keeps_initialize sessionId :
  (forall m, P m -> P (upd this (set_sessionId sessionId) m)) ->
  keeps P (initialize this sessionId).
Proof.
  intros P_session.
  unfold initialize, setupScreencast, startPeriodicFrames, the_page, the_streamingClient.
  keeps;
  first [ apply keeps_assign, P_session
        | apply keeps_console_log, P_console
        | apply keeps_console_error, P_console
        | apply keeps_clearInterval, P_timers
        | apply keeps_setInterval, P_timers
        | apply keeps_assign, P_fields; reflexivity ].
Qed.

Lemma keeps_navigate url : keeps P (navigate this url).
Proof. unfold navigate. footprint. Qed.

Lemma keeps_pointer x y failure act :
  (forall ax ay, keeps P (act ax ay)) -> keeps P (pointer this x y failure act).
Proof.
  intros Hact. unfold pointer.
  keeps;
    first [ apply Hact
          | apply keeps_console_error, P_console
          | apply keeps_assign, P_fields; reflexivity ].
Qed.

Lemma keeps_click x y : keeps P (click this x y).
Proof. apply keeps_pointer. intros ax ay. footprint. Qed.

Lemma keeps_mouseDown x y : keeps P (mouseDown this x y).
Proof. apply keeps_pointer. intros ax ay. unfold the_page. footprint. Qed.

Lemma keeps_mouseUp x y : keeps P (mouseUp this x y).
Proof. apply keeps_pointer. intros ax ay. unfold the_page. footprint. Qed.

Lemma keeps_mouseMove x y : keeps P (mouseMove this x y).
Proof. apply keeps_pointer. intros ax ay. footprint. Qed.

Lemma keeps_pressKey key : keeps P (pressKey this key).
Proof. unfold pressKey. footprint. Qed.

Lemma keeps_takeScreenshot : keeps P (takeScreenshot this).
Proof. unfold takeScreenshot. footprint. Qed.

Lemma keeps_close : keeps P (close this).
Proof. unfold close, the_streamingClient. footprint. Qed.

End Footprint.

Lemma elsewhere_refl this m : elsewhere this m m.
Proof. repeat split. Qed.

Lemma elsewhere_clock this m0 : timeless (elsewhere this m0).
Proof. intros t m H. exact H. Qed.

Lemma elsewhere_console this m0 c m : elsewhere this m0 m -> elsewhere this m0 (set_console c m).
Proof. intros H. exact H. Qed.

Lemma elsewhere_timers this m0 c m : elsewhere this m0 m -> elsewhere this m0 (set_timers c m).
Proof. intros H. exact H. Qed.

Lemma elsewhere_fields this m0 f m : elsewhere this m0 m -> elsewhere this m0 (upd this f m).
Proof.
  intros (H1 & H2 & H3 & H4). repeat split; auto.
  - now rewrite length_heap_upd.
  - intros other Hne. rewrite heap_upd_ne by congruence. now apply H4.
Qed.

(** What a method of the service at [this] leaves alone, once it has run. *)
Ltac elsewhere_run lemma :=
  apply keeps_run;
  [ apply elsewhere_clock
  | apply lemma;
    first [ apply elsewhere_console | apply elsewhere_timers
          | intros ? ?; apply elsewhere_fields; assumption ]
  | apply elsewhere_refl ].

(** X9: the methods of a service leave the session registry, the sockets and
    every other service object as they are. *)
Theorem X9_service_footprint o w this sessionId url x y key :
  Forall (fun p : Prog unit => elsewhere this (mem w) (mem (snd (run o p w))))
    [ initialize this sessionId; navigate this url; click this x y;
      mouseDown this x y; mouseUp this x y; mouseMove this x y;
      pressKey this key; close this ] /\
  elsewhere this (mem w) (mem (snd (run o (takeScreenshot this) w))).
Proof.
  split; [each|].
  - elsewhere_run keeps_initialize.
  - elsewhere_run keeps_navigate.
  - elsewhere_run keeps_click.
  - elsewhere_run keeps_mouseDown.
  - elsewhere_run keeps_mouseUp.
  - elsewhere_run keeps_mouseMove.
  - elsewhere_run keeps_pressKey.
  - elsewhere_run keeps_close.
  - elsewhere_run keeps_takeScreenshot.
Qed.

(** The socket found for a session carries its id. *)
Lemma socket_of_session this m ws sock :
  socket_of this m = Some (ws, sock) ->
  ws_sessionId sock = sessionId (service_at this m).
Proof.
  unfold socket_of. intros H. apply list_find_Some in H as (_ & [H _] & _). exact H.
Qed.

(** The footprint of the two frame callbacks of a service: its own
    timestamps, the console, and the socket found for its session. *)
Section Callbacks.

Variables (this : nat) (P : Mem -> Prop).
Hypothesis P_console : forall c m, P m -> P (set_console c m).
Hypothesis P_fields :
  forall f, (forall s, sessionId (f s) = sessionId s) -> forall m, P m -> P (upd this f m).
Hypothesis P_found :
  forall m ws sock, P m -> socket_of this m = Some (ws, sock) ->
  forall msg m', P m' -> P (transmit ws msg m').

Lemma keeps_onScreencastFrame frame : keeps P (onScreencastFrame this frame).
Proof.
  unfold onScreencastFrame.
  apply keeps_read; intros m0 _. destruct (negb _); [apply keeps_ret|].
  apply keeps_read; intros m1 _.
  apply keeps_bind; [apply keeps_assign, P_fields; reflexivity|intros _].
  apply keeps_bind; [apply keeps_assign, P_fields; reflexivity|intros _].
  apply keeps_try_catch; [|intros e; apply keeps_console_error, P_console].
  apply keeps_read; intros m Hm.
  destruct (socket_of this m) as [[i sk]|] eqn:Hs; cbn [fmap option_fmap option_map fst];
    [|apply keeps_ret].
  apply keeps_bind; [apply keeps_modify; intros m'; now apply (P_found m i sk)|intros _].
  keeps. apply keeps_console_log, P_console.
Qed.

Lemma keeps_periodicFrame : keeps P (periodicFrame this).
Proof.
  unfold periodicFrame, the_page.
  apply keeps_read; intros m0 _. destruct (_ || _); [apply keeps_ret|].
  apply keeps_read; intros m1 _. destruct (_ || _); [|apply keeps_ret].
  apply keeps_try_catch; [|intros e; apply keeps_console_error, P_console].
  apply keeps_bind; [apply keeps_call|intros result].
  apply keeps_read; intros m Hm.
  destruct (socket_of this m) as [[i sk]|] eqn:Hs; cbn [fmap option_fmap option_map fst];
    [|apply keeps_ret].
  apply keeps_bind; [keeps|intros pg].
  apply keeps_bind; [|intros _; apply keeps_assign, P_fields; reflexivity].
  apply keeps_modify; intros m'; now apply (P_found m i sk).
Qed.

End Callbacks.

(** X8: a frame, pushed or captured, goes to no socket of another session. *)
Theorem X8_frames_stay_in_session o w this frame j sock :
  clients (mem w) !! j = Some sock ->
  ws_sessionId sock <> sessionId (service_at this (mem w)) ->
  clients (mem (snd (run o (onScreencastFrame this frame) w))) !! j = Some sock /\
  clients (mem (snd (run o (periodicFrame this) w))) !! j = Some sock.
Proof.
  intros Hj Hid.
  set (P := fun m => sessionId (service_at this m) = sessionId (service_at this (mem w)) /\
                     clients m !! j = Some sock).
  assert (H0 : P (mem w)) by (split; [reflexivity | exact Hj]).
  assert (Hclock : timeless P) by (intros t m H; exact H).
  assert (Hconsole : forall c m, P m -> P (set_console c m)) by (intros c m H; exact H).
  assert (Hupd : forall f, (forall s, sessionId (f s) = sessionId s) ->
                           forall m, P m -> P (upd this f m)).
  { intros f Hf m [H1 H2]. split; [|exact H2].
    destruct (service_at_upd_cases this f m) as [->|[-> E]]; [now rewrite Hf | now rewrite <- E]. }
  assert (Hfound : forall m ws sk, P m -> socket_of this m = Some (ws, sk) ->
                   forall msg m', P m' -> P (transmit ws msg m')).
  { intros m i sk [H1 H2] Hs msg m' [H1' H2'].
    pose proof (socket_of_session _ _ _ _ Hs) as Hsk.
    pose proof (socket_of_open _ _ _ _ Hs) as [Hi _].
    assert (Hne : i <> j) by (intros ->; rewrite Hi in H2; congruence).
    split; [now rewrite service_at_transmit | now rewrite clients_transmit_ne]. }
  split.
  - exact (proj2 (keeps_run P o _ w Hclock
                    (keeps_onScreencastFrame this P Hconsole Hupd Hfound frame) H0)).
  - exact (proj2 (keeps_run P o _ w Hclock
                    (keeps_periodicFrame this P Hconsole Hupd Hfound) H0)).
Qed.

Lemma X8_frames_stay_in_session_witness :
  let sock := {| ws_sessionId := "s2"; readyState := OPEN; listening := true;
                 outbox := [] |} in
  clients (mem crowded) !! 1%nat = Some sock /\
  ws_sessionId sock <> sessionId (service_at 0 (mem crowded)) /\
  clients (mem (snd (run obliging (onScreencastFrame 0 (sample_frame "f")) crowded)))
    !! 1%nat = Some sock /\
  clients (mem (snd (run obliging (periodicFrame 0) crowded))) !! 1%nat = Some sock.
Proof.
  cbv zeta.
  assert (H1 : clients (mem crowded) !! 1%nat =
               Some {| ws_sessionId := "s2"; readyState := OPEN; listening := true;
                       outbox := [] |}) by (vm_compute; reflexivity).
  assert (H2 : ws_sessionId {| ws_sessionId := "s2"; readyState := OPEN;
                               listening := true; outbox := [] |}
               <> sessionId (service_at 0 (mem crowded)))
    by (vm_compute; discriminate).
  split; [exact H1|]. split; [exact H2|].
  exact (X8_frames_stay_in_session obliging crowded 0 (sample_frame "f") 1 _ H1 H2).
Defined.

(** The footprint of the message listener of a socket: the socket, the
    console, and the fields of the service that the registry gives for its
    session. *)
Section Messages.

Variables (ws : nat) (sid : string) (P : Mem -> Prop).
Hypothesis P_console : forall c m, P m -> P (set_console c m).
Hypothesis P_send : forall msg m, P m -> P (transmit ws msg m).
Hypothesis P_routed :
  forall m this, P m -> activeSessions m !! sid = Some this ->
  forall f, (forall s, sessionId (f s) = sessionId s) ->
  forall m', P m' -> P (upd this f m').

Ltac report :=
  intros ?; apply keeps_bind;
  [apply keeps_console_error, P_console | intros _; apply keeps_chat, P_send].

Lemma keeps_handleMouseEvent m this data :
  P m -> activeSessions m !! sid = Some this ->
  keeps P (handleMouseEvent this data ws).
Proof.
  intros Hm Hthis. pose proof (P_routed m this Hm Hthis) as Hupd.
  unfold handleMouseEvent. apply keeps_try_catch; [|report].
  repeat match goal with
         | |- keeps _ (match ?x with _ => _ end) => destruct x
         end;
    first [ apply keeps_ret | apply keeps_throw
          | now apply keeps_click | now apply keeps_mouseDown
          | now apply keeps_mouseUp | now apply keeps_mouseMove ].
Qed.

Lemma keeps_handleKeyEvent m this data :
  P m -> activeSessions m !! sid = Some this ->
  keeps P (handleKeyEvent this data ws).
Proof.
  intros Hm Hthis. pose proof (P_routed m this Hm Hthis) as Hupd.
  unfold handleKeyEvent. apply keeps_try_catch; [|report].
  repeat match goal with
         | |- keeps _ (match ?x with _ => _ end) => destruct x
         end;
    first [apply keeps_throw | now apply keeps_pressKey].
Qed.

Lemma keeps_handleChatMessage m this content :
  P m -> activeSessions m !! sid = Some this ->
  keeps P (handleChatMessage this content ws).
Proof.
  intros Hm Hthis. pose proof (P_routed m this Hm Hthis) as Hupd.
  unfold handleChatMessage.
  destruct content as [content|]; [|apply keeps_throw].
  destruct (navigateRegex _) as [target|]; [|apply keeps_chat, P_send].
  apply keeps_try_catch; [|report].
  apply keeps_bind; [apply keeps_chat, P_send | intros _; now apply keeps_navigate].
Qed.

Lemma keeps_onMessage message : keeps P (onMessage ws sid message).
Proof.
  unfold onMessage. apply keeps_try_catch; [|report].
  apply keeps_bind; [destruct message; [apply keeps_throw | apply keeps_ret..]|intros data].
  apply keeps_read; intros m Hm.
  destruct (activeSessions m !! sid) as [this|] eqn:Hthis; [|apply keeps_chat, P_send].
  destruct data as [data|]; [|apply keeps_throw].
  pose proof (keeps_handleMouseEvent m this data Hm Hthis) as Hmouse.
  pose proof (keeps_handleKeyEvent m this data Hm Hthis) as Hkey.
  pose proof (keeps_handleChatMessage m this (data_content data) Hm Hthis) as Hchat.
  destruct (data_type data) as [type|]; [|apply keeps_chat, P_send].
  repeat match goal with
         | |- keeps _ (match ?x with _ => _ end) => destruct x
         end;
    first [exact Hmouse | exact Hkey | exact Hchat | apply keeps_chat, P_send].
Qed.

End Messages.

(** X14: a message changes neither the session registry, nor a socket other
    than the one it came on, nor the service object of another session. *)
Theorem X14_message_footprint o w ws sid message :
  let w' := snd (run o (onMessage ws sid message) w) in
  activeSessions (mem w') = activeSessions (mem w) /\
  (forall j, j <> ws -> clients (mem w') !! j = clients (mem w) !! j) /\
  (forall other, activeSessions (mem w) !! sid <> Some other ->
                 heap (mem w') !! other = heap (mem w) !! other).
Proof.
  set (P := fun m =>
    activeSessions m = activeSessions (mem w) /\
    (forall j, j <> ws -> clients m !! j = clients (mem w) !! j) /\
    (forall other, activeSessions (mem w) !! sid <> Some other ->
                   heap m !! other = heap (mem w) !! other)).
  assert (H0 : P (mem w)) by (repeat split).
  assert (Hclock : timeless P) by (intros t m H; exact H).
  assert (Hconsole : forall c m, P m -> P (set_console c m)) by (intros c m H; exact H).
  assert (Hsend : forall msg m, P m -> P (transmit ws msg m)).
  { intros msg m (H1 & H2 & H3). split; [|split].
    - now rewrite activeSessions_transmit.
    - intros j Hj. rewrite clients_transmit_ne by congruence. now apply H2.
    - intros other Hne. rewrite heap_transmit. now apply H3. }
  assert (Hrouted : forall m this, P m -> activeSessions m !! sid = Some this ->
            forall f, (forall s, sessionId (f s) = sessionId s) ->
            forall m', P m' -> P (upd this f m')).
  { intros m this (Hm & _) Hthis f _ m' (H1 & H2 & H3). rewrite Hm in Hthis.
    split; [exact H1|]. split; [exact H2|].
    intros other Hne. rewrite heap_upd_ne by congruence. now apply H3. }
  exact (keeps_run P o _ w Hclock (keeps_onMessage ws sid P Hconsole Hsend Hrouted message) H0).
Qed.

(** The footprint of the connection handler and of the cleanup. *)
Section Sessions.

Variables (ws : nat) (sid : string) (P : Mem -> Prop).
Hypothesis P_console : forall c m, P m -> P (set_console c m).
Hypothesis P_timers : forall c m, P m -> P (set_timers c m).
Hypothesis P_send : forall msg m, P m -> P (transmit ws msg m).
Hypothesis P_socket :
  forall f m, P m -> P (set_clients (alter f ws (clients m)) m).
Hypothesis P_new : forall m, P m -> P (set_heap (heap m ++ [new_Service]) m).
Hypothesis P_own :
  forall m, P m ->
  forall f, (forall s, sessionId (f s) = sessionId s \/ sessionId (f s) = sid) ->
  forall m', P m' -> P (upd (length (heap m)) f m').
Hypothesis P_register :
  forall m, P m ->
  forall m', P m' ->
  P (set_activeSessions (<[sid := length (heap m)]> (activeSessions m')) m').
Hypothesis P_routed :
  forall m this, P m -> activeSessions m !! sid = Some this ->
  forall f, (forall s, sessionId (f s) = sessionId s) ->
  forall m', P m' -> P (upd this f m').
Hypothesis P_delete :
  forall m, P m -> P (set_activeSessions (delete sid (activeSessions m)) m).

Lemma keeps_onConnection : keeps P (onConnection ws sid).
Proof.
  unfold onConnection.
  apply keeps_bind; [apply keeps_modify; intros m; apply P_socket|intros _].
  apply keeps_bind; [apply keeps_chat, P_send|intros _].
  apply keeps_bind; [|intros _; apply keeps_modify; intros m; apply P_socket].
  apply keeps_try_catch;
    [|intros e; apply keeps_bind;
        [apply keeps_console_error, P_console | intros _; apply keeps_chat, P_send]].
  intros m Hm. split; [now apply P_new|].
  change (keeps P (initialize (length (heap m)) sid;;
                   modify (fun m' => set_activeSessions
                                       (<[sid := length (heap m)]> (activeSessions m')) m');;
                   chat ws "Browser initialized and streaming. Ready for interaction!")).
  apply keeps_bind; [|intros _].
  - apply keeps_initialize; [exact P_console | exact P_timers | |].
    + intros f Hf. apply (P_own m Hm). intros s. left. apply Hf.
    + apply (P_own m Hm). intros s. now right.
  - apply keeps_bind; [|intros _; apply keeps_chat, P_send].
    apply keeps_modify. now apply P_register.
Qed.

Lemma keeps_cleanupSession : keeps P (cleanupSession sid).
Proof.
  unfold cleanupSession. apply keeps_read; intros m Hm.
  destruct (activeSessions m !! sid) as [this|] eqn:Hthis; [|apply keeps_ret].
  apply keeps_try_catch; [|intros e; apply keeps_console_error, P_console].
  apply keeps_bind; [|intros _; apply keeps_modify, P_delete].
  apply keeps_close; [exact P_console | exact P_timers | now apply (P_routed m)].
Qed.

End Sessions.

(** ** Session creation, in full *)

Lemma run_initialize_cases o this sessionId w :
  (this < length (heap (mem w)))%nat ->
  exists w' n,
    run o (initialize this sessionId) w =
      (match first_rejection o (calls w) initialize_calls with
       | Some e => Thrown e
       | None => Returned tt
       end, w') /\
    calls w' = calls w ++ take n initialize_calls /\
    length (heap (mem w')) = length (heap (mem w)) /\
    (first_rejection o (calls w) initialize_calls = None ->
     calls w' = calls w ++ initialize_calls /\
     live_Service sessionId (clock (mem w)) (length (timers (mem w)))
       (service_at this (mem w')) /\
     timers (mem w') = timers (mem w) ++ [(this, true)]).
Proof.
  intros Hlt. unfold initialize, initialize_calls, first_rejection.
  exec.
  destruct (o (calls w) ChromiumLaunch) as [dt1 [e1|d1]] eqn:E1.
  { exec. eexists _, 1%nat. split; [reflexivity|]. split; [reflexivity|].
    split; [heap_length|]. discriminate. }
  exec.
  destruct (o _ (BrowserNewContext _)) as [dt2 [e2|d2]] eqn:E2.
  { exec. eexists _, 2%nat. split; [reflexivity|].
    split; [cbn [take]; now rewrite <- !app_assoc|]. split; [heap_length|]. discriminate. }
  exec.
  destruct (o _ ContextNewPage) as [dt3 [e3|d3]] eqn:E3.
  { exec. eexists _, 3%nat. split; [reflexivity|].
    split; [cbn [take]; now rewrite <- !app_assoc|]. split; [heap_length|]. discriminate. }
  exec. unfold the_page. exec.
  destruct (o _ (PageGoto _)) as [dt4 [e4|d4]] eqn:E4.
  { exec. eexists _, 4%nat. split; [reflexivity|].
    split; [cbn [take]; now rewrite <- !app_assoc|]. split; [heap_length|]. discriminate. }
  exec. unfold setupScreencast. exec.
  destruct (o _ ContextNewCDPSession) as [dt5 [e5|d5]] eqn:E5.
  { exec. eexists _, 5%nat. split; [reflexivity|].
    split; [cbn [take]; now rewrite <- !app_assoc|]. split; [heap_length|]. discriminate. }
  exec. unfold the_streamingClient. exec.
  destruct (o _ (CdpSend _)) as [dt6 [e6|d6]] eqn:E6.
  { exec. eexists _, 6%nat. split; [reflexivity|].
    split; [cbn [take]; now rewrite <- !app_assoc|]. split; [heap_length|]. discriminate. }
  exec. unfold startPeriodicFrames, setInterval. exec.
  cbn [run mem calls]. exec.
  eexists _, 6%nat. split; [reflexivity|].
  split; [cbn [take]; now rewrite <- !app_assoc|]. split; [heap_length|].
  intros _. split; [cbn [calls]; now rewrite <- !app_assoc|].
  cbn [mem]. split.
  - look. reduce. repeat split.
  - reduce. reflexivity.
Qed.

(** The connection handler around [initialize]: the memory at the start of
    [initialize], and what the handler does once it has settled. *)
Lemma run_onConnection o w ws sessionId :
  let m1 := set_clients (alter (set_ws_sessionId sessionId) ws (clients (mem w))) (mem w) in
  let m2 := transmit ws (ChatMessage welcome (clock m1)) m1 in
  let m3 := set_heap (heap m2 ++ [new_Service]) m2 in
  let listen m := set_clients (alter (set_listening true) ws (clients m)) m in
  run o (onConnection ws sessionId) w =
    match run o (initialize (length (heap m2)) sessionId) {| mem := m3; calls := calls w |} with
    | (Returned _, w4) =>
        let m5 := set_activeSessions
                    (<[sessionId := length (heap m2)]> (activeSessions (mem w4))) (mem w4) in
        (Returned tt,
         {| mem := listen (transmit ws (ChatMessage ready (clock m5)) m5);
            calls := calls w4 |})
    | (Thrown e, w4) =>
        let m5 := set_console
                    (console (mem w4) ++
                     [ConsoleError ("Failed to initialize browser for " +:+ sessionId +:+ ":") e])
                    (mem w4) in
        (Returned tt,
         {| mem := listen (transmit ws
                             (ChatMessage ("Error initializing browser: " +:+ e) (clock m5)) m5);
            calls := calls w4 |})
    end.
Proof.
  cbv zeta. unfold onConnection, welcome, ready.
  rewrite run_bind, run_modify. cbn beta iota.
  rewrite run_bind, run_chat. cbn beta iota.
  rewrite run_bind, run_try_catch, run_bind.
  unfold new_service at 1. cbn [run mem calls].
  rewrite run_bind. cbn [mem calls].
  match goal with
  | |- context [run o (initialize ?a ?b) ?c] => destruct (run o (initialize a b) c) as [[[]|e] w4]
  end.
  - cbn beta iota. rewrite run_bind, run_modify. cbn beta iota.
    rewrite run_chat. cbn beta iota. rewrite run_modify. reflexivity.
  - cbn beta iota. rewrite run_bind, run_console_error. cbn beta iota.
    rewrite run_chat. cbn beta iota. rewrite run_modify. reflexivity.
Qed.

(** X10: the connection handler issues the creation calls in their order, up
    to the first one that the driver rejects, and no other call: what a
    failed creation had acquired is never released. *)
Theorem X10_creation_calls o w ws sessionId :
  exists n,
    calls (snd (run o (onConnection ws sessionId) w)) = calls w ++ take n initialize_calls /\
    (first_rejection o (calls w) initialize_calls = None ->
     take n initialize_calls = initialize_calls) /\
    forall c, In c (capture_calls ++ release_calls) -> ~ In c (take n initialize_calls).
Proof.
  rewrite run_onConnection. cbv zeta.
  match goal with
  | |- context [run o (initialize ?a ?b) ?c] =>
      destruct (run_initialize_cases o a b c) as (w4 & n & Hrun & Hcalls & _ & Hok)
  end.
  { cbn [mem heap set_heap]. rewrite length_app. simpl. lia. }
  cbn [calls] in Hrun, Hcalls, Hok. rewrite Hrun.
  exists n. split; [|split].
  - destruct (first_rejection _ _ _); exact Hcalls.
  - intros Hnone. destruct (Hok Hnone) as [Hall _]. rewrite Hall in Hcalls.
    now apply app_inv_head in Hcalls.
  - intros c Hc Hin. apply list_elem_of_In, (subseteq_take n), list_elem_of_In in Hin.
    cbn in Hc, Hin. intuition (subst; discriminate).
Qed.

(** A creation that the driver goes along with. *)
Lemma run_onConnection_created o w ws sessionId sock :
  clients (mem w) !! ws = Some sock -> readyState sock = OPEN ->
  first_rejection o (calls w) initialize_calls = None ->
  exists w' t1 t2,
    let this := length (heap (mem w)) in
    run o (onConnection ws sessionId) w = (Returned tt, w') /\
    calls w' = calls w ++ initialize_calls /\
    activeSessions (mem w') = <[sessionId := this]> (activeSessions (mem w)) /\
    heap (mem w') !! this = Some (service_at this (mem w')) /\
    live_Service sessionId (clock (mem w)) (length (timers (mem w)))
      (service_at this (mem w')) /\
    timers (mem w') = timers (mem w) ++ [(this, true)] /\
    (forall other, other <> this -> heap (mem w') !! other = heap (mem w) !! other) /\
    clients (mem w') !! ws =
      Some (set_listening true
              (push (ChatMessage ready t2) t2
                 (push (ChatMessage welcome t1) t1
                    (set_ws_sessionId sessionId sock)))).
Proof.
  intros Hws Hopen Hnone. rewrite run_onConnection. cbv zeta.
  set (m1 := set_clients (alter (set_ws_sessionId sessionId) ws (clients (mem w))) (mem w)).
  set (m2 := transmit ws (ChatMessage welcome (clock m1)) m1).
  set (m3 := set_heap (heap m2 ++ [new_Service]) m2).
  assert (Hlen2 : length (heap m2) = length (heap (mem w)))
    by (unfold m2; now rewrite length_heap_transmit).
  assert (Hheap2 : heap m2 = heap (mem w)) by (unfold m2; now rewrite heap_transmit).
  assert (Hws1 : clients m1 !! ws = Some (set_ws_sessionId sessionId sock)).
  { unfold m1. cbn [clients set_clients]. rewrite list_lookup_alter_eq, Hws. reflexivity. }
  assert (Hws2 : clients m2 !! ws =
                 Some (push (ChatMessage welcome (clock m1)) (clock m1)
                         (set_ws_sessionId sessionId sock))).
  { unfold m2. now apply transmit_open. }
  assert (Hclock3 : clock m3 = clock (mem w))
    by (unfold m3, m2; cbn [clock set_heap]; now rewrite clock_transmit).
  assert (Htimers3 : timers m3 = timers (mem w)).
  { unfold m3, m2. cbn [timers set_heap].
    destruct (transmit_cases ws (ChatMessage welcome (clock m1)) m1) as [->|[sk ->]];
      reflexivity. }
  assert (Hlt : (length (heap m2) < length (heap m3))%nat).
  { unfold m3. cbn [heap set_heap]. rewrite length_app. simpl. lia. }
  destruct (run_initialize_cases o (length (heap m2)) sessionId
              {| mem := m3; calls := calls w |} Hlt)
    as (w4 & n & Hrun & _ & Hlen4 & Hok).
  cbn [calls mem] in Hrun, Hlen4, Hok. rewrite Hnone in Hrun.
  destruct (Hok Hnone) as (Hcalls & Hlive & Htimers).
  rewrite Hclock3, Htimers3 in Hlive. rewrite Htimers3 in Htimers.
  pose proof (keeps_run (elsewhere (length (heap m2)) m3) o
                (initialize (length (heap m2)) sessionId)
                {| mem := m3; calls := calls w |} (elsewhere_clock _ _)
                (keeps_initialize (length (heap m2)) (elsewhere (length (heap m2)) m3)
                   (elsewhere_console _ _) (elsewhere_timers _ _)
                   (fun f _ => elsewhere_fields _ _ f) sessionId
                   (elsewhere_fields _ _ _))
                (elsewhere_refl _ _)) as He.
  rewrite Hrun in He. cbn [mem snd] in He. destruct He as (Hact & Hcl & _ & Hothers).
  rewrite Hrun. rewrite Hlen2 in *.
  set (m5 := set_activeSessions _ (mem w4)).
  assert (Hws5 : clients m5 !! ws =
                 Some (push (ChatMessage welcome (clock m1)) (clock m1)
                         (set_ws_sessionId sessionId sock))).
  { unfold m5. cbn [clients set_activeSessions]. rewrite Hcl. exact Hws2. }
  eexists _, (clock m1), (clock m5). cbv zeta.
  split; [reflexivity|]. cbn [mem calls].
  split; [exact Hcalls|].
  split.
  { cbn [activeSessions set_clients]. rewrite activeSessions_transmit.
    unfold m5. cbn [activeSessions set_activeSessions]. rewrite Hact.
    unfold m3. cbn [activeSessions set_heap]. unfold m2.
    now rewrite activeSessions_transmit. }
  split.
  { apply service_at_is_lookup. cbn [heap set_clients]. rewrite heap_transmit.
    unfold m5. cbn [heap set_activeSessions]. rewrite Hlen4. lia. }
  split.
  { rewrite service_at_set_clients, service_at_transmit. exact Hlive. }
  split.
  { cbn [timers set_clients].
    destruct (transmit_cases ws (ChatMessage ready (clock m5)) m5) as [->|[sk ->]];
      cbn [timers set_clients]; unfold m5; cbn [timers set_activeSessions];
      exact Htimers. }
  split.
  { intros other Hne. cbn [heap set_clients]. rewrite heap_transmit.
    unfold m5. cbn [heap set_activeSessions]. rewrite Hothers by exact Hne.
    unfold m3. cbn [heap set_heap].
    destruct (decide (other < length (heap m2))%nat) as [Hl|Hl].
    - rewrite lookup_app_l by exact Hl. now rewrite Hheap2.
    - rewrite lookup_ge_None_2 by (rewrite length_app; simpl; lia).
      symmetry. apply lookup_ge_None_2. lia. }
  cbn [clients set_clients]. rewrite list_lookup_alter_eq.
  erewrite transmit_open; [reflexivity | exact Hws5 | exact Hopen].
Qed.

(** X11: when the driver resolves every creation call, the connection handler
    registers a new service under the session id: the service holds all
    its handles, is streaming and has its timer armed; the driver has
    received exactly the creation calls; the client has been sent the
    welcome and the ready status and the listeners are attached; with a
    fresh session id the health report counts one session more. *)
Theorem X11_session_created o w ws sessionId sock :
  clients (mem w) !! ws = Some sock -> readyState sock = OPEN ->
  activeSessions (mem w) !! sessionId = None ->
  first_rejection o (calls w) initialize_calls = None ->
  exists w' sock' t1 t2,
    let this := length (heap (mem w)) in
    run o (onConnection ws sessionId) w = (Returned tt, w') /\
    calls w' = calls w ++ initialize_calls /\
    activeSessions (mem w') !! sessionId = Some this /\
    heap (mem w') !! this = Some (service_at this (mem w')) /\
    live_Service sessionId (clock (mem w)) (length (timers (mem w)))
      (service_at this (mem w')) /\
    timers (mem w') !! length (timers (mem w)) = Some (this, true) /\
    clients (mem w') !! ws = Some sock' /\
    ws_sessionId sock' = sessionId /\ listening sock' = true /\
    outbox sock' =
      outbox sock ++ [(t1, ChatMessage welcome t1); (t2, ChatMessage ready t2)] /\
    snd (health (mem w')) = S (snd (health (mem w))).
Proof.
  intros Hws Hopen Hfresh Hnone.
  destruct (run_onConnection_created o w ws sessionId sock Hws Hopen Hnone)
    as (w' & t1 & t2 & Hrun & Hcalls & Hact & Hheap & Hlive & Htimers & _ & Hsock).
  cbv zeta in *. eexists w', _, t1, t2.
  split; [exact Hrun|]. split; [exact Hcalls|].
  split; [rewrite Hact; apply lookup_insert_eq|].
  split; [exact Hheap|]. split; [exact Hlive|].
  split; [rewrite Htimers; now apply list_lookup_middle|].
  split; [exact Hsock|]. split; [reflexivity|]. split; [reflexivity|].
  split; [cbn [outbox set_listening push set_ws_sessionId]; now rewrite <- app_assoc|].
  unfold health. cbn [snd]. rewrite Hact. now apply map_size_insert_None.
Qed.

Lemma X11_session_created_witness :
  first_rejection obliging (calls accepted) initialize_calls = None /\
  exists w',
    run obliging (onConnection 0 "s1") accepted = (Returned tt, w') /\
    calls w' = initialize_calls /\
    activeSessions (mem w') !! "s1" = Some 0%nat /\
    snd (health (mem w')) = 1%nat.
Proof.
  split; [reflexivity|].
  destruct (X11_session_created obliging accepted 0 "s1"
              {| ws_sessionId := EmptyString; readyState := OPEN;
                 listening := false; outbox := [] |}
              eq_refl eq_refl eq_refl eq_refl)
    as (w' & sock' & t1 & t2 & Hrun & Hcalls & Hact & _ & _ & _ & _ & _ & _ & _ & Hhealth).
  exists w'. split; [exact Hrun|]. split; [exact Hcalls|]. split; [exact Hact|].
  exact Hhealth.
Defined.

(** X12: a session that was created and is then cleaned up, its close
    returning, leaves the registry and the health report as they were
    before the connection, and the service with every handle released. *)
Theorem X12_session_round_trip o o' w ws sessionId sock :
  clients (mem w) !! ws = Some sock -> readyState sock = OPEN ->
  activeSessions (mem w) !! sessionId = None ->
  first_rejection o (calls w) initialize_calls = None ->
  let w1 := snd (run o (onConnection ws sessionId) w) in
  fst (run o' (close (length (heap (mem w)))) w1) = Returned tt ->
  let w2 := snd (run o' (cleanupSession sessionId) w1) in
  activeSessions (mem w2) = activeSessions (mem w) /\
  health (mem w2) = health (mem w) /\
  released (service_at (length (heap (mem w))) (mem w2)).
Proof.
  intros Hws Hopen Hfresh Hnone w1 Hclose w2.
  destruct (run_onConnection_created o w ws sessionId sock Hws Hopen Hnone)
    as (w' & t1 & t2 & Hrun & Hcalls & Hact & Hheap & _).
  cbv zeta in *.
  assert (Hw1 : w1 = w') by (unfold w1; now rewrite Hrun).
  assert (Hreg : activeSessions (mem w1) !! sessionId = Some (length (heap (mem w))))
    by (rewrite Hw1, Hact; apply lookup_insert_eq).
  assert (Hheap1 : heap (mem w1) !! length (heap (mem w)) =
                   Some (service_at (length (heap (mem w))) (mem w1)))
    by (rewrite Hw1; exact Hheap).
  destruct (run_close_cases o' _ _ _ Hheap1)
    as (res & w3 & new & Hrun3 & _ & Hact3 & _ & _ & Hrel & _).
  rewrite Hrun3 in Hclose. cbn [fst] in Hclose. subst res.
  assert (Hw2 : mem w2 = set_activeSessions (delete sessionId (activeSessions (mem w3)))
                           (mem w3)).
  { unfold w2. rewrite (run_cleanupSession o' sessionId w1 _ Hreg), Hrun3. reflexivity. }
  assert (Hact2 : activeSessions (mem w2) = activeSessions (mem w)).
  { rewrite Hw2. cbn [activeSessions set_activeSessions].
    rewrite Hact3, Hw1, Hact. now apply delete_insert_id. }
  split; [exact Hact2|]. split.
  - unfold health. now rewrite Hact2.
  - rewrite Hw2, service_at_set_activeSessions. now apply Hrel.
Qed.

Lemma X12_session_round_trip_witness :
  first_rejection obliging (calls accepted) initialize_calls = None /\
  fst (run obliging (close 0) (snd (run obliging (onConnection 0 "s1") accepted)))
    = Returned tt /\
  activeSessions
    (mem (snd (run obliging (cleanupSession "s1")
                 (snd (run obliging (onConnection 0 "s1") accepted)))))
    = activeSessions (mem accepted).
Proof.
  split; [reflexivity|]. split; [vm_compute; reflexivity|].
  exact (proj1 (X12_session_round_trip obliging obliging accepted 0 "s1"
                  {| ws_sessionId := EmptyString; readyState := OPEN;
                     listening := false; outbox := [] |}
                  eq_refl eq_refl eq_refl eq_refl
                  (eq_refl : fst (run obliging (close 0)
                                    (snd (run obliging (onConnection 0 "s1") accepted)))
                             = Returned tt))).
Defined.

(** X13: when the [close] of a registered session throws, the cleanup still
    returns normally: the error is logged under the heading of the
    cleanup, the session stays in the registry and in the health report,
    and its service is no longer streaming. *)
Theorem X13_failed_cleanup_keeps_entry o w sessionId this s e :
  activeSessions (mem w) !! sessionId = Some this ->
  heap (mem w) !! this = Some s ->
  fst (run o (close this) w) = Thrown e ->
  let w' := snd (run o (cleanupSession sessionId) w) in
  fst (run o (cleanupSession sessionId) w) = Returned tt /\
  activeSessions (mem w') = activeSessions (mem w) /\
  health (mem w') = health (mem w) /\
  In (ConsoleError ("Error cleaning up session " +:+ sessionId +:+ ":") e)
     (console (mem w')) /\
  isStreaming (service_at this (mem w')) = false.
Proof.
  intros Hreg Hs Hthrown w'.
  pose proof (close_stops_streaming o this w) as Hoff.
  destruct (run_close_cases o this w s Hs)
    as (res & w1 & new & Hrun & _ & Hact & _).
  unfold w'. rewrite (run_cleanupSession o sessionId w this Hreg).
  rewrite Hrun in *. cbn [fst snd] in Hthrown, Hoff. subst res.
  cbn [fst snd mem]. split; [reflexivity|].
  assert (Hact' : activeSessions
                    (set_console
                       (console (mem w1) ++
                        [ConsoleError ("Error cleaning up session " +:+ sessionId +:+ ":") e])
                       (mem w1)) = activeSessions (mem w)) by exact Hact.
  split; [exact Hact'|]. split; [unfold health; now rewrite Hact'|].
  split; [cbn [console set_console]; apply in_or_app; right; now left|].
  exact Hoff.
Qed.


Lemma X13_failed_cleanup_keeps_entry_witness :
  let o := rejecting (fun c => match c with PageClose => true | _ => false end) 0 in
  activeSessions (mem streaming) !! "s1" = Some 0%nat /\
  fst (run o (close 0) streaming) = Thrown "rejected" /\
  activeSessions (mem (snd (run o (cleanupSession "s1") streaming)))
    = activeSessions (mem streaming).
Proof.
  cbv zeta.
  destruct streaming_is_streaming as (_ & _ & _ & _ & Hreg).
  destruct streaming_service_live as [Hs _].
  assert (Hthrown : fst (run (rejecting (fun c => match c with PageClose => true
                                                  | _ => false end) 0)
                          (close 0) streaming) = Thrown "rejected")
    by (vm_compute; reflexivity).
  split; [exact Hreg|]. split; [exact Hthrown|].
  exact (proj1 (proj2 (X13_failed_cleanup_keeps_entry _ streaming "s1" 0 _ "rejected"
                         Hreg Hs Hthrown))).
Defined.

(** ** Sessions under the event loop *)

Lemma listener_guarded handler : listener handler -> guarded handler.
Proof.
  intros [ws sessionId|ws sessionId message|sessionId|this frame|this].
  - unfold onConnection. guarded.
  - unfold onMessage. guarded.
  - unfold cleanupSession. apply guarded_bind; [intros m; exact I|intros m]. guarded.
  - unfold onScreencastFrame. guarded.
  - unfold periodicFrame. guarded.
Qed.

Section Isolation.

Variables (id : string) (this ws : nat) (s : Service) (sock : Socket) (entry : option nat).
Hypothesis id_not_empty : id <> EmptyString.
Hypothesis sock_id : ws_sessionId sock = id.

Lemma session_clock : timeless (session id this ws s sock entry).
Proof. intros t m H. exact H. Qed.

Lemma session_console c m : (session id this ws s sock entry) m -> (session id this ws s sock entry) (set_console c m).
Proof. intros H. exact H. Qed.

Lemma session_timers c m : (session id this ws s sock entry) m -> (session id this ws s sock entry) (set_timers c m).
Proof. intros H. exact H. Qed.

Lemma session_send ws' msg m : ws' <> ws -> (session id this ws s sock entry) m -> (session id this ws s sock entry) (transmit ws' msg m).
Proof.
  intros Hne (H1 & H2 & H3 & H4 & H5). repeat split.
  - now rewrite heap_transmit.
  - now rewrite clients_transmit_ne.
  - now rewrite activeSessions_transmit.
  - intros id'. rewrite activeSessions_transmit. apply H4.
  - intros that. rewrite service_at_transmit. apply H5.
Qed.

Lemma session_fields that f m :
  that <> this -> (forall s', sessionId s' <> id -> sessionId (f s') <> id) ->
  (session id this ws s sock entry) m -> (session id this ws s sock entry) (upd that f m).
Proof.
  intros Hne Hf (H1 & H2 & H3 & H4 & H5). repeat split; auto.
  - now rewrite heap_upd_ne.
  - intros that' Hne'. destruct (decide (that' = that)) as [->|Hd].
    + destruct (service_at_upd_cases that f m) as [->|[-> _]]; [|cbn; congruence].
      now apply Hf, H5.
    + rewrite service_at_upd_ne by congruence. now apply H5.
Qed.

Lemma session_found that m i sk :
  that <> this -> (session id this ws s sock entry) m -> socket_of that m = Some (i, sk) -> i <> ws.
Proof.
  intros Hne (_ & H2 & _ & _ & H5) Hs ->.
  pose proof (socket_of_session _ _ _ _ Hs) as Hsk.
  pose proof (socket_of_open _ _ _ _ Hs) as [Hi _].
  rewrite Hi in H2. injection H2 as ->. apply (H5 that Hne). congruence.
Qed.

Lemma session_socket ws' f m :
  ws' <> ws -> (session id this ws s sock entry) m -> (session id this ws s sock entry) (set_clients (alter f ws' (clients m)) m).
Proof.
  intros Hne (H1 & H2 & H3 & H4 & H5). repeat split; auto.
  cbn [clients set_clients]. now rewrite list_lookup_alter_ne.
Qed.

Lemma session_fresh m : (session id this ws s sock entry) m -> length (heap m) <> this.
Proof. intros (H1 & _) E. apply lookup_lt_Some in H1. lia. Qed.

Lemma session_new m : (session id this ws s sock entry) m -> (session id this ws s sock entry) (set_heap (heap m ++ [new_Service]) m).
Proof.
  intros (H1 & H2 & H3 & H4 & H5). repeat split; auto.
  - cbn [heap set_heap]. rewrite lookup_app_l; [exact H1|]. now apply lookup_lt_Some in H1.
  - intros that Hne. unfold service_at. cbn [heap set_heap].
    destruct (decide (that < length (heap m))%nat) as [Hl|Hl].
    + rewrite lookup_app_l by exact Hl. now apply H5.
    + destruct (decide (that = length (heap m))) as [->|Hd].
      * rewrite list_lookup_middle by reflexivity. cbn. congruence.
      * rewrite lookup_ge_None_2 by (rewrite length_app; cbn; lia). cbn. congruence.
Qed.

Lemma session_register sessionId m m' :
  sessionId <> id -> (session id this ws s sock entry) m -> (session id this ws s sock entry) m' ->
  (session id this ws s sock entry) (set_activeSessions (<[sessionId := length (heap m)]> (activeSessions m')) m').
Proof.
  intros Hne Hm (H1 & H2 & H3 & H4 & H5). repeat split; auto.
  - cbn [activeSessions set_activeSessions]. now rewrite lookup_insert_ne.
  - intros id' Hne'. cbn [activeSessions set_activeSessions].
    destruct (decide (id' = sessionId)) as [->|Hd].
    + rewrite lookup_insert_eq. intros [= E]. now apply (session_fresh m Hm).
    + rewrite lookup_insert_ne by congruence. now apply H4.
Qed.

Lemma session_delete sessionId m :
  sessionId <> id -> (session id this ws s sock entry) m ->
  (session id this ws s sock entry) (set_activeSessions (delete sessionId (activeSessions m)) m).
Proof.
  intros Hne (H1 & H2 & H3 & H4 & H5). repeat split; auto.
  - cbn [activeSessions set_activeSessions]. now rewrite lookup_delete_ne.
  - intros id' Hne'. cbn [activeSessions set_activeSessions].
    destruct (decide (id' = sessionId)) as [->|Hd].
    + rewrite lookup_delete_eq. discriminate.
    + rewrite lookup_delete_ne by congruence. now apply H4.
Qed.

Lemma session_routed sessionId m that :
  sessionId <> id -> (session id this ws s sock entry) m -> activeSessions m !! sessionId = Some that -> that <> this.
Proof. intros Hne (_ & _ & _ & H4 & _) Hthat ->. exact (H4 _ Hne Hthat). Qed.

(** What the other sessions do leaves the session as it is. *)
Lemma foreign_keeps handler :
  foreign id this ws handler -> keeps (session id this ws s sock entry) handler.
Proof.
  intros [ws' id' Hws Hid|ws' id' message Hws Hid|id' Hid|that frame Hthat|that Hthat].
  - apply keeps_onConnection.
    + apply session_console.
    + apply session_timers.
    + intros msg m. now apply session_send.
    + intros f m. now apply session_socket.
    + apply session_new.
    + intros m Hm f Hf m'. apply session_fields; [now apply session_fresh|].
      intros s' Hs'. destruct (Hf s') as [E|E]; rewrite E; assumption.
    + intros m Hm m'. now apply session_register.
  - apply keeps_onMessage.
    + apply session_console.
    + intros msg m. now apply session_send.
    + intros m that Hm Hthat f Hf m'. apply session_fields.
      * exact (session_routed id' m that Hid Hm Hthat).
      * intros s'. now rewrite Hf.
  - apply keeps_cleanupSession.
    + apply session_console.
    + apply session_timers.
    + intros m that Hm Hthat f Hf m'. apply session_fields.
      * exact (session_routed id' m that Hid Hm Hthat).
      * intros s'. now rewrite Hf.
    + intros m. now apply session_delete.
  - apply keeps_onScreencastFrame.
    + apply session_console.
    + intros f Hf m. apply session_fields; [exact Hthat|]. intros s'. now rewrite Hf.
    + intros m i sk Hm Hs msg m'. apply session_send.
      exact (session_found that m i sk Hthat Hm Hs).
  - apply keeps_periodicFrame.
    + apply session_console.
    + intros f Hf m. apply session_fields; [exact Hthat|]. intros s'. now rewrite Hf.
    + intros m i sk Hm Hs msg m'. apply session_send.
      exact (session_found that m i sk Hthat Hm Hs).
Qed.

End Isolation.

(** X25: whatever the other sessions do, in whatever interleaving and
    however the driver settles their promises, connections being set up,
    messages handled, sessions cleaned up, frames pushed and timers
    ticking, a session keeps its service object, its socket and its entry
    in the registry exactly as they were. *)
Theorem X25_sessions_isolated id this ws s sock entry w steps :
  id <> EmptyString -> ws_sessionId sock = id ->
  session id this ws s sock entry (mem w) ->
  Forall (foreign id this ws) (spawned steps) ->
  session id this ws s sock entry (mem (world (sched steps (quiet w)))).
Proof.
  intros Hid Hsock Hw Hsteps.
  apply keeps_sched.
  - apply session_clock.
  - exact Hw.
  - constructor.
  - eapply Forall_impl; [exact Hsteps|]. intros h. now apply foreign_keeps.
Qed.

Lemma X25_sessions_isolated_witness :
  exists s sock,
    session "s1" 0 0 s sock (Some 0%nat) (mem crowded) /\
    Forall (foreign "s1" 0 0) (spawned newcomer) /\
    session "s1" 0 0 s sock (Some 0%nat) (mem (world (sched newcomer (quiet crowded)))).
Proof.
  assert (Hheap : heap (mem crowded) !! 0%nat = Some (service_at 0 (mem crowded)))
    by (vm_compute; reflexivity).
  assert (Hlen : length (heap (mem crowded)) = 1%nat) by (vm_compute; reflexivity).
  assert (Hsock : exists sock, clients (mem crowded) !! 0%nat = Some sock /\
                               ws_sessionId sock = "s1")
    by (eexists; split; vm_compute; reflexivity).
  destruct Hsock as (sock & Hsock & Hid).
  assert (Hreg : activeSessions (mem crowded) = {["s1" := 0%nat]})
    by (vm_compute; reflexivity).
  assert (Hw : session "s1" 0 0 (service_at 0 (mem crowded)) sock (Some 0%nat) (mem crowded)).
  { split; [exact Hheap|]. split; [exact Hsock|]. split; [now rewrite Hreg|]. split.
    - intros id' Hne. rewrite Hreg, lookup_singleton_ne by congruence. discriminate.
    - intros that Hne. unfold service_at. rewrite lookup_ge_None_2 by lia. discriminate. }
  assert (Hsteps : Forall (foreign "s1" 0 0) (spawned newcomer)).
  { repeat constructor; discriminate. }
  exists (service_at 0 (mem crowded)), sock.
  split; [exact Hw|]. split; [exact Hsteps|].
  exact (X25_sessions_isolated "s1" 0 0 _ sock (Some 0%nat) crowded newcomer
           ltac:(discriminate) Hid Hw Hsteps).
Defined.

(** X26: no listener of the relay and no callback of a service ever ends in
    an error, whatever the messages and the answers of the driver: run on
    its own each of them returns, and under the event loop, however they
    are interleaved, none of them is left as a rejected promise. *)
Theorem X26_no_unhandled_rejection w steps :
  (forall handler, listener handler -> forall o, fst (run o handler w) = Returned tt) /\
  (Forall listener (spawned steps) ->
   forall task e, tasks (sched steps (quiet w)) !! task <> Some (Throw e)).
Proof.
  split.
  - intros handler Hh o.
    destruct (guarded_run o handler w (listener_guarded handler Hh)) as [[] H]. exact H.
  - intros Hsteps task e Htask.
    assert (H : Forall guarded (tasks (sched steps (quiet w)))).
    { apply guarded_sched; [constructor|].
      eapply Forall_impl; [exact Hsteps|]. apply listener_guarded. }
    rewrite Forall_lookup in H. exact (H _ _ Htask).
Qed.

Lemma X26_no_unhandled_rejection_witness :
  Forall listener (spawned racing_cleanups) /\
  forall task e, tasks (sched racing_cleanups (quiet streaming)) !! task <> Some (Throw e).
Proof.
  assert (H : Forall listener (spawned racing_cleanups)) by (repeat constructor).
  split; [exact H|]. exact (proj2 (X26_no_unhandled_rejection streaming racing_cleanups) H).
Defined.

(** The first synchronous stretch of [close] is the assignment that
    switches the stream off. *)
Lemma advance_assign {A} this f (rest : Prog A) h m :
  advance (try_catch (assign this f;; rest) h) m =
  advance (try_catch rest h) (upd this f m).
Proof. reflexivity. Qed.

Lemma off_clock this sockets : timeless (switched_off this sockets).
Proof. intros t m H. exact H. Qed.

Lemma off_console this sockets c m :
  switched_off this sockets m -> switched_off this sockets (set_console c m).
Proof. intros H. exact H. Qed.

Lemma off_timers this sockets c m :
  switched_off this sockets m -> switched_off this sockets (set_timers c m).
Proof. intros H. exact H. Qed.

Lemma off_fields this sockets f :
  (forall s, isStreaming (f s) = isStreaming s) ->
  forall m, switched_off this sockets m -> switched_off this sockets (upd this f m).
Proof.
  intros Hf m [H1 H2]. split; [|exact H2].
  destruct (service_at_upd_cases this f m) as [->|[-> _]]; [|reflexivity].
  now rewrite Hf.
Qed.

Lemma off_switch this sockets m :
  clients m = sockets -> switched_off this sockets (upd this (set_isStreaming false) m).
Proof.
  intros H. split; [|exact H].
  destruct (service_at_upd_cases this (set_isStreaming false) m) as [->|[-> _]]; reflexivity.
Qed.

Ltac off :=
  keeps;
  first [ apply keeps_console_log, off_console
        | apply keeps_console_error, off_console
        | apply keeps_clearInterval, off_timers
        | apply keeps_assign, off_fields; reflexivity ].

(** Once the stream is off, [close] and the two callbacks leave it off and
    send nothing. *)
Lemma closing_keeps this sockets handler :
  closing this handler -> keeps (switched_off this sockets) handler.
Proof.
  intros [|frame|].
  - unfold close, the_streamingClient.
    apply keeps_try_catch; [|intros e; off].
    apply keeps_bind; [|intros _; off].
    apply keeps_assign. intros m [_ H]. now apply off_switch.
  - unfold onScreencastFrame. apply keeps_read. intros m [H _]. rewrite H. apply keeps_ret.
  - unfold periodicFrame. apply keeps_read. intros m [H _]. rewrite H. apply keeps_ret.
Qed.

(** The call of [close], up to its first [await]: the stream is off. *)
Lemma close_parked this w :
  switched_off this (clients (mem w)) (mem (snd (park (close this) w))) /\
  keeps (switched_off this (clients (mem w))) (fst (park (close this) w)).
Proof.
  unfold park, close. rewrite advance_assign.
  match goal with
  | |- context [advance ?p ?m] =>
      assert (Hk : keeps (switched_off this (clients (mem w))) p)
        by (unfold the_streamingClient; apply keeps_try_catch; [off | intros e; off]);
      assert (Hm : switched_off this (clients (mem w)) m)
        by (apply off_switch; reflexivity);
      pose proof (keeps_advance _ p m Hk Hm) as [H1 H2];
      destruct (advance p m) as [p' m']
  end.
  split; [exact H2 | exact H1].
Qed.

(** The stream is off as soon as [close] is called, but a heartbeat that is
    waiting for its capture at that moment does not look again: when the
    capture resolves it sends its frame. *)
Lemma pending_heartbeat_outlives_close :
  let before := mem (world (sched [Spawn (periodicFrame 0); Spawn (close 0)] idle)) in
  let after := mem (world (sched late_heartbeat idle)) in
  isStreaming (service_at 0 before) = false /\
  frames 0 before = [] /\
  isStreaming (service_at 0 after) = false /\
  map snd (frames 0 after) = [FrameMessage "late" 0 (Some 1280%Q) (Some 720%Q)].
Proof. cbv zeta. repeat split; vm_compute; reflexivity. Qed.

(** X27: when [close] is called while no handler is in flight, then from
    that moment on, and whatever the interleaving of its driver calls with
    the frames that are pushed, the timer ticks that fire and the further
    calls of [close] on the same service that follow, the stream stays off
    and nothing is sent on any socket.  (A heartbeat that is waiting for
    its capture when [close] is called is not among these; its frame is
    still sent, see [pending_heartbeat_outlives_close].) *)
Theorem X27_close_cancels_frames this w steps :
  Forall (closing this) (spawned steps) ->
  let m' := mem (world (sched steps (step (quiet w) (Spawn (close this))))) in
  isStreaming (service_at this m') = false /\ clients m' = clients (mem w).
Proof.
  intros Hsteps. cbv zeta.
  change (switched_off this (clients (mem w))
            (mem (world (sched steps (step (quiet w) (Spawn (close this))))))).
  destruct (close_parked this w) as [Hm Hk].
  apply keeps_sched.
  - apply off_clock.
  - cbn [step quiet world tasks]. destruct (park (close this) w) as [p w']. exact Hm.
  - cbn [step quiet world tasks]. destruct (park (close this) w) as [p w']. cbn.
    constructor; [exact Hk | constructor].
  - eapply Forall_impl; [exact Hsteps|]. intros h. apply closing_keeps.
Qed.

Lemma X27_close_cancels_frames_witness :
  Forall (closing 0) (spawned late_frames) /\
  clients (mem (world (sched late_frames (step (quiet streaming) (Spawn (close 0))))))
    = clients (mem streaming).
Proof.
  assert (H : Forall (closing 0) (spawned late_frames)) by (repeat constructor).
  split; [exact H|]. exact (proj2 (X27_close_cancels_frames 0 streaming late_frames H)).
Defined.

(** ** Operations on a service without a page *)

(** Every input operation starts with the guard on [this.page]. *)
Lemma run_without_page o this w x y key url :
  page (service_at this (mem w)) = None ->
  Forall (fun p : Prog unit => run o p w = (Thrown not_initialized, w))
    [ click this x y; mouseDown this x y; mouseUp this x y; mouseMove this x y;
      pressKey this key; navigate this url ] /\
  run o (takeScreenshot this) w = (Thrown not_initialized, w).
Proof.
  intros H. split; [each|];
    unfold click, mouseDown, mouseUp, mouseMove, pointer, pressKey, navigate,
      takeScreenshot;
    rewrite run_bind, run_self; cbn beta iota; now rewrite H.
Qed.

(** X4: once [close] has returned, every input operation of the service
    throws "Playwright not initialized" and does nothing else: no driver
    call, no log line, no field changes. *)
Theorem X4_closed_service_rejects_input o o' this w s x y key url :
  heap (mem w) !! this = Some s ->
  fst (run o (close this) w) = Returned tt ->
  let w1 := snd (run o (close this) w) in
  Forall (fun p : Prog unit => run o' p w1 = (Thrown not_initialized, w1))
    [ click this x y; mouseDown this x y; mouseUp this x y; mouseMove this x y;
      pressKey this key; navigate this url ] /\
  run o' (takeScreenshot this) w1 = (Thrown not_initialized, w1).
Proof.
  intros Hs Hclose w1.
  destruct (run_close_cases o this w s Hs)
    as (res & w' & new & Hrun & _ & _ & _ & _ & Hrel & _).
  unfold w1. rewrite Hrun in *. cbn [fst snd] in *.
  apply run_without_page. now apply Hrel.
Qed.

Lemma X4_closed_service_rejects_input_witness :
  heap (mem streaming) !! 0%nat = Some (service_at 0 (mem streaming)) /\
  fst (run obliging (close 0) streaming) = Returned tt /\
  fst (run obliging (click 0 (1#2) (1#2)) (snd (run obliging (close 0) streaming)))
    = Thrown not_initialized.
Proof.
  split; [vm_compute; reflexivity|]. split; [vm_compute; reflexivity|].
  pose proof (X4_closed_service_rejects_input obliging obliging 0 streaming
                (service_at 0 (mem streaming)) (1#2) (1#2) "a" "b"
                (proj1 streaming_service_live)
                (eq_refl : fst (run obliging (close 0) streaming) = Returned tt)) as [H _].
  apply List.Forall_inv in H. now rewrite H.
Defined.

(** ** Outcome of the input operations *)

(** X1: an input operation that consists of one driver call issues that
    call; if the driver resolves it the operation returns and records the
    time of the activity, and if the driver rejects it the operation logs
    the error under its own heading and throws the same error, the time of
    the last activity staying as it was. *)
Theorem X1_input_outcome o this w vp x y key url :
  session_with_viewport this vp w ->
  Forall (fun '(p, c, failure) =>
            run o p w =
              match o (calls w) c with
              | (elapsed, Resolved _) =>
                  (Returned tt,
                   {| mem := succeeded this elapsed (mem w); calls := calls w ++ [c] |})
              | (elapsed, Rejected e) =>
                  (Thrown e,
                   {| mem := failed failure e elapsed (mem w); calls := calls w ++ [c] |})
              end)
    [ (click this x y, MouseClick (fst (absolute vp x y)) (snd (absolute vp x y)),
       "PlaywrightService: Failed to click");
      (mouseMove this x y, MouseMove (fst (absolute vp x y)) (snd (absolute vp x y)),
       "PlaywrightService: Failed to move mouse");
      (pressKey this key, key_action key,
       "PlaywrightService: Failed to press key " +:+ key +:+ ":");
      (navigate this url, PageGoto url,
       "PlaywrightService: Failed to navigate to " +:+ url +:+ ":") ].
Proof.
  intros (s & pg & Hs & Hpg & Hvp). unfold succeeded, failed. each.
  - unfold click. rewrite (run_pointer o this x y _ _ w s pg vp Hs Hpg Hvp).
    exec. destruct (o (calls w) (MouseClick _ _)) as [dt [e|d]]; exec; reflexivity.
  - unfold mouseMove. rewrite (run_pointer o this x y _ _ w s pg vp Hs Hpg Hvp).
    exec. destruct (o (calls w) (MouseMove _ _)) as [dt [e|d]]; exec; reflexivity.
  - unfold pressKey. exec. rewrite Hpg.
    exec. destruct (o (calls w) (key_action key)) as [dt [e|d]]; exec; reflexivity.
  - unfold navigate. exec. rewrite Hpg.
    exec. destruct (o (calls w) (PageGoto url)) as [dt [e|d]]; exec; reflexivity.
Qed.

Lemma X1_input_outcome_witness :
  session_with_viewport 0 default_viewport streaming /\
  run (rejecting (fun _ => true) 7) (navigate 0 "about:blank") streaming =
    (Thrown "rejected",
     {| mem := failed "PlaywrightService: Failed to navigate to about:blank:" "rejected" 7
                 (mem streaming);
        calls := calls streaming ++ [PageGoto "about:blank"] |}).
Proof.
  split; [exact streaming_session|].
  pose proof (X1_input_outcome (rejecting (fun _ => true) 7) 0 streaming default_viewport
                0 0 "a" "about:blank" streaming_session) as H.
  do 3 apply List.Forall_inv_tail in H. apply List.Forall_inv in H. exact H.
Defined.

(** X2: [mouseDown] and [mouseUp] move the pointer to the fixed coordinates
    and then change the button; when the move is rejected the button is
    left alone.  The operation throws the first rejection, if any. *)
Theorem X2_button_after_move o this w vp x y :
  session_with_viewport this vp w ->
  Forall (fun '(p, button) =>
            let move := MouseMove (fst (absolute vp x y)) (snd (absolute vp x y)) in
            fst (run o p w) =
              match first_rejection o (calls w) [move; button] with
              | Some e => Thrown e
              | None => Returned tt
              end /\
            calls (snd (run o p w)) =
              calls w ++ move ::
                match snd (o (calls w) move) with
                | Resolved _ => [button]
                | Rejected _ => []
                end)
    [ (mouseDown this x y, MouseDown); (mouseUp this x y, MouseUp) ].
Proof.
  intros (s & pg & Hs & Hpg & Hvp). each; cbv zeta.
  - unfold mouseDown. rewrite (run_pointer o this x y _ _ w s pg vp Hs Hpg Hvp).
    unfold first_rejection, the_page. exec.
    destruct (o (calls w) (MouseMove _ _)) as [dt [e|d]]; exec; [now split|].
    rewrite Hpg. exec.
    destruct (o _ MouseDown) as [dt' [e|d']]; exec; split;
      first [reflexivity | now rewrite <- app_assoc].
  - unfold mouseUp. rewrite (run_pointer o this x y _ _ w s pg vp Hs Hpg Hvp).
    unfold first_rejection, the_page. exec.
    destruct (o (calls w) (MouseMove _ _)) as [dt [e|d]]; exec; [now split|].
    rewrite Hpg. exec.
    destruct (o _ MouseUp) as [dt' [e|d']]; exec; split;
      first [reflexivity | now rewrite <- app_assoc].
Qed.

Lemma X2_button_after_move_witness :
  session_with_viewport 0 default_viewport streaming /\
  calls (snd (run (rejecting (fun c => match c with MouseMove _ _ => true | _ => false end) 0)
                (mouseDown 0 (1#2) (1#2)) streaming)) =
    calls streaming ++ [MouseMove 640 360].
Proof.
  split; [exact streaming_session|].
  pose proof (X2_button_after_move
                (rejecting (fun c => match c with MouseMove _ _ => true | _ => false end) 0)
                0 streaming default_viewport (1#2) (1#2) streaming_session) as H.
  apply List.Forall_inv in H. exact (proj2 H).
Defined.

(** ** Frames that cannot be delivered *)

(** X6: a pushed frame that finds no open socket of the session is neither
    forwarded nor acknowledged to the driver, but it is recorded as the
    last frame and as activity. *)
Theorem X6_frame_without_socket o this w s frame :
  heap (mem w) !! this = Some s -> isStreaming s = true ->
  socket_of this (mem w) = None ->
  exists w',
    run o (onScreencastFrame this frame) w = (Returned tt, w') /\
    calls w' = calls w /\ clients (mem w') = clients (mem w) /\
    console (mem w') = console (mem w) /\
    service_at this (mem w') =
      set_lastActivity (clock (mem w)) (set_lastFrameTimestamp (clock (mem w)) s).
Proof.
  intros Hs Hst Hsock.
  pose proof (lookup_lt_heap _ _ _ Hs) as Hlt.
  unfold onScreencastFrame. exec. rewrite Hst. exec.
  rewrite run_findWebSocketForSession. cbn [mem].
  set (m1 := upd this _ (upd this _ (mem w))).
  assert (Hsock1 : socket_of this m1 = None).
  { rewrite <- Hsock. apply socket_of_ext; unfold m1; look; reduce; reflexivity. }
  rewrite Hsock1. cbn [fmap option_fmap option_map]. exec.
  eexists. split; [reflexivity|]. cbn [mem calls].
  split; [reflexivity|]. split; [reflexivity|]. split; [reflexivity|].
  unfold m1. look. reflexivity.
Qed.

Lemma X6_frame_without_socket_witness :
  heap (mem hung_up) !! 0%nat = Some (service_at 0 (mem hung_up)) /\
  socket_of 0 (mem hung_up) = None /\
  exists w',
    run obliging (onScreencastFrame 0 (sample_frame "f")) hung_up = (Returned tt, w') /\
    calls w' = calls hung_up /\ clients (mem w') = clients (mem hung_up).
Proof.
  assert (H1 : heap (mem hung_up) !! 0%nat = Some (service_at 0 (mem hung_up)))
    by (vm_compute; reflexivity).
  assert (H2 : isStreaming (service_at 0 (mem hung_up)) = true) by (vm_compute; reflexivity).
  assert (H3 : socket_of 0 (mem hung_up) = None) by (vm_compute; reflexivity).
  split; [exact H1|]. split; [exact H3|].
  destruct (X6_frame_without_socket obliging 0 hung_up (service_at 0 (mem hung_up))
              (sample_frame "f") H1 H2 H3)
    as (w' & Hrun & Hcalls & Hclients & _).
  exists w'. split; [exact Hrun|]. split; [exact Hcalls | exact Hclients].
Defined.

(** X7: a timer tick that is due but cannot deliver, because the capture is
    rejected or because the session has no open socket, returns normally
    having made the capture call and nothing else: no frame is sent and
    the service is as it was, so that the next tick is due again.  A
    rejected capture is on the console. *)
Theorem X7_tick_without_delivery o this w s pg :
  heap (mem w) !! this = Some s ->
  isStreaming s = true -> page s = Some pg -> streamingClient s <> None ->
  lastFrameTimestamp s = 0%Z \/
    (FRAME_INTERVAL <= clock (mem w) - lastFrameTimestamp s)%Z ->
  (exists e, snd (o (calls w) capture) = Rejected e) \/ socket_of this (mem w) = None ->
  exists w',
    run o (periodicFrame this) w = (Returned tt, w') /\
    calls w' = calls w ++ [capture] /\
    clients (mem w') = clients (mem w) /\
    heap (mem w') = heap (mem w) /\
    forall e, snd (o (calls w) capture) = Rejected e ->
              console (mem w') =
                console (mem w) ++ [ConsoleError "Periodic frame capture error:" e].
Proof.
  intros Hs Hst Hpg Hsc Hdue Hwhy.
  pose proof (lookup_lt_heap _ _ _ Hs) as Hlt.
  unfold periodicFrame, capture in *. exec. rewrite Hst, Hpg.
  destruct (streamingClient s) as [cl|] eqn:Hcl; [|congruence].
  rewrite !bool_decide_eq_false_2 by discriminate. exec.
  assert (Hcond : (lastFrameTimestamp s =? 0)%Z
                  || (FRAME_INTERVAL <=? clock (mem w) - lastFrameTimestamp s)%Z = true).
  { destruct Hdue as [->|Hge]; [reflexivity|].
    apply orb_true_iff. right. now apply Z.leb_le. }
  rewrite Hcond. exec.
  destruct (o (calls w) (CdpSend "Page.captureScreenshot")) as [dt [e|d]]; exec.
  - eexists. split; [reflexivity|]. cbn [mem calls].
    split; [reflexivity|]. split; [reflexivity|]. split; [reflexivity|].
    intros e' [= ->]. reflexivity.
  - destruct Hwhy as [[e He]|Hnone]; [discriminate|].
    rewrite run_findWebSocketForSession. cbn [mem].
    set (m1 := set_clock _ (mem w)).
    assert (Hsock1 : socket_of this m1 = None).
    { rewrite <- Hnone. apply socket_of_ext; reflexivity. }
    rewrite Hsock1. cbn [fmap option_fmap option_map]. exec.
    eexists. split; [reflexivity|]. cbn [mem calls].
    split; [reflexivity|]. split; [reflexivity|]. split; [reflexivity|].
    discriminate.
Qed.

Lemma X7_tick_without_delivery_witness :
  heap (mem streaming) !! 0%nat = Some (service_at 0 (mem streaming)) /\
  exists w',
    run (rejecting (fun _ => true) 0) (periodicFrame 0) streaming = (Returned tt, w') /\
    calls w' = calls streaming ++ [capture] /\
    clients (mem w') = clients (mem streaming).
Proof.
  destruct streaming_is_streaming as (H2 & H3 & H4 & H5 & _).
  destruct streaming_service_live as [H1 _].
  split; [exact H1|].
  destruct (X7_tick_without_delivery (rejecting (fun _ => true) 0) 0 streaming
              (service_at 0 (mem streaming)) {| viewportSize := Some default_viewport |}
              H1 H2 H3 H4 (or_introl H5)
              (or_introl (ex_intro _ "rejected" eq_refl)))
    as (w' & Hrun & Hcalls & Hclients & _).
  exists w'. split; [exact Hrun|]. split; [exact Hcalls | exact Hclients].
Defined.

(** ** What a key press can do *)

Lemma key_action_cases key :
  match key_action key with
  | PageGoBack => key = "Back"
  | PageGoForward => key = "Forward"
  | PageReload => key = "F5"
  | KeyboardType text => text = key /\ String.length key = 1%nat /\ key <> " "
  | KeyboardPress name =>
      (key = " " /\ name = "Space") \/
      (name = key /\ String.length key <> 1%nat)
  | _ => False
  end.
Proof.
  unfold key_action, key_table, switch.
  repeat match goal with
         | |- context [String.eqb key ?label] =>
             destruct (String.eqb_spec key label) as [->|?];
               [vm_compute; first [reflexivity | now right | now left]|]
         end.
  destruct (Nat.eqb_spec (String.length key) 1) as [Hlen|Hlen].
  - repeat split; assumption.
  - right. now split.
Qed.

(** X3: [pressKey] only ever asks the driver for a history step, a reload, a
    named key or a text of one character.  Text is typed for single
    characters other than the space, and a named key is pressed under the
    name it was sent with, the space apart, which is pressed as "Space".
    So the call tells the key that was sent, except that pressing "Space"
    is what both the space and the key of that name lead to. *)
Theorem X3_key_action_inverse key key' :
  match key_action key with
  | PageGoBack => key = "Back"
  | PageGoForward => key = "Forward"
  | PageReload => key = "F5"
  | KeyboardType text => text = key /\ String.length key = 1%nat /\ key <> " "
  | KeyboardPress name =>
      (key = " " /\ name = "Space") \/
      (name = key /\ String.length key <> 1%nat)
  | _ => False
  end /\
  (key_action key = key_action key' ->
   key = key' \/ (key = " " /\ key' = "Space") \/ (key = "Space" /\ key' = " ")) /\
  key_action " " = key_action "Space".
Proof.
  split; [apply key_action_cases|]. split; [|reflexivity].
  intros E.
  pose proof (key_action_cases key) as H. pose proof (key_action_cases key') as H'.
  rewrite E in H. destruct (key_action key').
  all: try contradiction.
  all: try (left; congruence).
  - destruct H as [[-> ->]|[-> Hl]], H' as [[-> E']|[E' Hl']]; subst; auto.
  - destruct H as (-> & _), H' as (-> & _). now left.
Qed.

Lemma X3_key_action_inverse_witness :
  key_action " " = key_action "Space" /\
  (" " = "Space" \/ (" " = " " /\ "Space" = "Space") \/ (" " = "Space" /\ "Space" = " ")).
Proof.
  assert (H : key_action " " = key_action "Space") by reflexivity.
  split; [exact H|].
  exact (proj1 (proj2 (X3_key_action_inverse " " "Space")) H).
Defined.

(** ** Messages, end to end *)

(** The message listener on a pointer message with both coordinates. *)
Lemma run_onMessage_pointer o ws sessionId w this type op x y data :
  activeSessions (mem w) !! sessionId = Some this ->
  In (type, op) pointer_handlers ->
  data_type data = Some type -> data_x data = Some x -> data_y data = Some y ->
  run o (onMessage ws sessionId (Parsed data)) w =
    match run o (op this x y) w with
    | (Returned _, w') => (Returned tt, w')
    | (Thrown e, w') =>
        (Returned tt,
         {| mem := reported ws "Error handling mouse event:"
                     ("Error with " +:+ type +:+ ": ") e (mem w');
            calls := calls w' |})
    end.
Proof.
  intros Hreg Hin Htype Hx Hy. unfold onMessage, reported.
  rewrite run_try_catch, run_bind, run_ret. cbn beta iota.
  rewrite run_bind, run_get. cbn beta iota. rewrite Hreg.
  unfold pointer_handlers in Hin. cbn [In] in Hin.
  destruct Hin as [[= <- <-]|[[= <- <-]|[[= <- <-]|[[= <- <-]|[]]]]];
    rewrite Htype; cbn beta iota;
    unfold handleMouseEvent, show_type; rewrite Hx, Hy, Htype, run_try_catch;
    cbn beta iota;
    match goal with
    | |- context [run o ?p w] => destruct (run o p w) as [[[]|e] w']
    end; try reflexivity.
Qed.

(** X15: a pointer message with both coordinates runs the operation that its
    type names on the service of the session; an error of the operation is
    logged and reported to the client as "Error with <type>: <error>", and
    the listener returns normally either way. *)
Theorem X15_pointer_message o ws sessionId w this type op x y data :
  activeSessions (mem w) !! sessionId = Some this ->
  In (type, op) pointer_handlers ->
  data_type data = Some type -> data_x data = Some x -> data_y data = Some y ->
  run o (onMessage ws sessionId (Parsed data)) w =
    match run o (op this x y) w with
    | (Returned _, w') => (Returned tt, w')
    | (Thrown e, w') =>
        (Returned tt,
         {| mem := reported ws "Error handling mouse event:"
                     ("Error with " +:+ type +:+ ": ") e (mem w');
            calls := calls w' |})
    end.
Proof. exact (run_onMessage_pointer o ws sessionId w this type op x y data). Qed.

Lemma X15_pointer_message_witness :
  activeSessions (mem streaming) !! "s1" = Some 0%nat /\
  In ("click", click) pointer_handlers /\
  fst (run obliging
         (onMessage 0 "s1"
            (Parsed {| data_type := Some "click"; data_x := Some (1#2); data_y := Some (1#2);
                       data_key := None; data_content := None |})) streaming)
    = Returned tt.
Proof.
  destruct streaming_is_streaming as (_ & _ & _ & _ & Hreg).
  split; [exact Hreg|]. split; [now left|].
  rewrite (X15_pointer_message obliging 0 "s1" streaming 0 "click" click (1#2) (1#2)
             {| data_type := Some "click"; data_x := Some (1#2); data_y := Some (1#2);
                data_key := None; data_content := None |}
             Hreg (or_introl eq_refl) eq_refl eq_refl eq_refl).
  destruct (run obliging (click 0 (1#2) (1#2)) streaming) as [[[]|e] w']; reflexivity.
Defined.

(** The message listener on a key message with a key. *)
Lemma run_onMessage_key o ws sessionId w this type key data :
  activeSessions (mem w) !! sessionId = Some this ->
  type = "keyPress" \/ type = "keypress" ->
  data_type data = Some type -> data_key data = Some key -> key <> EmptyString ->
  run o (onMessage ws sessionId (Parsed data)) w =
    match run o (pressKey this key) w with
    | (Returned _, w') => (Returned tt, w')
    | (Thrown e, w') =>
        (Returned tt,
         {| mem := reported ws "Error handling key event:" "Error pressing key: " e (mem w');
            calls := calls w' |})
    end.
Proof.
  intros Hreg Hin Htype Hkey Hne. unfold onMessage, reported.
  rewrite run_try_catch, run_bind, run_ret. cbn beta iota.
  rewrite run_bind, run_get. cbn beta iota. rewrite Hreg.
  destruct key as [|c key']; [contradiction|].
  destruct Hin as [->| ->]; rewrite Htype; cbn beta iota;
    unfold handleKeyEvent; rewrite Hkey, run_try_catch; cbn beta iota;
    match goal with
    | |- context [run o ?p w] => destruct (run o p w) as [[[]|e] w']
    end; reflexivity.
Qed.

(** X16: a key message with a non-empty key runs [pressKey] on the service of
    the session; an error is logged and reported as "Error pressing key:
    <error>". *)
Theorem X16_key_message o ws sessionId w this type key data :
  activeSessions (mem w) !! sessionId = Some this ->
  type = "keyPress" \/ type = "keypress" ->
  data_type data = Some type -> data_key data = Some key -> key <> EmptyString ->
  run o (onMessage ws sessionId (Parsed data)) w =
    match run o (pressKey this key) w with
    | (Returned _, w') => (Returned tt, w')
    | (Thrown e, w') =>
        (Returned tt,
         {| mem := reported ws "Error handling key event:" "Error pressing key: " e (mem w');
            calls := calls w' |})
    end.
Proof. exact (run_onMessage_key o ws sessionId w this type key data). Qed.

Lemma X16_key_message_witness :
  activeSessions (mem streaming) !! "s1" = Some 0%nat /\
  fst (run obliging
         (onMessage 0 "s1"
            (Parsed {| data_type := Some "keyPress"; data_x := None; data_y := None;
                       data_key := Some "Enter"; data_content := None |})) streaming)
    = Returned tt.
Proof.
  destruct streaming_is_streaming as (_ & _ & _ & _ & Hreg).
  split; [exact Hreg|].
  rewrite (X16_key_message obliging 0 "s1" streaming 0 "keyPress" "Enter"
             {| data_type := Some "keyPress"; data_x := None; data_y := None;
                data_key := Some "Enter"; data_content := None |}
             Hreg (or_introl eq_refl) eq_refl eq_refl ltac:(discriminate)).
  destruct (run obliging (pressKey 0 "Enter") streaming) as [[[]|e] w']; reflexivity.
Defined.

(** The message listener on an input message with a field missing. *)
Lemma run_onMessage_incomplete o ws sessionId w this type data :
  activeSessions (mem w) !! sessionId = Some this ->
  data_type data = Some type ->
  (In type (map fst pointer_handlers) ->
   data_x data = None \/ data_y data = None ->
   run o (onMessage ws sessionId (Parsed data)) w =
     (Returned tt,
      {| mem := reported ws "Error handling mouse event:"
                  ("Error with " +:+ type +:+ ": ") "Missing coordinates" (mem w);
         calls := calls w |})) /\
  (type = "keyPress" \/ type = "keypress" ->
   data_key data = None \/ data_key data = Some EmptyString ->
   run o (onMessage ws sessionId (Parsed data)) w =
     (Returned tt,
      {| mem := reported ws "Error handling key event:" "Error pressing key: "
                  "Missing key value" (mem w);
         calls := calls w |})).
Proof.
  intros Hreg Htype. unfold onMessage, reported.
  rewrite run_try_catch, run_bind, run_ret. cbn beta iota.
  rewrite run_bind, run_get. cbn beta iota. rewrite Hreg, Htype. split.
  - intros Hin Hmissing. cbn [map fst pointer_handlers In] in Hin.
    assert (Hbody : forall (a : Q -> Q -> Prog unit),
              match data_x data, data_y data with
              | Some x, Some y => a x y
              | _, _ => Throw "Missing coordinates"
              end = Throw "Missing coordinates").
    { intros a. destruct Hmissing as [-> | ->]; [reflexivity|].
      now destruct (data_x data). }
    destruct Hin as [<-|[<-|[<-|[<-|[]]]]]; cbn beta iota;
      unfold handleMouseEvent, show_type; rewrite Hbody, Htype; reflexivity.
  - intros Hin Hmissing.
    destruct Hin as [-> | ->]; cbn beta iota; unfold handleKeyEvent;
      destruct Hmissing as [-> | ->]; reflexivity.
Qed.

(** X17: a pointer message in which [x] or [y] is absent or is not a number,
    and a key message in which [key] is absent, counts as false or is the
    empty string, is answered by one status message and is logged; the
    driver is not called and the service is not touched. *)
Theorem X17_incomplete_input o ws sessionId w this type data :
  activeSessions (mem w) !! sessionId = Some this ->
  data_type data = Some type ->
  (In type (map fst pointer_handlers) ->
   data_x data = None \/ data_y data = None ->
   run o (onMessage ws sessionId (Parsed data)) w =
     (Returned tt,
      {| mem := reported ws "Error handling mouse event:"
                  ("Error with " +:+ type +:+ ": ") "Missing coordinates" (mem w);
         calls := calls w |})) /\
  (type = "keyPress" \/ type = "keypress" ->
   data_key data = None \/ data_key data = Some EmptyString ->
   run o (onMessage ws sessionId (Parsed data)) w =
     (Returned tt,
      {| mem := reported ws "Error handling key event:" "Error pressing key: "
                  "Missing key value" (mem w);
         calls := calls w |})).
Proof. exact (run_onMessage_incomplete o ws sessionId w this type data). Qed.

Lemma X17_incomplete_input_witness :
  let data := {| data_type := Some "click"; data_x := Some (1#2); data_y := None;
                 data_key := None; data_content := None |} in
  activeSessions (mem streaming) !! "s1" = Some 0%nat /\
  run obliging (onMessage 0 "s1" (Parsed data)) streaming =
    (Returned tt,
     {| mem := reported 0 "Error handling mouse event:" "Error with click: "
                 "Missing coordinates" (mem streaming);
        calls := calls streaming |}).
Proof.
  cbv zeta. destruct streaming_is_streaming as (_ & _ & _ & _ & Hreg).
  split; [exact Hreg|].
  exact (proj1 (X17_incomplete_input obliging 0 "s1" streaming 0 "click"
                  {| data_type := Some "click"; data_x := Some (1#2); data_y := None;
                     data_key := None; data_content := None |} Hreg eq_refl)
           (or_introl eq_refl) (or_intror eq_refl)).
Defined.

(** The message listener on a message that no handler takes. *)
Lemma run_onMessage_unroutable o ws sessionId w this data :
  activeSessions (mem w) !! sessionId = Some this ->
  ((forall type, data_type data = Some type -> ~ In type message_types) ->
   run o (onMessage ws sessionId (Parsed data)) w =
     (Returned tt,
      {| mem := transmit ws (ChatMessage ("Unknown command: " +:+ show_type data)
                               (clock (mem w))) (mem w);
         calls := calls w |})) /\
  (data_type data = Some "chat" -> data_content data = None ->
   run o (onMessage ws sessionId (Parsed data)) w =
     (Returned tt,
      {| mem := reported ws "Error processing message:" "Error processing message: "
                  no_content (mem w);
         calls := calls w |})) /\
  run o (onMessage ws sessionId Null) w =
    (Returned tt,
     {| mem := reported ws "Error processing message:" "Error processing message: "
                 (TypeError_null "type") (mem w);
        calls := calls w |}).
Proof.
  intros Hreg. unfold onMessage, reported.
  rewrite !run_try_catch, !run_bind, !run_ret. cbn beta iota.
  rewrite !run_bind, !run_get. cbn beta iota. rewrite Hreg.
  split; [|split; [|reflexivity]].
  - intros Hunknown. unfold show_type.
    destruct (data_type data) as [type|]; [|reflexivity].
    specialize (Hunknown type eq_refl). unfold message_types in Hunknown.
    generalize (handleMouseEvent this data ws) (handleKeyEvent this data ws)
      (handleChatMessage this (data_content data) ws).
    intros hm hk hc. cbn [default].
    repeat match goal with
           | |- context [match ?x with _ => _ end] => is_var x; destruct x
           end;
      try reflexivity;
      exfalso; apply Hunknown; repeat first [left; reflexivity | right].
  - intros -> ->. reflexivity.
Qed.

(** X18: a message whose [type] is absent, or is a string other than the
    seven that the relay routes, is answered by "Unknown command: <type>"
    ("undefined" for the absent one), and a chat message without [content]
    by "Error processing message: <message>" with the message of the error
    of the failed property access, which is also logged, and so is the
    message [null], of which no [type] can be read; in none of these cases
    is the driver called or the service touched. *)
Theorem X18_unroutable_message o ws sessionId w this data :
  activeSessions (mem w) !! sessionId = Some this ->
  ((forall type, data_type data = Some type -> ~ In type message_types) ->
   run o (onMessage ws sessionId (Parsed data)) w =
     (Returned tt,
      {| mem := transmit ws (ChatMessage ("Unknown command: " +:+ show_type data)
                               (clock (mem w))) (mem w);
         calls := calls w |})) /\
  (data_type data = Some "chat" -> data_content data = None ->
   run o (onMessage ws sessionId (Parsed data)) w =
     (Returned tt,
      {| mem := reported ws "Error processing message:" "Error processing message: "
                  no_content (mem w);
         calls := calls w |})) /\
  run o (onMessage ws sessionId Null) w =
    (Returned tt,
     {| mem := reported ws "Error processing message:" "Error processing message: "
                 (TypeError_null "type") (mem w);
        calls := calls w |}).
Proof. exact (run_onMessage_unroutable o ws sessionId w this data). Qed.

Lemma X18_unroutable_message_witness :
  let data := {| data_type := Some "scroll"; data_x := None; data_y := None;
                 data_key := None; data_content := None |} in
  activeSessions (mem streaming) !! "s1" = Some 0%nat /\
  (forall type, data_type data = Some type -> ~ In type message_types) /\
  run obliging (onMessage 0 "s1" (Parsed data)) streaming =
    (Returned tt,
     {| mem := transmit 0 (ChatMessage ("Unknown command: " +:+ show_type data)
                             (clock (mem streaming))) (mem streaming);
        calls := calls streaming |}).
Proof.
  cbv zeta. destruct streaming_is_streaming as (_ & _ & _ & _ & Hreg).
  assert (Hun : forall type,
            data_type {| data_type := Some "scroll"; data_x := None; data_y := None;
                         data_key := None; data_content := None |} = Some type ->
            ~ In type message_types).
  { intros type [= <-]. cbn. intuition discriminate. }
  split; [exact Hreg|]. split; [exact Hun|].
  exact (proj1 (X18_unroutable_message obliging 0 "s1" streaming 0
                  {| data_type := Some "scroll"; data_x := None; data_y := None;
                     data_key := None; data_content := None |} Hreg) Hun).
Defined.

(** The message listener on a chat message with a text. *)
Lemma run_onMessage_chat o ws sessionId w this s text data :
  activeSessions (mem w) !! sessionId = Some this ->
  heap (mem w) !! this = Some s -> page s <> None ->
  data_type data = Some "chat" -> data_content data = Some {| chat_text := text |} ->
  run o (onMessage ws sessionId (Parsed data)) w =
    match navigateRegex text with
    | None =>
        (Returned tt,
         {| mem := transmit ws (ChatMessage (echo text) (clock (mem w))) (mem w);
            calls := calls w |})
    | Some target =>
        let url := navigation_url target in
        let m1 := transmit ws (ChatMessage ("Navigating to " +:+ url +:+ "...")
                                 (clock (mem w))) (mem w) in
        match o (calls w) (PageGoto url) with
        | (elapsed, Resolved _) =>
            (Returned tt,
             {| mem := succeeded this elapsed m1; calls := calls w ++ [PageGoto url] |})
        | (elapsed, Rejected e) =>
            (Returned tt,
             {| mem := reported ws "Error navigating:" "Error navigating: " e
                         (failed ("PlaywrightService: Failed to navigate to " +:+ url +:+ ":")
                            e elapsed m1);
                calls := calls w ++ [PageGoto url] |})
        end
    end.
Proof.
  intros Hreg Hs Hpg Htype Hcontent. unfold onMessage.
  rewrite run_try_catch, run_bind, run_ret. cbn beta iota.
  rewrite run_bind, run_get. cbn beta iota. rewrite Hreg, Htype, Hcontent.
  cbn beta iota. unfold handleChatMessage, echo, reported, succeeded, failed.
  cbn [chat_text].
  destruct (navigateRegex text) as [target|]; [|reflexivity].
  cbv zeta. unfold navigate. exec.
  destruct (page s) as [pg|]; [|congruence]. exec.
  destruct (o (calls w) (PageGoto (navigation_url target))) as [dt [e|d]]; exec;
    reflexivity.
Qed.

(** X19: a chat message with a text is either a navigation command or it is
    echoed.  For a command the client is told "Navigating to <url>..."
    first, then the driver is asked for the page; when the driver rejects
    it the error is logged by the service and by the relay and the client
    is told "Error navigating: <error>".  The listener returns normally in
    every case. *)
Theorem X19_chat_message o ws sessionId w this s text data :
  activeSessions (mem w) !! sessionId = Some this ->
  heap (mem w) !! this = Some s -> page s <> None ->
  data_type data = Some "chat" -> data_content data = Some {| chat_text := text |} ->
  run o (onMessage ws sessionId (Parsed data)) w =
    match navigateRegex text with
    | None =>
        (Returned tt,
         {| mem := transmit ws (ChatMessage (echo text) (clock (mem w))) (mem w);
            calls := calls w |})
    | Some target =>
        let url := navigation_url target in
        let m1 := transmit ws (ChatMessage ("Navigating to " +:+ url +:+ "...")
                                 (clock (mem w))) (mem w) in
        match o (calls w) (PageGoto url) with
        | (elapsed, Resolved _) =>
            (Returned tt,
             {| mem := succeeded this elapsed m1; calls := calls w ++ [PageGoto url] |})
        | (elapsed, Rejected e) =>
            (Returned tt,
             {| mem := reported ws "Error navigating:" "Error navigating: " e
                         (failed ("PlaywrightService: Failed to navigate to " +:+ url +:+ ":")
                            e elapsed m1);
                calls := calls w ++ [PageGoto url] |})
        end
    end.
Proof. exact (run_onMessage_chat o ws sessionId w this s text data). Qed.

Lemma X19_chat_message_witness :
  let data := {| data_type := Some "chat"; data_x := None; data_y := None;
                 data_key := None;
                 data_content := Some {| chat_text := "open example.org" |} |} in
  activeSessions (mem streaming) !! "s1" = Some 0%nat /\
  calls (snd (run obliging (onMessage 0 "s1" (Parsed data)) streaming)) =
    calls streaming ++ [PageGoto "https://example.org"].
Proof.
  cbv zeta. destruct streaming_is_streaming as (_ & _ & _ & _ & Hreg).
  destruct streaming_service_live as [Hs Hpg].
  split; [exact Hreg|].
  rewrite (X19_chat_message obliging 0 "s1" streaming 0 (service_at 0 (mem streaming))
             "open example.org"
             {| data_type := Some "chat"; data_x := None; data_y := None;
                data_key := None;
                data_content := Some {| chat_text := "open example.org" |} |}
             Hreg Hs Hpg eq_refl eq_refl).
  replace (navigateRegex "open example.org") with (Some "example.org")
    by (vm_compute; reflexivity).
  cbv zeta. unfold obliging at 1. cbn [snd calls].
  replace (navigation_url "example.org") with "https://example.org"
    by (vm_compute; reflexivity).
  reflexivity.
Defined.

(** ** The command grammar *)

Lemma match_literal_i_inv pattern text rest :
  match_literal_i pattern text = Some rest ->
  exists pre, text = pre +:+ rest /\ lowercase pre = lowercase pattern.
Proof.
  revert text. induction pattern as [|p pattern IH]; intros text H.
  - exists EmptyString. injection H as ->. now split.
  - destruct text as [|c text]; [discriminate|]. cbn -[to_lower] in H.
    destruct (Ascii.eqb_spec (to_lower p) (to_lower c)) as [E|]; [|discriminate].
    destruct (IH _ H) as (pre & -> & Hpre).
    exists (String c pre). split; [reflexivity|]. cbn -[to_lower]. now rewrite E, Hpre.
Qed.

Lemma match_literal_i_lowercase pattern pre rest :
  lowercase pre = lowercase pattern ->
  match_literal_i pattern (pre +:+ rest) = Some rest.
Proof.
  revert pre. induction pattern as [|p pattern IH]; intros pre H.
  - destruct pre; [reflexivity | discriminate].
  - destruct pre as [|c pre]; [discriminate|]. cbn -[to_lower] in H.
    injection H as Hc Hpre.
    change (String c pre +:+ rest) with (String c (pre +:+ rest)).
    cbn -[to_lower]. rewrite Hc, Ascii.eqb_refl. now apply IH.
Qed.

Lemma match_literal_i_mismatch p pattern c pre rest :
  to_lower p <> to_lower c ->
  match_literal_i (String p pattern) (String c pre +:+ rest) = None.
Proof.
  intros H. change (String c pre +:+ rest) with (String c (pre +:+ rest)).
  cbn -[to_lower].
  destruct (Ascii.eqb_spec (to_lower p) (to_lower c)); [contradiction|].
  reflexivity.
Qed.

Lemma lowercase_app_inv text a b :
  lowercase text = a +:+ b ->
  exists t1 t2, text = t1 +:+ t2 /\ lowercase t1 = a /\ lowercase t2 = b.
Proof.
  revert text. induction a as [|x a IH]; intros text H.
  - exists EmptyString, text. now repeat split.
  - destruct text as [|c text]; [discriminate|]. cbn -[to_lower] in H.
    injection H as Hc H.
    destruct (IH _ H) as (t1 & t2 & -> & H1 & H2).
    exists (String c t1), t2. repeat split; [|exact H2]. cbn -[to_lower]. now rewrite Hc, H1.
Qed.

Lemma lowercase_app a b : lowercase (a +:+ b) = lowercase a +:+ lowercase b.
Proof.
  induction a as [|x a IH]; [reflexivity|].
  change (String (to_lower x) (lowercase (a +:+ b)) =
          String (to_lower x) (lowercase a +:+ lowercase b)).
  now rewrite IH.
Qed.

Lemma to_lower_space c : to_lower c = " "%char -> c = " "%char.
Proof.
  destruct c as [[] [] [] [] [] [] [] []]; vm_compute; intros H;
    first [reflexivity | discriminate H].
Qed.

Lemma lowercase_space text : lowercase text = " " -> text = " ".
Proof.
  destruct text as [|c [|c' text]]; try discriminate.
  cbn -[to_lower]. intros [= H]. now rewrite (to_lower_space c H).
Qed.

Lemma append_assoc (a b c : string) : (a +:+ b) +:+ c = a +:+ (b +:+ c).
Proof.
  induction a as [|x a IH]; [reflexivity|].
  change (String x ((a +:+ b) +:+ c) = String x (a +:+ (b +:+ c))). now rewrite IH.
Qed.

(** X20: a chat text is a navigation command exactly when it consists of one
    of the command words "go to", "navigate to" and "open", in any letter
    case, one space, and a target that is not empty and has no line break
    in it; the target is what follows that space, as it was typed. *)
Theorem X20_navigation_command text target :
  navigateRegex text = Some target <->
  exists word,
    text = word +:+ " " +:+ target /\ In (lowercase word) command_words /\
    dot_plus_end target = true.
Proof.
  split.
  - intros H. apply navigateRegex_target in H as (Hdot & alt & Halt & Hlit).
    apply match_literal_i_inv in Hlit as (pre & -> & Hpre).
    assert (Hlow : lowercase (alt +:+ " ") = alt +:+ " ").
    { cbn in Halt. destruct Halt as [<-|[<-|[<-|[]]]]; reflexivity. }
    rewrite Hlow in Hpre.
    apply lowercase_app_inv in Hpre as (word & sp & -> & Hword & Hsp).
    apply lowercase_space in Hsp as ->.
    exists word. split; [apply append_assoc|]. split; [now rewrite Hword | exact Hdot].
  - intros (word & -> & Hword & Hdot).
    unfold navigateRegex, command_words in *. cbn [In] in Hword.
    assert (Hlit : forall alt, lowercase word = alt -> lowercase (alt +:+ " ") = alt +:+ " " ->
                     match_literal_i (alt +:+ " ") (word +:+ " " +:+ target) = Some target).
    { intros alt Halt Hlow. rewrite <- append_assoc.
      apply match_literal_i_lowercase. rewrite Hlow, <- Halt.
      apply lowercase_app. }
    destruct Hword as [Hw|[Hw|[Hw|[]]]]; symmetry in Hw.
    + cbn [match_alternatives]. rewrite (Hlit _ Hw eq_refl), Hdot. reflexivity.
    + cbn [match_alternatives].
      rewrite (Hlit "navigate to" Hw eq_refl), Hdot.
      destruct word as [|c word]; [discriminate|]. cbn -[to_lower] in Hw.
      injection Hw as Hc _.
      change ("go to" +:+ " ") with (String "g" "o to ").
      rewrite match_literal_i_mismatch by (rewrite Hc; discriminate).
      reflexivity.
    + cbn [match_alternatives].
      rewrite (Hlit "open" Hw eq_refl), Hdot.
      destruct word as [|c word]; [discriminate|]. cbn -[to_lower] in Hw.
      injection Hw as Hc _.
      change ("go to" +:+ " ") with (String "g" "o to ").
      change ("navigate to" +:+ " ") with (String "n" "avigate to ").
      rewrite !match_literal_i_mismatch by (rewrite Hc; discriminate).
      reflexivity.
Qed.

(** X21: whatever the chat message, the only driver call it can lead to is
    one page request, and the address requested begins with "http". *)
Theorem X21_chat_requests_http o ws browserService chatMessage w :
  exists new,
    calls (snd (run o (handleChatMessage browserService chatMessage ws) w))
      = calls w ++ new /\
    (new = [] \/
     exists url, new = [PageGoto url] /\ String.prefix "http" url = true).
Proof.
  unfold handleChatMessage.
  destruct chatMessage as [content|];
    [|exists []; split; [now rewrite app_nil_r | now left]].
  destruct (navigateRegex (chat_text content)) as [target|];
    [|exists []; split; [now rewrite app_nil_r | now left]].
  cbv zeta. unfold navigate. exec.
  destruct (page (service_at browserService _)) as [pg|].
  - exec. exists [PageGoto (navigation_url target)]. split.
    + destruct (o (calls w) (PageGoto (navigation_url target))) as [dt [e|d]]; exec;
        reflexivity.
    + right. eexists. split; [reflexivity|]. unfold navigation_url.
      destruct (String.prefix "http" target) eqn:E; [exact E | reflexivity].
  - exec. exists []. split; [now rewrite app_nil_r | now left].
Qed.

(** ** From the page in the browser to the driver *)

(** A point inside an extent is sent as a fraction of it: a double between
    0 and 1, the two included. *)
Lemma quotient_fraction a b :
  double b -> finite b = true -> (0 <= a)%Q -> (a < b)%Q ->
  exists x, quotient (round a) b = Some x /\ double x /\ (0 <= x)%Q /\ (x <= 1)%Q.
Proof.
  intros Hd Hf H0 Hlt. assert (Hb : (0 < b)%Q) by lra.
  pose proof (round_nonneg a H0) as Ha0.
  assert (Ha1 : (round a <= b)%Q) by (apply round_le_double; [exact H0 | lra | exact Hd]).
  assert (Hq0 : (0 <= round a / b)%Q) by (apply Qle_shift_div_l; [exact Hb | lra]).
  assert (Hq1 : (round a / b <= 1)%Q) by (apply Qle_shift_div_r; [exact Hb | lra]).
  pose proof (round_nonneg _ Hq0) as Hr0.
  assert (Hr1 : (round (round a / b) <= 1)%Q)
    by (apply round_le_double; [exact Hq0 | exact Hq1 | exact double_1]).
  unfold quotient.
  destruct (Qeq_bool b 0) eqn:E; [apply Qeq_bool_iff in E; lra|].
  rewrite (finite_below (round a) b Ha0 Ha1 Hf). cbn [negb orb]. cbv zeta.
  rewrite (finite_below _ 1 Hr0 Hr1 finite_1).
  exists (round (round a / b)). split; [reflexivity|].
  split; [now apply double_round|]. now split.
Qed.

(** The pixel of a fraction between 0 and 1 is not beyond the size of the
    viewport. *)
Lemma floor_scaled_le x W : (0 <= x)%Q -> (x <= 1)%Q -> (1 <= W <= 2 ^ 53)%Z ->
  (inject_Z (Qfloor (round (x * inject_Z W))) <= inject_Z W)%Q.
Proof.
  intros H0 H1 HW.
  pose proof (inject_Z_ge_1 _ (proj1 HW)) as HW'.
  eapply Qle_trans; [apply Qfloor_le|].
  apply round_le_double; [nra | nra | apply double_Z; lia].
Qed.

Lemma pointer_handlers_operations type op :
  In (type, op) pointer_handlers -> In op pointer_operations.
Proof.
  unfold pointer_handlers, pointer_operations. cbn [In].
  intros [[= _ <-]|[[= _ <-]|[[= _ <-]|[[= _ <-]|[]]]]]; auto 6.
Qed.

(** X22: a mouse event inside the canvas of a connected page reaches the
    driver as one pointer position.  The page sends the position as
    fractions of the canvas, each a double between 0 and 1, and the service
    scales them to a pixel between [(0, 0)] and [(W, H)]; the pixel is
    inside the viewport unless a fraction has been rounded to 1. *)
Theorem X22_canvas_pointer o ws sessionId w this vp c rect event op :
  CanvasSection.connected c = true ->
  double (CanvasSection.width rect) -> finite (CanvasSection.width rect) = true ->
  double (CanvasSection.height rect) -> finite (CanvasSection.height rect) = true ->
  (CanvasSection.left rect <= CanvasSection.clientX event)%Q ->
  (CanvasSection.clientX event < CanvasSection.left rect + CanvasSection.width rect)%Q ->
  (CanvasSection.top rect <= CanvasSection.clientY event)%Q ->
  (CanvasSection.clientY event < CanvasSection.top rect + CanvasSection.height rect)%Q ->
  In (CanvasSection.type event, op) pointer_handlers ->
  activeSessions (mem w) !! sessionId = Some this ->
  session_with_viewport this vp w ->
  (1 <= width vp <= 2 ^ 53)%Z -> (1 <= height vp <= 2 ^ 53)%Z ->
  exists x y new p,
    let data := {| data_type := Some (CanvasSection.type event); data_x := Some x;
                   data_y := Some y; data_key := None; data_content := None |} in
    CanvasSection.handleMouseEvent c (Some rect) event = Some data /\
    (0 <= x /\ x <= 1)%Q /\ (0 <= y /\ y <= 1)%Q /\
    calls (snd (run o (onMessage ws sessionId (Parsed data)) w)) = calls w ++ new /\
    targets new = [p] /\
    (0 <= fst p /\ fst p <= inject_Z (width vp) /\
     0 <= snd p /\ snd p <= inject_Z (height vp))%Q /\
    ((x < 1)%Q -> (y < 1)%Q -> in_viewport vp p).
Proof.
  intros Hc Hdw Hfw Hdh Hfh Hx0 Hx1 Hy0 Hy1 Hop Hreg Hsess HW HH.
  destruct (quotient_fraction
              (CanvasSection.clientX event - CanvasSection.left rect)
              (CanvasSection.width rect) Hdw Hfw)
    as (x & Hqx & Hdx & Hx & Hx'); [lra|lra|].
  destruct (quotient_fraction
              (CanvasSection.clientY event - CanvasSection.top rect)
              (CanvasSection.height rect) Hdh Hfh)
    as (y & Hqy & Hdy & Hy & Hy'); [lra|lra|].
  destruct (targets_pointer_operation op o this x y w vp
              (pointer_handlers_operations _ _ Hop) Hsess) as (new & Hcalls & Htargets).
  exists x, y, new, (absolute vp x y). cbv zeta.
  set (data := {| data_type := Some (CanvasSection.type event); data_x := Some x;
                  data_y := Some y; data_key := None; data_content := None |}).
  split; [unfold CanvasSection.handleMouseEvent; rewrite Hc; cbv zeta; cbn [negb];
          rewrite Hqx, Hqy; reflexivity|].
  split; [now split|]. split; [now split|].
  split; [|split; [exact Htargets|split]].
  - rewrite (run_onMessage_pointer o ws sessionId w this (CanvasSection.type event) op x y
               data Hreg Hop eq_refl eq_refl eq_refl).
    rewrite <- Hcalls. destruct (run o (op this x y) w) as [[[]|e] w']; reflexivity.
  - rewrite (absolute_fraction vp x y Hx' Hy'). cbn [fst snd].
    repeat split;
      first [apply floor_scaled_nonneg; [assumption | lia]
            | apply floor_scaled_le; assumption].
  - intros Hx1' Hy1'. apply absolute_in_viewport; auto; lia.
Qed.

Lemma X22_canvas_pointer_witness :
  let rect := {| CanvasSection.left := 100; CanvasSection.top := 50;
                 CanvasSection.width := 640; CanvasSection.height := 360 |} in
  let event := {| CanvasSection.type := "click"; CanvasSection.clientX := 420;
                  CanvasSection.clientY := 140 |} in
  CanvasSection.connected online = true /\
  double (CanvasSection.width rect) /\ finite (CanvasSection.width rect) = true /\
  double (CanvasSection.height rect) /\ finite (CanvasSection.height rect) = true /\
  exists x y new p,
    let data := {| data_type := Some "click"; data_x := Some x;
                   data_y := Some y; data_key := None; data_content := None |} in
    CanvasSection.handleMouseEvent online (Some rect) event = Some data /\
    (0 <= x /\ x <= 1)%Q /\ (0 <= y /\ y <= 1)%Q /\
    calls (snd (run obliging (onMessage 0 "s1" (Parsed data)) streaming))
      = calls streaming ++ new /\
    targets new = [p] /\
    (0 <= fst p /\ fst p <= inject_Z 1280 /\ 0 <= snd p /\ snd p <= inject_Z 720)%Q /\
    ((x < 1)%Q -> (y < 1)%Q -> in_viewport default_viewport p).
Proof.
  cbv zeta.
  assert (Hdw : double 640) by (vm_compute; reflexivity).
  assert (Hfw : finite 640 = true) by (vm_compute; reflexivity).
  assert (Hdh : double 360) by (vm_compute; reflexivity).
  assert (Hfh : finite 360 = true) by (vm_compute; reflexivity).
  split; [reflexivity|].
  split; [exact Hdw|]. split; [exact Hfw|]. split; [exact Hdh|]. split; [exact Hfh|].
  destruct streaming_is_streaming as (_ & _ & _ & _ & Hreg).
  apply (X22_canvas_pointer obliging 0 "s1" streaming 0 default_viewport online
           {| CanvasSection.left := 100; CanvasSection.top := 50;
              CanvasSection.width := 640; CanvasSection.height := 360 |}
           {| CanvasSection.type := "click"; CanvasSection.clientX := 420;
              CanvasSection.clientY := 140 |} click).
  - reflexivity.
  - exact Hdw.
  - exact Hfw.
  - exact Hdh.
  - exact Hfh.
  - cbn. lra.
  - cbn. lra.
  - cbn. lra.
  - cbn. lra.
  - now left.
  - exact Hreg.
  - exact streaming_session.
  - cbn. lia.
  - cbn. lia.
Defined.

(** The bound [(W, H)] is reached from inside the canvas: the difference
    of 193 and 0.7 rounds to the width of the canvas, the fraction is 1,
    and the click goes to the pixel 1280, one beyond the viewport. *)
Lemma canvas_edge_pixel :
  (CanvasSection.left narrow_canvas <= CanvasSection.clientX click_at_the_edge)%Q /\
  (CanvasSection.clientX click_at_the_edge <
     CanvasSection.left narrow_canvas + CanvasSection.width narrow_canvas)%Q /\
  exists x y,
    CanvasSection.handleMouseEvent online (Some narrow_canvas) click_at_the_edge =
      Some {| data_type := Some "click"; data_x := Some x; data_y := Some y;
              data_key := None; data_content := None |} /\
    (x == 1)%Q /\
    calls (snd (run obliging (click 0 x y) streaming)) =
      calls streaming ++ [MouseClick 1280 360].
Proof.
  split; [vm_compute; discriminate|]. split; [vm_compute; reflexivity|].
  eexists _, _. split; [vm_compute; reflexivity|].
  split; vm_compute; reflexivity.
Qed.

(** The driver call of a key message. *)
Lemma calls_onMessage_key o ws sessionId w this s key data :
  activeSessions (mem w) !! sessionId = Some this ->
  heap (mem w) !! this = Some s -> page s <> None ->
  data_type data = Some "keyPress" -> data_key data = Some key -> key <> EmptyString ->
  calls (snd (run o (onMessage ws sessionId (Parsed data)) w)) = calls w ++ [key_action key].
Proof.
  intros Hreg Hs Hpg Htype Hkey Hne.
  rewrite (run_onMessage_key o ws sessionId w this "keyPress" key data
             Hreg (or_introl eq_refl) Htype Hkey Hne).
  rewrite <- (run_pressKey o this key w s Hs Hpg).
  destruct (run o (pressKey this key) w) as [[[]|e] w']; reflexivity.
Qed.

(** X23: a key pressed on the canvas of a connected page reaches the driver
    as the call that [pressKey] makes for that key, and the three buttons
    of the toolbar reach it as a step back, a step forward and a reload;
    for any other action name nothing is sent. *)
Theorem X23_canvas_keys o ws sessionId w this s c :
  CanvasSection.connected c = true ->
  activeSessions (mem w) !! sessionId = Some this ->
  heap (mem w) !! this = Some s -> page s <> None ->
  (forall event, CanvasSection.key event <> EmptyString ->
     exists data,
       CanvasSection.handleKeyDown c event = Some data /\
       calls (snd (run o (onMessage ws sessionId (Parsed data)) w))
         = calls w ++ [key_action (CanvasSection.key event)]) /\
  (forall action call, In (action, call) browser_actions ->
     exists data,
       CanvasSection.sendBrowserAction c action = Some data /\
       calls (snd (run o (onMessage ws sessionId (Parsed data)) w)) = calls w ++ [call]) /\
  (forall action, ~ In action (map fst browser_actions) ->
     CanvasSection.sendBrowserAction c action = None).
Proof.
  intros Hc Hreg Hs Hpg. split; [|split].
  - intros event Hne. eexists.
    split; [unfold CanvasSection.handleKeyDown; rewrite Hc; reflexivity|].
    now apply (calls_onMessage_key o ws sessionId w this s).
  - intros action call Hin. unfold browser_actions in Hin. cbn [In] in Hin.
    unfold CanvasSection.sendBrowserAction. rewrite Hc. cbn [negb].
    destruct Hin as [[= <- <-]|[[= <- <-]|[[= <- <-]|[]]]];
      (eexists; split; [reflexivity|]).
    + now apply (calls_onMessage_key o ws sessionId w this s "Back").
    + now apply (calls_onMessage_key o ws sessionId w this s "Forward").
    + now apply (calls_onMessage_key o ws sessionId w this s "F5").
  - intros action Hnot. unfold CanvasSection.sendBrowserAction. rewrite Hc. cbn [negb].
    unfold browser_actions in Hnot. cbn [map fst In] in Hnot.
    repeat match goal with
           | |- context [match ?x with _ => _ end] => is_var x; destruct x
           end;
      try reflexivity;
      exfalso; apply Hnot; repeat first [left; reflexivity | right].
Qed.

Lemma X23_canvas_keys_witness :
  CanvasSection.connected online = true /\
  exists data,
    CanvasSection.sendBrowserAction online "refresh" = Some data /\
    calls (snd (run obliging (onMessage 0 "s1" (Parsed data)) streaming))
      = calls streaming ++ [PageReload].
Proof.
  split; [reflexivity|].
  destruct streaming_is_streaming as (_ & _ & _ & _ & Hreg).
  destruct streaming_service_live as [Hs Hpg].
  apply (proj1 (proj2 (X23_canvas_keys obliging 0 "s1" streaming 0 _ online
                         eq_refl Hreg Hs Hpg)) "refresh" PageReload).
  right. right. now left.
Defined.


